(** * lpath [match] step: pattern matching and clustering of pathways

    A shallow embedding of [src/lpath/match.py].  Python values are
    modelled as follows.

    - A frame record (one row of the [pathways] array, columns
      Iter/Seg/State/auxdata.../weight) is a record; integer columns are
      [Z], the weight and the auxiliary columns are rationals [Q] standing
      for the floats of the program.
    - A Python [str] is the list of its Unicode code points.
    - A Python [dict] from state ids to state strings is a [gmap Z pystr].
    - Exceptions are the [Raise] results of the [result] monad.
    - Files written with [numpy.save]/[open] live in an explicit store that
      is threaded through the functions touching the disk. *)

From stdpp Require Import gmap list strings pretty.
From Stdlib Require Import Ascii QArith Qminmax Lqa.

Local Open Scope Z_scope.

(** ** Exceptions *)

Inductive exn : Set :=
  | KeyError
  | ZeroDivisionError
  | IndexError
  | ValueError
  | AssertionError
  | FileNotFoundError
  | TypeError.

Inductive result (A : Type) : Type :=
  | Ok (a : A)
  | Raise (e : exn).
Arguments Ok {A} a.
Arguments Raise {A} e.

Global Instance result_ret : MRet result := @Ok.
Global Instance result_bind : MBind result := λ A B f m,
  match m with
  | Ok a => f a
  | Raise e => Raise e
  end.

Global Instance result_fmap : FMap result := λ A B f m,
  match m with
  | Ok a => Ok (f a)
  | Raise e => Raise e
  end.

(** The call returns. *)
Definition is_Ok {A} (r : result A) : Prop := ∃ a, r = Ok a.

(** ** Strings *)

Abbreviation pychar := N.
Abbreviation pystr := (list pychar).

(** Code points of an ASCII literal, to write examples readably. *)
Fixpoint str (s : string) : pystr :=
  match s with
  | EmptyString => []
  | String c s' => N_of_ascii c :: str s'
  end.

(** [chr(i)]: the one-character string of code point [i]; [ValueError]
    outside [range(0x110000)]. *)
Definition chr (i : Z) : result pystr :=
  if decide (0 ≤ i < 1114112) then Ok [Z.to_N i] else Raise ValueError.

(** ** The [pylcs] extension module

    [pylcs] is a C++ extension bound with pybind11.  Its functions take
    [std::string] arguments: the binding encodes each Python [str] as
    UTF-8 and the call raises [TypeError] when a string cannot be encoded,
    which is the case exactly when it holds a surrogate code point
    (U+D800 to U+DFFF).  The C++ code then splits the bytes back into
    characters and fills the usual dynamic-programming table row by row.
    [prev] is row [i-1] of the table (entries [0..n]), [left] is
    [dp[i][j-1]]. *)

Module pylcs.

(** A code point without a UTF-8 encoding. *)
Definition surrogate (c : pychar) : bool :=
  ((55296 <=? c) && (c <=? 57343))%N.

(** The string can be handed to a [std::string] parameter. *)
Definition utf8_encodable (s : pystr) : bool :=
  forallb (λ c, negb (surrogate c)) s.

Fixpoint lcs_row (a : pychar) (t : pystr) (prev : list nat) (left : nat)
    : list nat :=
  match t, prev with
  | b :: t', diag :: ((up :: _) as prev') =>
      let v := if decide (a = b) then (diag + 1)%nat
               else if decide (left ≤ up)%nat then up else left in
      v :: lcs_row a t' prev' v
  | _, _ => []
  end.

Definition lcs_next_row (t : pystr) (prev : list nat) (a : pychar) : list nat :=
  0%nat :: lcs_row a t prev 0%nat.

(** The C++ function behind [lcs_sequence_length], on the characters of
    the two decoded strings. *)
Definition lcs_length_ (s1 s2 : pystr) : nat :=
  match s1, s2 with
  | [], _ | _, [] => 0%nat
  | _, _ =>
      let row0 := replicate (S (length s2)) 0%nat in
      List.last (foldl (lcs_next_row s2) row0 s1) 0%nat
  end.

(** Longest common substring: [dp[i][j]] is the length of the common
    suffix of the two prefixes, and the running maximum is returned. *)
Fixpoint lcs2_row (a : pychar) (t : pystr) (prev : list nat) : list nat :=
  match t, prev with
  | b :: t', diag :: prev' =>
      (if decide (a = b) then (diag + 1)%nat else 0%nat) :: lcs2_row a t' prev'
  | _, _ => []
  end.

Definition upd_max (mx v : nat) : nat :=
  if decide (mx < v)%nat then v else mx.

Definition lcs2_next_row (t : pystr) (st : list nat * nat) (a : pychar)
    : list nat * nat :=
  let row := lcs2_row a t st.1 in
  (0%nat :: row, foldl upd_max st.2 row).

(** The C++ function behind [lcs_string_length]. *)
Definition lcs2_length_ (s1 s2 : pystr) : nat :=
  match s1, s2 with
  | [], _ | _, [] => 0%nat
  | _, _ =>
      let row0 := replicate (S (length s2)) 0%nat in
      (foldl (lcs2_next_row s2) (row0, 0%nat) s1).2
  end.

(** The Python entry points: both arguments are converted before the
    C++ function runs. *)
Definition lcs_sequence_length (s1 s2 : pystr) : result nat :=
  if utf8_encodable s1 && utf8_encodable s2 then Ok (lcs_length_ s1 s2)
  else Raise TypeError.

Definition lcs_string_length (s1 s2 : pystr) : result nat :=
  if utf8_encodable s1 && utf8_encodable s2 then Ok (lcs2_length_ s1 s2)
  else Raise TypeError.

End pylcs.

(** ** Distances *)

(** [len(dictionary)] *)
Definition len_dict (dictionary : gmap Z pystr) : Z := Z.of_nat (size dictionary).

(** [dictionary[x]] *)
Definition getitem (dictionary : gmap Z pystr) (x : Z) : result pystr :=
  match dictionary !! x with
  | Some s => Ok s
  | None => Raise KeyError
  end.

(** ["".join(dictionary[x] for x in seq)] *)
Fixpoint join_states (dictionary : gmap Z pystr) (seq : list Z) : result pystr :=
  match seq with
  | [] => Ok []
  | x :: seq' =>
      s ← getitem dictionary x;
      rest ← join_states dictionary seq';
      Ok (s ++ rest)
  end.

(** [a / b] on two Python ints. *)
Definition true_div (a b : Z) : result Q :=
  if decide (b = 0) then Raise ZeroDivisionError
  else Ok (inject_Z a / inject_Z b)%Q.

(** The progress-bar update has no effect on the value and is left out. *)
Definition calc_dist (seq1 seq2 : list Z) (dictionary : gmap Z pystr) : result Q :=
  let seq1 := filter (λ x, x < len_dict dictionary - 1) seq1 in
  seq1_str ← join_states dictionary seq1;
  let seq2 := filter (λ x, x < len_dict dictionary - 1) seq2 in
  seq2_str ← join_states dictionary seq2;
  km ← Z.of_nat <$> pylcs.lcs_sequence_length seq1_str seq2_str;
  similarity ← true_div (2 * km) (Z.of_nat (length seq1_str + length seq2_str));
  Ok (1 - similarity)%Q.

Definition calc_dist_substr (seq1 seq2 : list Z) (dictionary : gmap Z pystr)
    : result Q :=
  seq1_str ← join_states dictionary seq1;
  seq2_str ← join_states dictionary seq2;
  km ← Z.of_nat <$> pylcs.lcs_string_length seq1_str seq2_str;
  similarity ← true_div (2 * km) (Z.of_nat (length seq1_str + length seq2_str));
  Ok (1 - similarity)%Q.

(** ** Pathways *)

(** One row of the [pathways] array: Iter/Seg/State/auxdata.../weight.
    Column [0] is the iteration, [1] the segment, [2] the state and [-1]
    the weight. *)
Record frame : Set := Frame {
  iteration_id : Z;
  segment_id : Z;
  state_id : Z;
  auxdata : list Q;
  weight : Q;
}.

Abbreviation pathway := (list frame).

(** [step[2] = v] *)
Definition set_state_id (step : frame) (v : Z) : frame :=
  {| iteration_id := iteration_id step;
     segment_id := segment_id step;
     state_id := v;
     auxdata := auxdata step;
     weight := weight step |}.

(** A row of [numpy.zeros(..., dtype=object)], with [naux] auxiliary
    columns. *)
Definition zero_frame (naux : nat) : frame :=
  {| iteration_id := 0; segment_id := 0; state_id := 0;
     auxdata := replicate naux 0%Q; weight := 0%Q |}.

(** [max(l)] on a list of ints. *)
Definition py_max (l : list Z) : result Z :=
  match l with
  | [] => Raise ValueError
  | x :: l' => Ok (foldl Z.max x l')
  end.

(** [list(range(0, n))] *)
Definition py_range (n : Z) : list Z := Z.of_nat <$> seq 0 (Z.to_nat n).

(** The part of [load_data] after unpickling: the zero-filled array of
    shape [(npathways, lpathways, n)]. *)
Definition load_data (data : list pathway) : result (list pathway * list pathway) :=
  let npathways := length data in
  if decide (npathways = 0%nat) then Raise AssertionError else
  let lpathways := max_list (length <$> data) in
  match data with
  | (f :: _) :: _ =>
      Ok (data, replicate npathways (replicate lpathways (zero_frame (length (auxdata f)))))
  | _ => Raise IndexError
  end.

(** [pathways[idx, idx2] = val2] *)
Definition setitem2 (pathways : list pathway) (idx idx2 : nat) (val2 : frame)
    : result (list pathway) :=
  match pathways !! idx with
  | Some traj =>
      if decide (idx2 < length traj)%nat
      then Ok (<[idx := <[idx2 := val2]> traj]> pathways)
      else Raise IndexError
  | None => Raise IndexError
  end.

(** [pathways[idx, idx2, 2] = v] *)
Definition setitem_state (pathways : list pathway) (idx idx2 : nat) (v : Z)
    : result (list pathway) :=
  match pathways !! idx with
  | Some traj =>
      match traj !! idx2 with
      | Some step => Ok (<[idx := <[idx2 := set_state_id step v]> traj]> pathways)
      | None => Raise IndexError
      end
  | None => Raise IndexError
  end.

(** ** Reassignment with segment ids *)

(** The inner loop of [reassign_segid], from [idx2] on. *)
Fixpoint segid_inner (pathways : list pathway) (idx idx2 : nat) (flipped_val : list frame)
    : result (list pathway) :=
  match flipped_val with
  | [] => Ok pathways
  | val2 :: rest =>
      pathways ← setitem2 pathways idx idx2 val2;
      pathways ← setitem_state pathways idx idx2 (segment_id val2);
      segid_inner pathways idx (S idx2) rest
  end.

(** The outer loop of [reassign_segid], from [idx] on. *)
Fixpoint segid_outer (pathways : list pathway) (idx : nat) (data : list pathway)
    : result (list pathway) :=
  match data with
  | [] => Ok pathways
  | val :: rest =>
      pathways ← segid_inner pathways idx 0 (reverse val);
      segid_outer pathways (S idx) rest
  end.

(** [for idx in range(n_states): dictionary[idx] = chr(idx + 65)] *)
Fixpoint segid_letters (dictionary : gmap Z pystr) (idxs : list Z)
    : result (gmap Z pystr) :=
  match idxs with
  | [] => Ok dictionary
  | idx :: rest =>
      c ← chr (idx + 65);
      segid_letters (<[idx := c]> dictionary) rest
  end.

Definition reassign_segid (data : list pathway) (pathways : list pathway)
    (dictionary : gmap Z pystr) : result (list pathway * gmap Z pystr) :=
  pathways ← segid_outer pathways 0 data;
  m ← py_max (state_id <$> concat pathways);
  let n_states := m + 1 in
  dictionary ← segid_letters dictionary (py_range n_states);
  Ok (pathways, <[n_states := str "!"]> dictionary).

(** ** Padding *)

Definition expand_step (dictionary : gmap Z pystr) (step : frame) : frame :=
  if decide (iteration_id step = 0)
  then set_state_id step (len_dict dictionary - 1)
  else step.

(** The array is updated in place; the updated array is the result. *)
Definition expand_shorter_traj (pathways : list pathway) (dictionary : gmap Z pystr)
    : list pathway :=
  (λ pathway : pathway, expand_step dictionary <$> pathway) <$> pathways.

(** ** Files *)

Abbreviation matrix := (list (list Q)).

(** A file of the store: an array saved by [numpy.save], or a text file
    written with [writelines], one line per value, each line the formatting
    of that value. *)
Inductive file : Set :=
  | NpyFile (a : matrix)
  | TextFile (lines : list frame).

(** The files by name.  Names are taken as they are written: the store
    stands for a directory tree without links in which every directory
    that is named exists, and it tells two spellings of one path apart.
    Statements that depend on two names being two files are stated for
    plain names. *)
Abbreviation store := (gmap string file).

(** [s.rsplit("/", 1)[0]] *)
Fixpoint before_last_slash (s : string) : option string :=
  match s with
  | EmptyString => None
  | String c s' =>
      match before_last_slash s' with
      | Some h => Some (String c h)
      | None => if decide (c = "/"%char) then Some EmptyString else None
      end
  end.

Definition rsplit1_head (s : string) : string :=
  default s (before_last_slash s).

(** [numpy.save] appends [.npy] to a file name that lacks it. *)
Definition npy_name (file_name : string) : string :=
  if String.prefix (String.rev ".npy") (String.rev file_name)
  then file_name else (file_name +:+ ".npy")%string.

Definition numpy_save (file_name : string) (a : matrix) (fs : store) : store :=
  <[npy_name file_name := NpyFile a]> fs.

Definition numpy_load (file_name : string) (fs : store) : result matrix :=
  match fs !! file_name with
  | Some (NpyFile a) => Ok a
  | Some (TextFile _) => Raise ValueError
  | None => Raise FileNotFoundError
  end.

(** [os.path.exists] *)
Definition exists_ (name : string) (fs : store) : bool :=
  bool_decide (is_Some (fs !! name)).

(** ** [sklearn.metrics.pairwise_distances] with a callable metric

    scikit-learn first converts [X] to a 2-D array
    ([check_pairwise_arrays]), which raises [ValueError] when [X] has no
    row, rows of different lengths or rows without a column.  With one job
    and [Y] absent it then evaluates the metric on the strict upper
    triangle ([itertools.combinations(range(n), 2)]), mirrors it
    ([out + out.T]) and evaluates the metric on the diagonal
    ([_pairwise_callable]). *)

Module sklearn.

Section Pairwise.
Context {A : Type} (metric : A → A → result Q).

Fixpoint upper_triangle (X : list A) : result (list (list Q)) :=
  match X with
  | [] => Ok []
  | x :: X' =>
      row ← mapM (metric x) X';
      rest ← upper_triangle X';
      Ok (row :: rest)
  end.

Fixpoint assemble (upper : list (list Q)) (diag : list Q) : matrix :=
  match upper, diag with
  | row :: upper', d :: diag' =>
      (d :: row) :: zip_with cons row (assemble upper' diag')
  | _, _ => []
  end.

Definition pairwise_callable (X : list A) : result matrix :=
  upper ← upper_triangle X;
  diag ← mapM (λ x, metric x x) X;
  Ok (assemble upper diag).
End Pairwise.

Section Checked.
Context {B : Type} (metric : list B → list B → result Q).

Definition check_pairwise_arrays (X : list (list B)) : result unit :=
  match X with
  | [] => Raise ValueError
  | x :: X' =>
      if decide (x ≠ [] ∧ Forall (λ y, length y = length x) X') then Ok ()
      else Raise ValueError
  end.

Definition pairwise_distances (X : list (list B)) : result matrix :=
  _ ← check_pairwise_arrays X;
  pairwise_callable metric X.
End Checked.

End sklearn.

(** [m[i][j]] *)
Definition entry (m : matrix) (i j : nat) : option Q :=
  row ← m !! i; row !! j.

(** ** The distance matrix *)

(** [weights.append(nonzero[-1][-1])] and [weights.append(pathway[-1][-1])] *)
Definition last_weight (frames : list frame) : result Q :=
  match last frames with
  | Some step => Ok (weight step)
  | None => Raise IndexError
  end.

Definition pathway_weight (metric : bool) (dictionary : gmap Z pystr) (pathway : pathway)
    : result Q :=
  if metric then
    let nonzero := filter (λ step, state_id step < len_dict dictionary - 1) pathway in
    last_weight nonzero
  else last_weight pathway.

(** [gen_dist_matrix] with [n_jobs=None].  The result comes with the store
    as the call leaves it. *)
Definition gen_dist_matrix (pathways : list pathway) (dictionary : gmap Z pystr)
    (file_name out_dir : string) (remake metric : bool) (fs : store)
    : result (matrix * list Q) * store :=
  let out_dir := rsplit1_head out_dir in
  let new_name := (out_dir +:+ "/" +:+ file_name)%string in
  match mapM (pathway_weight metric dictionary) pathways with
  | Raise e => (Raise e, fs)
  | Ok weights =>
      let path_strings := (λ pathway : pathway, state_id <$> pathway) <$> pathways in
      if negb (exists_ new_name fs) || remake then
        match
          (if metric
           then sklearn.pairwise_distances (λ x y, calc_dist x y dictionary) path_strings
           else sklearn.pairwise_distances (λ x y, calc_dist_substr x y dictionary) path_strings)
        with
        | Raise e => (Raise e, fs)
        | Ok distmat => (Ok (distmat, weights), numpy_save file_name distmat fs)
        end
      else
        match numpy_load file_name fs with
        | Raise e => (Raise e, fs)
        | Ok distmat => (Ok (distmat, weights), fs)
        end
  end.

(** ** Representatives and export *)

(** [a[mask]] for a boolean mask of the length of [a]. *)
Definition mask_select {A} (a : list A) (mask : list bool) : result (list A) :=
  if decide (length a = length mask)
  then Ok (fst <$> filter (λ p, snd p = true) (zip a mask))
  else Raise IndexError.

(** [numpy.argmax]: the first index of the maximum. *)
Fixpoint argmax_from (best_i : nat) (best : Q) (i : nat) (l : list Q) : nat :=
  match l with
  | [] => best_i
  | x :: l' =>
      if Qlt_le_dec best x then argmax_from i x (S i) l'
      else argmax_from best_i best (S i) l'
  end.

Definition argmax (l : list Q) : result nat :=
  match l with
  | [] => Raise ValueError
  | x :: l' => Ok (argmax_from 0 x 1 l')
  end.

(** [l[i]] *)
Definition getindex {A} (l : list A) (i : nat) : result A :=
  match l !! i with
  | Some x => Ok x
  | None => Raise IndexError
  end.

Definition select_rep (data_arr : list pathway) (weights : list Q)
    (cluster_labels : list Z) (icluster : Z) : result (list pathway * frame) :=
  let selected_cluster := (λ l, bool_decide (l = icluster)) <$> cluster_labels in
  cluster_arr ← mask_select data_arr selected_cluster;
  let data_cl := cluster_arr in
  weights_cl ← mask_select weights selected_cluster;
  i ← argmax weights_cl;
  rep ← getindex data_cl i;
  rep_weight ← getindex rep 0;
  Ok (data_cl, rep_weight).

Definition determine_clusters (cluster_labels : list Z) (clusters : option (list Z))
    : result (list Z) :=
  match clusters with
  | None => m ← py_max cluster_labels; Ok (py_range (m + 1))
  | Some clusters => Ok clusters
  end.

(** [list(numpy.array(item)[:, :2])]: the first two columns of a member
    of the cluster.  An empty member makes a 1-D array, which cannot be
    indexed on two axes. *)
Definition trace_out (item : pathway) : result (list (Z * Z)) :=
  match item with
  | [] => Raise IndexError
  | _ => Ok ((λ step, (iteration_id step, segment_id step)) <$> item)
  end.

(** The loop of [export_std_files], with the lines collected so far.  The
    list [trace_out_list] is filled and then dropped. *)
Fixpoint export_loop (data_arr : list pathway) (weights : list Q)
    (cluster_labels : list Z) (clusters : list Z) (representative_list : list frame)
    : result (list frame) :=
  match clusters with
  | [] => Ok representative_list
  | icluster :: rest =>
      '(data_cl, rep_weight) ← select_rep data_arr weights cluster_labels icluster;
      let representative_list := representative_list ++ [rep_weight] in
      trace_out_list ← mapM trace_out data_cl;
      export_loop data_arr weights cluster_labels rest representative_list
  end.

Definition export_std_files (data_arr : list pathway) (weights : list Q)
    (cluster_labels : list Z) (clusters : option (list Z)) (out_dir : string)
    (fs : store) : result unit * store :=
  match determine_clusters cluster_labels clusters with
  | Raise e => (Raise e, fs)
  | Ok clusters =>
      let representative_file :=
        (rsplit1_head out_dir +:+ "/representative_segments.txt")%string in
      match export_loop data_arr weights cluster_labels clusters [] with
      | Raise e => (Raise e, fs)
      | Ok representative_list =>
          (Ok (), <[representative_file := TextFile representative_list]> fs)
      end
  end.

(** ** The other preset reassignments *)

(** The loops of [reassign_identity] and [reassign_statelabel], from
    [idx2] on: [pathways[idx, idx2] = val2]. *)
Fixpoint copy_inner (pathways : list pathway) (idx idx2 : nat) (flipped_val : list frame)
    : result (list pathway) :=
  match flipped_val with
  | [] => Ok pathways
  | val2 :: rest =>
      pathways ← setitem2 pathways idx idx2 val2;
      copy_inner pathways idx (S idx2) rest
  end.

Fixpoint copy_outer (pathways : list pathway) (idx : nat) (data : list pathway)
    : result (list pathway) :=
  match data with
  | [] => Ok pathways
  | val :: rest =>
      pathways ← copy_inner pathways idx 0 (reverse val);
      copy_outer pathways (S idx) rest
  end.

(** [str(idx)] on an int: its decimal digits. *)
Definition str_of_int (idx : Z) : pystr := str (pretty idx).

Definition reassign_identity (data : list pathway) (pathways : list pathway)
    (dictionary : gmap Z pystr) : result (list pathway * gmap Z pystr) :=
  pathways ← copy_outer pathways 0 data;
  m ← py_max (state_id <$> concat pathways);
  let n_states := m + 1 in
  let dictionary :=
    foldl (λ dictionary idx, <[idx := str_of_int idx]> dictionary) dictionary
      (py_range n_states) in
  Ok (pathways, <[n_states := str "!"]> dictionary).

(** [enumerate(l)] *)
Definition enumerate {A} (l : list A) : list (Z * A) :=
  imap (λ i x, (Z.of_nat i, x)) l.

(** [reassign_statelabel], given the entries of [f['state_labels']] after
    [tostr]; opening the file is left out. *)
Definition reassign_statelabel (data : list pathway) (pathways : list pathway)
    (dictionary : gmap Z pystr) (state_labels : list pystr)
    : result (list pathway * gmap Z pystr) :=
  pathways ← copy_outer pathways 0 data;
  let dictionary :=
    foldl (λ dictionary iv, <[iv.1 := iv.2]> dictionary) dictionary
      (enumerate state_labels) in
  Ok (pathways, <[len_dict dictionary := str "!"]> dictionary).

(** Column [3] of a frame: the first column after the state, which is the
    weight when there is no auxiliary column. *)
Definition column3 (step : frame) : Q :=
  match auxdata step with
  | a :: _ => a
  | [] => weight step
  end.

(** [numpy.where(flipped_val[:, 3] < 5)[0][0]], searching from index [i]. *)
Fixpoint first_contact_from (i : nat) (flipped_val : list frame) : result nat :=
  match flipped_val with
  | [] => Raise IndexError
  | step :: rest =>
      if Qlt_le_dec (column3 step) 5 then Ok i else first_contact_from (S i) rest
  end.

(** The inner loop of [reassign_custom], from [idx2] on. *)
Fixpoint custom_inner (pathways : list pathway) (idx idx2 first_contact : nat)
    (flipped_val : list frame) : result (list pathway) :=
  match flipped_val with
  | [] => Ok pathways
  | val2 :: rest =>
      pathways ← setitem2 pathways idx idx2 val2;
      let val2 :=
        if decide (state_id val2 ∈ [1; 3; 4; 6; 7; 9]) then set_state_id val2 0
        else if decide (state_id val2 ∈ [2; 5; 8]) then set_state_id val2 1
        else val2 in
      let val2 :=
        if decide (idx2 < first_contact)%nat then set_state_id val2 2 else val2 in
      pathways ← setitem2 pathways idx idx2 val2;
      custom_inner pathways idx (S idx2) first_contact rest
  end.

Fixpoint custom_outer (pathways : list pathway) (idx : nat) (data : list pathway)
    : result (list pathway) :=
  match data with
  | [] => Ok pathways
  | val :: rest =>
      let flipped_val := reverse val in
      first_contact ← first_contact_from 0 flipped_val;
      pathways ← custom_inner pathways idx 0 first_contact flipped_val;
      custom_outer pathways (S idx) rest
  end.

(** The dictionary handed in is replaced by a fresh one. *)
Definition reassign_custom (data : list pathway) (pathways : list pathway)
    (dictionary : gmap Z pystr) : result (list pathway * gmap Z pystr) :=
  pathways ← custom_outer pathways 0 data;
  Ok (pathways, <[0 := str "A"]> (<[1 := str "B"]> (<[2 := str "!"]> ∅))).

(** ** Statistics *)

(** [d[k]] on any dictionary with int keys. *)
Definition getkey {V} (d : gmap Z V) (k : Z) : result V :=
  match d !! k with
  | Some v => Ok v
  | None => Raise KeyError
  end.

(** [list(range(a, b))] *)
Definition py_range_from (a b : Z) : list Z :=
  (λ i, a + Z.of_nat i) <$> seq 0 (Z.to_nat (b - a)).

(** The body of the second loop of [report_statistics]. *)
Definition stats_step (st : gmap Z Q * gmap Z Z) (cw : Z * Q)
    : result (gmap Z Q * gmap Z Z) :=
  let '(final_dictionary, counts) := st in
  let '(cl, weight) := cw in
  w ← getkey final_dictionary cl;
  let final_dictionary := <[cl := (w + weight)%Q]> final_dictionary in
  c ← getkey counts cl;
  Ok (final_dictionary, <[cl := c + 1]> counts).

Fixpoint stats_loop (st : gmap Z Q * gmap Z Z) (pairs : list (Z * Q))
    : result (gmap Z Q * gmap Z Z) :=
  match pairs with
  | [] => Ok st
  | cw :: rest => st ← stats_step st cw; stats_loop st rest
  end.

(** [report_statistics] up to the two dictionaries its report prints:
    the weight and the number of pathways of each cluster. *)
Definition report_statistics (nclusters : Z) (cluster_labels : list Z) (weights : list Q)
    : result (gmap Z Q * gmap Z Z) :=
  let init :=
    foldl (λ st j, (<[j := 0%Q]> st.1, <[j := 0]> st.2)) (∅, ∅)
      (py_range_from 1 (nclusters + 1)) in
  stats_loop init (zip cluster_labels weights).

(** ** The distance step of [main]

    From loading the data to the distance matrix, for a reassignment
    function [reassign] (the fourth argument of it, the name of the
    assignment file, is part of the function here). *)
Definition main_dist_matrix
    (reassign : list pathway → list pathway → gmap Z pystr
                → result (list pathway * gmap Z pystr))
    (input_pickle : list pathway) (file_name out_dir : string)
    (remake metric : bool) (fs : store) : result (matrix * list Q) * store :=
  match '(data, pathways) ← load_data input_pickle; reassign data pathways ∅ with
  | Raise e => (Raise e, fs)
  | Ok (pathways, dictionary) =>
      let pathways := expand_shorter_traj pathways dictionary in
      gen_dist_matrix pathways dictionary file_name out_dir remake metric fs
  end.

(** * Specifications

    The definitions below are not part of the program: they state what the
    program is compared with. *)

(** ** What [pylcs] computes *)

(** [k] is the length of a longest common subsequence of [s] and [t]. *)
Definition is_lcs_length (s t : pystr) (k : nat) : Prop :=
  (∃ u, u `sublist_of` s ∧ u `sublist_of` t ∧ length u = k) ∧
  (∀ u, u `sublist_of` s → u `sublist_of` t → (length u ≤ k)%nat).

(** The textbook recursion for that length; row [i] of the table of
    [pylcs] holds its values on reversed prefixes. *)
Fixpoint lcs_len (s t : pystr) : nat :=
  match s with
  | [] => 0%nat
  | a :: s' =>
      (fix inner (t : pystr) : nat :=
         match t with
         | [] => 0%nat
         | b :: t' =>
             if decide (a = b) then S (lcs_len s' t')
             else Nat.max (lcs_len s' t) (inner t')
         end) t
  end.

Fixpoint row_spec (rp acc t : pystr) : list nat :=
  match t with
  | [] => [lcs_len rp acc]
  | b :: t' => lcs_len rp acc :: row_spec rp (b :: acc) t'
  end.

(** [u] is a substring of [s]: a run of consecutive characters. *)
Definition substring_of (u s : pystr) : Prop := ∃ p q, s = p ++ u ++ q.

(** [k] is the length of a longest common substring of [s] and [t]. *)
Definition is_lcsubstr_length (s t : pystr) (k : nat) : Prop :=
  (∃ u, substring_of u s ∧ substring_of u t ∧ length u = k) ∧
  (∀ u, substring_of u s → substring_of u t → (length u ≤ k)%nat).

(** The length of the longest common prefix; row [i] of the second table
    of [pylcs] holds its values on reversed prefixes. *)
Fixpoint common_prefix_len (x y : pystr) : nat :=
  match x, y with
  | a :: x', b :: y' =>
      if decide (a = b) then S (common_prefix_len x' y') else 0%nat
  | _, _ => 0%nat
  end.

Fixpoint row2_spec (rp acc t : pystr) : list nat :=
  match t with
  | [] => [common_prefix_len rp acc]
  | b :: t' => common_prefix_len rp acc :: row2_spec rp (b :: acc) t'
  end.

(** ** The subsequence metric, as the specification words it *)

(** [u] is a subsequence of [t]. *)
Fixpoint is_subsequence (u t : pystr) : bool :=
  match u, t with
  | [], _ => true
  | _ :: _, [] => false
  | x :: u', y :: t' =>
      if decide (x = y) then is_subsequence u' t' else is_subsequence u t'
  end.

(** All subsequences of [s]. *)
Fixpoint subsequences (s : pystr) : list pystr :=
  match s with
  | [] => [[]]
  | a :: s' => (cons a <$> subsequences s') ++ subsequences s'
  end.

(** The length of a longest common subsequence, by enumeration. *)
Definition ref_lcs_length (s t : pystr) : nat :=
  max_list (length <$> filter (λ u, is_subsequence u t = true) (subsequences s)).

(** The highest index of the dictionary, if it has an entry. *)
Definition highest_index (dictionary : gmap Z pystr) : option Z :=
  match elements (dom dictionary) with
  | [] => None
  | k :: ks => Some (foldl Z.max k ks)
  end.

(** Strip every entry equal to the unknown index, the highest entry. *)
Definition strip_unknown (dictionary : gmap Z pystr) (seq : list Z) : list Z :=
  match highest_index dictionary with
  | Some unknown => filter (λ x, x ≠ unknown) seq
  | None => seq
  end.

(** Map each state id through the dictionary to build a string. *)
Definition to_string (dictionary : gmap Z pystr) (seq : list Z) : result pystr :=
  symbols ← mapM (getitem dictionary) seq;
  Ok (concat symbols).

(** Return [1 - 2k / (len1 + len2)], [k] the length of a longest common
    subsequence of the two strings. *)
Definition calc_dist_ref (seq1 seq2 : list Z) (dictionary : gmap Z pystr) : result Q :=
  s1 ← to_string dictionary (strip_unknown dictionary seq1);
  s2 ← to_string dictionary (strip_unknown dictionary seq2);
  let k := ref_lcs_length s1 s2 in
  let len1 := length s1 in
  let len2 := length s2 in
  if decide ((len1 + len2)%nat = 0%nat) then Raise ZeroDivisionError
  else Ok (1 - inject_Z (2 * Z.of_nat k) / inject_Z (Z.of_nat (len1 + len2)))%Q.

(** ** Other quantities the specification names *)


(** [max(weights)] *)
Definition max_weight (weights : list Q) : option Q :=
  match weights with
  | [] => None
  | w :: weights' => Some (foldl Qmax w weights')
  end.

(** The distinct segment ids of a data set. *)
Definition distinct_segment_ids (data : list pathway) : gset Z :=
  list_to_set (segment_id <$> concat data).

(** ** Vocabulary of the statements *)

(** The string [calc_dist] builds from a sequence. *)
Definition comparison_string (dictionary : gmap Z pystr) (seq : list Z) : result pystr :=
  join_states dictionary (filter (λ x, x < len_dict dictionary - 1) seq).

(** The last three lines of both metrics: [1 - (2 * km) / n]. *)
Definition similarity_distance (km : nat) (n : nat) : result Q :=
  similarity ← true_div (2 * Z.of_nat km) (Z.of_nat n);
  Ok (1 - similarity)%Q.

(** The metric [gen_dist_matrix] hands to [pairwise_distances] for a value
    of its [metric] flag. *)
Definition distance (metric : bool) (dictionary : gmap Z pystr) (x y : list Z)
    : result Q :=
  if metric then calc_dist x y dictionary else calc_dist_substr x y dictionary.

(** The string that metric builds from a sequence. *)
Definition metric_string (metric : bool) (dictionary : gmap Z pystr) (seq : list Z)
    : result pystr :=
  if metric then comparison_string dictionary seq else join_states dictionary seq.

(** The common length that metric takes from [pylcs]. *)
Definition common_length (metric : bool) (s1 s2 : pystr) : nat :=
  if metric then pylcs.lcs_length_ s1 s2 else pylcs.lcs2_length_ s1 s2.

(** What that metric asks of [pylcs]. *)
Definition pylcs_length (metric : bool) (s1 s2 : pystr) : result nat :=
  if metric then pylcs.lcs_sequence_length s1 s2 else pylcs.lcs_string_length s1 s2.

(** A sequence whose string is defined, not empty and accepted by
    [pylcs]. *)
Definition comparable (metric : bool) (dictionary : gmap Z pystr) (seq : list Z) : Prop :=
  ∃ s, metric_string metric dictionary seq = Ok s ∧ s ≠ [] ∧
       pylcs.utf8_encodable s = true.

(** The dictionary is indexed [0 .. len(dictionary) - 1], as every preset
    reassignment builds it. *)
Definition indexed_from_zero (dictionary : gmap Z pystr) : Prop :=
  dom dictionary = list_to_set (py_range (len_dict dictionary)).

(** A 2-D array with at least one row and one column: what
    [pairwise_distances] accepts as [X]. *)
Definition rectangular {B} (X : list (list B)) : Prop :=
  match X with
  | [] => False
  | x :: X' => x ≠ [] ∧ Forall (λ y, length y = length x) X'
  end.

Global Instance rectangular_dec {B} (X : list (list B)) : Decision (rectangular X) :=
  ltac:(destruct X as [|x X]; cbn; apply _).

(** The strict upper triangle of a square matrix, row by row. *)
Fixpoint triangular (upper : list (list Q)) : Prop :=
  match upper with
  | [] => True
  | row :: upper' => length row = length upper' ∧ triangular upper'
  end.

Definition square (n : nat) (m : matrix) : Prop :=
  length m = n ∧ Forall (λ row, length row = n) m.

Definition symmetric (m : matrix) : Prop :=
  ∀ i j, entry m i j = entry m j i.

Definition zero_diagonal (n : nat) (m : matrix) : Prop :=
  ∀ i, (i < n)%nat → ∃ q, entry m i i = Some q ∧ (q == 0)%Q.

(** [pathways[i][j]] *)
Definition frame_at (pathways : list pathway) (i j : nat) : option frame :=
  traj ← pathways !! i; traj !! j.

(** The frame [gen_dist_matrix] reads the weight from exists. *)
Definition has_weight_frame (metric : bool) (dictionary : gmap Z pystr)
    (pathway : pathway) : Prop :=
  if metric
  then Exists (λ step, state_id step < len_dict dictionary - 1) pathway
  else pathway ≠ [].

(** [w] is the weight column of the last frame with a state below the
    unknown index (subsequence metric), of the last frame (substring
    metric). *)
Definition is_pathway_weight (metric : bool) (dictionary : gmap Z pystr)
    (pathway : pathway) (w : Q) : Prop :=
  if metric
  then ∃ pre step post,
         pathway = pre ++ step :: post ∧
         state_id step < len_dict dictionary - 1 ∧
         Forall (λ f, ¬ state_id f < len_dict dictionary - 1) post ∧
         w = weight step
  else ∃ pre step, pathway = pre ++ [step] ∧ w = weight step.

(** A frame with its segment id as its state. *)
Definition segid_frame (val2 : frame) : frame :=
  set_state_id val2 (segment_id val2).

(** Row [idx] of the array after the loops of [reassign_segid]: the
    flipped pathway, then what the row held beyond it. *)
Definition segid_row (val traj : pathway) : pathway :=
  (segid_frame <$> reverse val) ++ drop (length val) traj.

(** ** Example inputs *)

(** Two states and the unknown symbol. *)
Definition dictAB : gmap Z pystr :=
  <[0 := str "A"]> (<[1 := str "B"]> (<[2 := str "!"]> ∅)).

(** Four states and the unknown symbol. *)
(** The dictionary [reassign_identity] builds for the states 0 to 10. *)
Definition dict_digits : gmap Z pystr :=
  <[11 := str "!"]> (list_to_map ((λ idx, (idx, str_of_int idx)) <$> py_range 11)).

Definition dictABCD : gmap Z pystr :=
  <[0 := str "A"]> (<[1 := str "B"]> (<[2 := str "C"]> (<[3 := str "D"]>
    (<[4 := str "!"]> ∅)))).

(** A frame with one auxiliary column. *)
Definition fr (iter seg state : Z) (w : Q) : frame :=
  {| iteration_id := iter; segment_id := seg; state_id := state;
     auxdata := [0%Q]; weight := w |}.

(** Two pathways of one cluster; the weights are those of their last
    frames. *)
Definition rep_pathways : list pathway :=
  [ [fr 1 0 0 (1 # 10); fr 2 0 1 (7 # 10)];
    [fr 1 1 0 (2 # 10); fr 2 1 1 (3 # 10)] ].

Definition rep_weights : list Q := [(7 # 10)%Q; (3 # 10)%Q].

(** A matrix stored by an earlier run, in the output directory. *)
Definition stored_matrix : matrix := [[0%Q; (1 # 2)%Q]; [(1 # 2)%Q; 0%Q]].

Definition cache_store : store :=
  {[ "succ_traj/distmat.npy"%string := NpyFile stored_matrix ]}.

(** A pathway of one frame next to one of two frames, after padding. *)
Definition padded_pathways : list pathway :=
  expand_shorter_traj
    [ [fr 1 0 0 (1 # 2); zero_frame 1];
      [fr 1 1 0 (1 # 4); fr 2 1 1 (1 # 4)] ] dictAB.

(** One pathway through segments 3 and 7, last frame first. *)
Definition segid_data : list pathway :=
  [ [fr 2 7 1 (1 # 2); fr 1 3 0 (1 # 4)] ].

(** ** Vocabulary for the rest of the module *)

(** The frames of a row that are not padding. *)
Definition real_frames (pathway : pathway) : list frame :=
  filter (λ step, iteration_id step ≠ 0) pathway.

(** The pathways with their weights and labels. *)
Definition labelled (data_arr : list pathway) (weights : list Q) (cluster_labels : list Z)
    : list (pathway * Q * Z) :=
  zip (zip data_arr weights) cluster_labels.

(** The members of a cluster, with their weights and labels. *)
Definition members (data_arr : list pathway) (weights : list Q) (cluster_labels : list Z)
    (icluster : Z) : list (pathway * Q * Z) :=
  filter (λ t, t.2 = icluster) (labelled data_arr weights cluster_labels).

(** The pathways of cluster [j], as pairs of label and weight. *)
Definition cluster_pairs (pairs : list (Z * Q)) (j : Z) : list (Z * Q) :=
  filter (λ p, p.1 = j) pairs.

(** [0 + w1 + w2 + ...], from left to right. *)
Definition sum_weights (ws : list Q) : Q := foldl Qplus 0%Q ws.

Definition cluster_weight (pairs : list (Z * Q)) (j : Z) : Q :=
  sum_weights (snd <$> cluster_pairs pairs j).

Definition cluster_count (pairs : list (Z * Q)) (j : Z) : Z :=
  Z.of_nat (length (cluster_pairs pairs j)).

(** The two dictionaries of [report_statistics] after the pairs [front]. *)
Definition stats_of (nclusters : Z) (front : list (Z * Q)) (st : gmap Z Q * gmap Z Z)
    : Prop :=
  ∀ j, st.1 !! j = (if decide (1 ≤ j ≤ nclusters)
                    then Some (cluster_weight front j) else None) ∧
       st.2 !! j = (if decide (1 ≤ j ≤ nclusters)
                    then Some (cluster_count front j) else None).


(** Row [idx] of the array after the copy loops: the flipped pathway, then
    what the row held beyond it. *)
Definition copy_row (val traj : pathway) : list frame :=
  reverse val ++ drop (length val) traj.

(** The merging of states of [reassign_custom]. *)
Definition merge_state (s : Z) : Z :=
  if decide (s ∈ [1; 3; 4; 6; 7; 9]) then 0
  else if decide (s ∈ [2; 5; 8]) then 1 else s.

(** The frame [reassign_custom] leaves at index [idx2] of a row. *)
Definition custom_frame (first_contact idx2 : nat) (val2 : frame) : frame :=
  set_state_id val2
    (if decide (idx2 < first_contact)%nat then 2 else merge_state (state_id val2)).

(** A frame in contact: column 3 below 5. *)
Definition in_contact (step : frame) : Prop := (column3 step < 5)%Q.

(** The index of the first frame in contact of a flipped pathway ([0]
    when there is none). *)
Definition contact_index (flipped_val : list frame) : nat :=
  match first_contact_from 0 flipped_val with
  | Ok i => i
  | Raise _ => 0%nat
  end.

(** Row [idx] of the array after the loops of [reassign_custom]. *)
Definition custom_row (val traj : pathway) : list frame :=
  imap (custom_frame (contact_index (reverse val))) (reverse val)
  ++ drop (length val) traj.

(** What a reassignment writes at the front of the row of [val]: no frame
    with iteration 0, the states below the unknown index all keys of the
    dictionary, and a last frame that has the weight of the first frame of
    [val], a state below the unknown index and a symbol that is not empty. *)
Definition front_ok (d : gmap Z pystr) (front : list frame) (val : pathway) : Prop :=
  Forall (λ step, iteration_id step ≠ 0) front ∧
  Forall (λ step, state_id step < len_dict d - 1 →
             ∃ s, d !! state_id step = Some s ∧ pylcs.utf8_encodable s = true) front ∧
  ∃ pre step first s,
    front = pre ++ [step] ∧ head val = Some first ∧ weight step = weight first ∧
    state_id step < len_dict d - 1 ∧ d !! state_id step = Some s ∧ s ≠ [].

(** The weight column of the first frame of a pathway of the data. *)
Definition head_weight (val : pathway) : Q := default 0%Q (weight <$> head val).

(** The weight [gen_dist_matrix] gives a pathway under the substring
    metric, in an array of rows of length [L]. *)
Definition substring_weight (L : nat) (val : pathway) : Q :=
  if decide (length val < L)%nat then 0%Q else head_weight val.

(** The state column of the padded row of a pathway. *)
Definition padded_states (d : gmap Z pystr) (L : nat) (states : list Z) : list Z :=
  states ++ replicate (L - length states) (len_dict d - 1).

(** One turn of the loop of [export_std_files]: the line of the cluster is
    the first frame of its representative, and every member of the cluster
    must hold a frame for its first two columns to be read. *)
Definition export_cluster (data_arr : list pathway) (weights : list Q)
    (cluster_labels : list Z) (icluster : Z) : result frame :=
  '(data_cl, rep_weight) ← select_rep data_arr weights cluster_labels icluster;
  if decide (Forall (λ item : pathway, item ≠ []) data_cl) then Ok rep_weight
  else Raise IndexError.

(** A plain name: one path component, which is neither empty nor [.] nor
    [..].  A plain file name denotes a file of the working directory, and
    joined by [/] to a plain directory name a file of that sub-directory,
    which is another file. *)
Definition plain_name (s : string) : bool :=
  negb (String.eqb s "") && negb (String.eqb s ".") && negb (String.eqb s "..")
  && forallb (λ c, negb (Ascii.eqb c "/")) (String.list_ascii_of_string s).

(** * Properties *)

(** ** Longest common subsequence *)

Section LCS.
Implicit Types s t u rp acc : pystr.
Implicit Types a b : pychar.

Lemma lcs_len_nil_r s : lcs_len s [] = 0%nat.
Proof. by destruct s. Qed.

Lemma lcs_len_cons a b s t :
  lcs_len (a :: s) (b :: t) =
    if decide (a = b) then S (lcs_len s t)
    else Nat.max (lcs_len s (b :: t)) (lcs_len (a :: s) t).
Proof. reflexivity. Qed.

Lemma lcs_len_sound s t :
  ∃ u, u `sublist_of` s ∧ u `sublist_of` t ∧ length u = lcs_len s t.
Proof.
  revert t. induction s as [|a s IHs]; intros t.
  { exists []. split_and!; [apply sublist_nil_l..|done]. }
  induction t as [|b t IHt].
  { exists []. split_and!; [apply sublist_nil_l..|done]. }
  rewrite lcs_len_cons. case_decide as Hab.
  - subst b. destruct (IHs t) as (u & ? & ? & <-).
    exists (a :: u). split_and!; [by constructor..|done].
  - destruct (Nat.max_spec (lcs_len s (b :: t)) (lcs_len (a :: s) t))
      as [[_ ->]|[_ ->]].
    + destruct IHt as (u & ? & ? & <-).
      exists u. split_and!; [done|by constructor|done].
    + destruct (IHs (b :: t)) as (u & ? & ? & <-).
      exists u. split_and!; [by constructor|done..].
Qed.

Lemma lcs_len_max s t u :
  u `sublist_of` s → u `sublist_of` t → (length u ≤ lcs_len s t)%nat.
Proof.
  revert t u. induction s as [|a s IHs]; intros t u Hs Ht.
  { apply sublist_nil_r in Hs as ->. simpl. lia. }
  revert u Hs Ht. induction t as [|b t IHt]; intros u Hs Ht.
  { apply sublist_nil_r in Ht as ->. simpl. lia. }
  rewrite lcs_len_cons.
  apply sublist_cons_r in Hs as [Hs|(u1 & -> & Hs)];
    apply sublist_cons_r in Ht as [Ht|(u2 & Hu & Ht)].
  - pose proof (IHs t u Hs Ht).
    case_decide; [lia|].
    pose proof (IHs (b :: t) u Hs (sublist_cons _ _ _ Ht)). lia.
  - subst u. case_decide.
    + assert (u2 `sublist_of` s) by (etrans; [|done]; by constructor).
      pose proof (IHs t u2 ltac:(done) ltac:(done)). simpl. lia.
    + pose proof (IHs (b :: t) (b :: u2) Hs (sublist_skip _ _ _ Ht)). lia.
  - case_decide.
    + assert (u1 `sublist_of` t) by (etrans; [|done]; by constructor).
      pose proof (IHs t u1 ltac:(done) ltac:(done)). simpl. lia.
    + pose proof (IHt (a :: u1) (sublist_skip _ _ _ Hs) Ht). lia.
  - simplify_eq. rewrite decide_True by done.
    pose proof (IHs t _ Hs Ht). simpl. lia.
Qed.

Lemma lcs_len_is_lcs_length s t : is_lcs_length s t (lcs_len s t).
Proof.
  split; [apply lcs_len_sound | intros u; apply lcs_len_max].
Qed.

Lemma is_lcs_length_unique s t k1 k2 :
  is_lcs_length s t k1 → is_lcs_length s t k2 → k1 = k2.
Proof.
  intros [(u1 & ? & ? & <-) Hmax1] [(u2 & ? & ? & <-) Hmax2].
  apply Nat.le_antisymm; auto.
Qed.

Lemma is_lcs_length_sym s t k : is_lcs_length s t k → is_lcs_length t s k.
Proof.
  intros [(u & ? & ? & ?) Hmax]. split; [by exists u | auto].
Qed.

Lemma sublist_reverse u s : u `sublist_of` s → reverse u `sublist_of` reverse s.
Proof.
  induction 1 as [|x u s _ IH|x u s _ IH]; [done| |].
  - rewrite !reverse_cons. by apply sublist_app.
  - rewrite reverse_cons. by apply sublist_inserts_r.
Qed.

Lemma is_lcs_length_reverse s t k :
  is_lcs_length (reverse s) (reverse t) k → is_lcs_length s t k.
Proof.
  intros [(u & Hs & Ht & Hk) Hmax]. split.
  - exists (reverse u). rewrite length_reverse.
    apply sublist_reverse in Hs, Ht. rewrite reverse_involutive in Hs, Ht. done.
  - intros v ?%sublist_reverse ?%sublist_reverse.
    rewrite <-(length_reverse v). auto.
Qed.

(** *** The table of [pylcs] *)

Lemma row_spec_head rp acc t :
  row_spec rp acc t = lcs_len rp acc :: tail (row_spec rp acc t).
Proof. by destruct t. Qed.

Lemma lcs_row_spec a rp t acc :
  pylcs.lcs_row a t (row_spec rp acc t) (lcs_len (a :: rp) acc)
  = tail (row_spec (a :: rp) acc t).
Proof.
  revert acc. induction t as [|b t IH]; intros acc; [done|].
  cbn [row_spec tail pylcs.lcs_row].
  rewrite (row_spec_head rp (b :: acc) t).
  rewrite <-(row_spec_head rp (b :: acc) t).
  assert ((if decide (a = b) then (lcs_len rp acc + 1)%nat
           else if decide (lcs_len (a :: rp) acc ≤ lcs_len rp (b :: acc))%nat
                then lcs_len rp (b :: acc) else lcs_len (a :: rp) acc)
          = lcs_len (a :: rp) (b :: acc)) as ->.
  { rewrite lcs_len_cons. repeat case_decide; lia. }
  rewrite IH. by rewrite <-row_spec_head.
Qed.

Lemma lcs_next_row_spec a rp t :
  pylcs.lcs_next_row t (row_spec rp [] t) a = row_spec (a :: rp) [] t.
Proof.
  unfold pylcs.lcs_next_row.
  change 0%nat with (lcs_len (a :: rp) []) at 2.
  rewrite lcs_row_spec.
  by rewrite (row_spec_head (a :: rp) [] t) at 2.
Qed.

Lemma lcs_table_spec s rp t :
  foldl (pylcs.lcs_next_row t) (row_spec rp [] t) s = row_spec (reverse s ++ rp) [] t.
Proof.
  revert rp. induction s as [|a s IH]; intros rp; [done|].
  cbn [foldl]. rewrite lcs_next_row_spec, IH, reverse_cons.
  by rewrite <-app_assoc.
Qed.

Lemma row_spec_nil acc t : row_spec [] acc t = replicate (S (length t)) 0%nat.
Proof. revert acc. induction t as [|b t IH]; intros acc; [done|]. simpl. by rewrite IH. Qed.

Lemma row_spec_last rp acc t :
  List.last (row_spec rp acc t) 0%nat = lcs_len rp (reverse t ++ acc).
Proof.
  revert acc. induction t as [|b t IH]; intros acc; [done|].
  cbn [row_spec].
  transitivity (List.last (row_spec rp (b :: acc) t) 0%nat).
  { by destruct t. }
  rewrite IH, reverse_cons. by rewrite <-app_assoc.
Qed.

Lemma lcs_length_lcs_len s t :
  pylcs.lcs_length_ s t = lcs_len (reverse s) (reverse t).
Proof.
  unfold pylcs.lcs_length_.
  destruct s as [|a s]; [done|].
  destruct t as [|b t]; [by rewrite lcs_len_nil_r|].
  rewrite <-row_spec_nil with (acc := []).
  rewrite lcs_table_spec, row_spec_last. by rewrite !app_nil_r.
Qed.

(** [pylcs.lcs_length_] returns the length of a longest common
    subsequence. *)
Lemma lcs_length_spec s t :
  is_lcs_length s t (pylcs.lcs_length_ s t).
Proof.
  rewrite lcs_length_lcs_len.
  apply is_lcs_length_reverse, lcs_len_is_lcs_length.
Qed.

Lemma lcs_length_sym s t :
  pylcs.lcs_length_ s t = pylcs.lcs_length_ t s.
Proof.
  eapply is_lcs_length_unique; [apply lcs_length_spec|].
  apply is_lcs_length_sym, lcs_length_spec.
Qed.

Lemma lcs_length_self s : pylcs.lcs_length_ s s = length s.
Proof.
  eapply is_lcs_length_unique; [apply lcs_length_spec|].
  split; [by exists s | intros u ? _; by apply sublist_length].
Qed.

Lemma lcs_length_le_l s t :
  (pylcs.lcs_length_ s t ≤ length s)%nat.
Proof.
  destruct (lcs_length_spec s t) as [(u & ? & _ & <-) _].
  by apply sublist_length.
Qed.

Lemma lcs_length_le_r s t :
  (pylcs.lcs_length_ s t ≤ length t)%nat.
Proof. rewrite lcs_length_sym. apply lcs_length_le_l. Qed.

Lemma lcs_length_disjoint s t :
  (∀ c, c ∈ s → c ∉ t) → pylcs.lcs_length_ s t = 0%nat.
Proof.
  intros Hdisj.
  destruct (lcs_length_spec s t) as [(u & Hs & Ht & <-) _].
  destruct u as [|c u]; [done|].
  apply sublist_subseteq in Hs, Ht.
  destruct (Hdisj c); [apply Hs | apply Ht]; by left.
Qed.
End LCS.

(** ** Longest common substring *)

Section LCSubstr.
Implicit Types s t u x y w rp acc : pystr.
Implicit Types a b : pychar.

Lemma substring_of_nil s : substring_of [] s.
Proof. by exists [], s. Qed.

Lemma substring_of_nil_inv u : substring_of u [] → u = [].
Proof.
  intros (p & q & Heq). symmetry in Heq.
  apply app_eq_nil in Heq as [_ Heq]. by apply app_eq_nil in Heq as [-> _].
Qed.

Lemma substring_of_refl s : substring_of s s.
Proof. exists [], []. by rewrite app_nil_r. Qed.

Lemma substring_of_length u s : substring_of u s → (length u ≤ length s)%nat.
Proof. intros (p & q & ->). rewrite !length_app. lia. Qed.

Lemma substring_of_elem c u s : substring_of u s → c ∈ u → c ∈ s.
Proof. intros (p & q & ->) Hc. rewrite !elem_of_app. auto. Qed.

Lemma suffix_substring_of u s : u `suffix_of` s → substring_of u s.
Proof. intros [p ->]. exists p, []. by rewrite app_nil_r. Qed.

Lemma substring_of_app_r u s k : substring_of u s → substring_of u (s ++ k).
Proof. intros (p & q & ->). exists p, (q ++ k). by rewrite <-!app_assoc. Qed.

Lemma substring_of_snoc u s a :
  substring_of u (s ++ [a]) → substring_of u s ∨ u `suffix_of` (s ++ [a]).
Proof.
  intros (p & q & Heq).
  destruct q as [|c q _] using rev_ind.
  - right. exists p. by rewrite app_nil_r in Heq.
  - left. exists p, q. rewrite !app_assoc in Heq.
    apply app_inj_tail in Heq as [-> _]. by rewrite <-app_assoc.
Qed.

Lemma is_lcsubstr_length_unique s t k1 k2 :
  is_lcsubstr_length s t k1 → is_lcsubstr_length s t k2 → k1 = k2.
Proof.
  intros [(u1 & ? & ? & <-) Hmax1] [(u2 & ? & ? & <-) Hmax2].
  apply Nat.le_antisymm; auto.
Qed.

Lemma is_lcsubstr_length_sym s t k :
  is_lcsubstr_length s t k → is_lcsubstr_length t s k.
Proof.
  intros [(u & ? & ? & ?) Hmax]. split; [by exists u | auto].
Qed.

Lemma common_prefix_len_common x y :
  ∃ w, length w = common_prefix_len x y ∧ w `prefix_of` x ∧ w `prefix_of` y.
Proof.
  revert y. induction x as [|a x IH]; intros [|b y]; cbn;
    try (exists []; split_and!; [done|apply prefix_nil..]).
  case_decide as Hab.
  - subst b. destruct (IH y) as (w & Hlen & Hx & Hy).
    exists (a :: w). cbn. split_and!; [by rewrite Hlen|by apply prefix_cons..].
  - exists []. split_and!; [done|apply prefix_nil..].
Qed.

Lemma common_prefix_len_max w x y :
  w `prefix_of` x → w `prefix_of` y → (length w ≤ common_prefix_len x y)%nat.
Proof.
  revert x y. induction w as [|c w IH]; intros x y [kx ->] [ky ->]; cbn; [lia|].
  rewrite decide_True by done.
  apply le_n_S, IH; [by exists kx | by exists ky].
Qed.

(** *** The table of [pylcs] *)

Lemma row2_spec_head rp acc t :
  row2_spec rp acc t = common_prefix_len rp acc :: tail (row2_spec rp acc t).
Proof. by destruct t. Qed.

Lemma lcs2_row_spec a rp t acc :
  pylcs.lcs2_row a t (row2_spec rp acc t) = tail (row2_spec (a :: rp) acc t).
Proof.
  revert acc. induction t as [|b t IH]; intros acc; [done|].
  cbn [row2_spec tail pylcs.lcs2_row]. rewrite IH.
  rewrite (row2_spec_head (a :: rp) (b :: acc) t). f_equal.
  cbn [common_prefix_len]. case_decide; [lia|done].
Qed.

Lemma row2_spec_nil acc t : row2_spec [] acc t = replicate (S (length t)) 0%nat.
Proof. revert acc. induction t as [|b t IH]; intros acc; [done|]. simpl. by rewrite IH. Qed.

Lemma row2_spec_lookup rp acc t j :
  (j ≤ length t)%nat →
  row2_spec rp acc t !! j = Some (common_prefix_len rp (reverse (take j t) ++ acc)).
Proof.
  revert acc j. induction t as [|b t IH]; intros acc j Hj.
  - cbn in Hj. by replace j with 0%nat by lia.
  - destruct j as [|j]; [done|]. cbn [row2_spec take].
    change ((?x :: ?l) !! S j) with (l !! j).
    rewrite IH by (cbn in Hj; lia).
    by rewrite reverse_cons, <-app_assoc.
Qed.

Lemma row2_spec_length rp acc t : length (row2_spec rp acc t) = S (length t).
Proof. revert acc. induction t as [|b t IH]; intros acc; [done|]. cbn. by rewrite IH. Qed.

Lemma fold_upd_max mx (l : list nat) :
  foldl pylcs.upd_max mx l = Nat.max mx (max_list l).
Proof.
  revert mx. induction l as [|v l IH]; intros mx; cbn; [lia|].
  rewrite IH. unfold pylcs.upd_max. case_decide; lia.
Qed.

(** Entry [j] of a row, for [1 ≤ j]. *)
Lemma tail_row2_spec_elem rp t v :
  v ∈ tail (row2_spec rp [] t) ↔
  ∃ j, (1 ≤ j ≤ length t)%nat ∧ v = common_prefix_len rp (reverse (take j t)).
Proof.
  rewrite list_elem_of_lookup. split.
  - intros [i Hi]. exists (S i).
    assert (S i ≤ length t)%nat as Hle.
    { rewrite lookup_tail in Hi. apply lookup_lt_Some in Hi.
      rewrite row2_spec_length in Hi. lia. }
    split; [lia|].
    rewrite lookup_tail, (row2_spec_lookup _ _ _ _ Hle), app_nil_r in Hi.
    congruence.
  - intros (j & [Hj1 Hj2] & ->). exists (pred j).
    rewrite lookup_tail. replace (S (pred j)) with j by lia.
    by rewrite row2_spec_lookup, app_nil_r.
Qed.

Lemma lcsubstr_step a rp t mx :
  is_lcsubstr_length (reverse rp) t mx →
  is_lcsubstr_length (reverse (a :: rp)) t
    (foldl pylcs.upd_max mx (tail (row2_spec (a :: rp) [] t))).
Proof.
  intros [(u0 & Hu0s & Hu0t & Hu0len) Hmax].
  rewrite fold_upd_max, reverse_cons.
  set (row := tail (row2_spec (a :: rp) [] t)).
  split.
  - destruct (decide (max_list row ≤ mx)%nat) as [Hle|Hgt].
    + exists u0. split_and!; [by apply substring_of_app_r|done|lia].
    + assert (row ≠ []) as Hne by (intros Hnil; rewrite Hnil in Hgt; simpl in Hgt; lia).
      apply max_list_elem_of in Hne.
      apply tail_row2_spec_elem in Hne as (j & Hj & Hv).
      destruct (common_prefix_len_common (a :: rp) (reverse (take j t)))
        as (w & Hlen & Hw1 & Hw2).
      exists (reverse w). split_and!.
      * apply suffix_substring_of. rewrite <-reverse_cons.
        by apply prefix_suffix_reverse.
      * apply prefix_suffix_reverse in Hw2. rewrite reverse_involutive in Hw2.
        destruct Hw2 as [p Hp]. exists p, (drop j t).
        by rewrite app_assoc, <-Hp, take_drop.
      * rewrite length_reverse, Hlen, <-Hv. lia.
  - intros u Hus Hut.
    apply substring_of_snoc in Hus as [Hus|Hsuf].
    { pose proof (Hmax u Hus Hut). lia. }
    destruct u as [|c u]; [simpl; lia|].
    destruct Hut as (p & q & Ht).
    set (j := length (p ++ c :: u)).
    assert (take j t = p ++ c :: u) as Htake.
    { rewrite Ht, app_assoc. by apply take_app_length'. }
    assert (common_prefix_len (a :: rp) (reverse (take j t)) ∈ row) as Hin.
    { apply tail_row2_spec_elem. exists j. split; [|done].
      unfold j. rewrite Ht, !length_app. simpl. lia. }
    apply max_list_elem_of_le in Hin.
    assert (length (reverse (c :: u))
            ≤ common_prefix_len (a :: rp) (reverse (take j t)))%nat as Hle.
    { apply common_prefix_len_max.
      - rewrite <-reverse_cons in Hsuf.
        apply suffix_prefix_reverse in Hsuf. by rewrite reverse_involutive in Hsuf.
      - rewrite Htake. apply suffix_prefix_reverse. by exists p. }
    rewrite length_reverse in Hle. lia.
Qed.

Lemma lcs2_table_spec s rp t mx :
  is_lcsubstr_length (reverse rp) t mx →
  ∃ mx', foldl (pylcs.lcs2_next_row t) (row2_spec rp [] t, mx) s
         = (row2_spec (reverse s ++ rp) [] t, mx') ∧
         is_lcsubstr_length (reverse (reverse s ++ rp)) t mx'.
Proof.
  revert rp mx. induction s as [|a s IH]; intros rp mx Hinv.
  - exists mx. by split.
  - cbn [foldl]. unfold pylcs.lcs2_next_row at 2. cbn [fst snd].
    rewrite lcs2_row_spec.
    change 0%nat with (common_prefix_len (a :: rp) []).
    rewrite <-(row2_spec_head (a :: rp) [] t).
    destruct (IH (a :: rp) _ (lcsubstr_step a rp t mx Hinv)) as (mx' & Hfold & Hinv').
    exists mx'. rewrite Hfold, reverse_cons, <-app_assoc. done.
Qed.

(** [pylcs.lcs2_length_] returns the length of a longest common
    substring. *)
Lemma lcs2_length_spec s t :
  is_lcsubstr_length s t (pylcs.lcs2_length_ s t).
Proof.
  assert (Hnil_l : ∀ t', is_lcsubstr_length [] t' 0).
  { intros t'. split.
    - exists []. split_and!; [apply substring_of_nil..|done].
    - intros u ->%substring_of_nil_inv _. simpl. lia. }
  unfold pylcs.lcs2_length_.
  destruct s as [|a s]; [apply Hnil_l|].
  destruct t as [|b t]; [apply is_lcsubstr_length_sym, Hnil_l|].
  rewrite <-row2_spec_nil with (acc := []).
  destruct (lcs2_table_spec (a :: s) [] (b :: t) 0 (Hnil_l _)) as (mx' & Hfold & Hinv).
  rewrite Hfold. cbn [snd].
  by rewrite app_nil_r, reverse_involutive in Hinv.
Qed.

Lemma lcs2_length_sym s t :
  pylcs.lcs2_length_ s t = pylcs.lcs2_length_ t s.
Proof.
  eapply is_lcsubstr_length_unique; [apply lcs2_length_spec|].
  apply is_lcsubstr_length_sym, lcs2_length_spec.
Qed.

Lemma lcs2_length_self s : pylcs.lcs2_length_ s s = length s.
Proof.
  eapply is_lcsubstr_length_unique; [apply lcs2_length_spec|].
  split; [exists s; split_and!; [apply substring_of_refl..|done]|].
  intros u Hu _. by apply substring_of_length.
Qed.

Lemma lcs2_length_le_l s t :
  (pylcs.lcs2_length_ s t ≤ length s)%nat.
Proof.
  destruct (lcs2_length_spec s t) as [(u & Hu & _ & <-) _].
  by apply substring_of_length.
Qed.

Lemma lcs2_length_le_r s t :
  (pylcs.lcs2_length_ s t ≤ length t)%nat.
Proof. rewrite lcs2_length_sym. apply lcs2_length_le_l. Qed.

Lemma lcs2_length_disjoint s t :
  (∀ c, c ∈ s → c ∉ t) → pylcs.lcs2_length_ s t = 0%nat.
Proof.
  intros Hdisj.
  destruct (lcs2_length_spec s t) as [(u & Hs & Ht & <-) _].
  destruct u as [|c u]; [done|].
  destruct (Hdisj c); eapply substring_of_elem; (done || by left).
Qed.

(** A common substring is a common subsequence. *)
Lemma lcs2_length_le_sequence s t :
  (pylcs.lcs2_length_ s t ≤ pylcs.lcs_length_ s t)%nat.
Proof.
  destruct (lcs2_length_spec s t) as [(u & (p1 & q1 & ->) & (p2 & q2 & ->) & <-) _].
  apply lcs_length_spec.
  - apply sublist_inserts_l, sublist_inserts_r. done.
  - apply sublist_inserts_l, sublist_inserts_r. done.
Qed.
End LCSubstr.

(** ** The reference enumeration *)

Section Reference.
Implicit Types s t u : pystr.

Lemma is_subsequence_sublist u t : is_subsequence u t = true ↔ u `sublist_of` t.
Proof.
  revert u. induction t as [|y t IH]; intros [|x u]; simpl.
  - split; [intros _; constructor | done].
  - split; [done | by intros ?%sublist_nil_r].
  - split; [intros _; apply sublist_nil_l | done].
  - case_decide as Hxy.
    + subst y. rewrite IH. split; [by constructor|].
      intros [Hs|(u' & [= <-] & Hs)]%sublist_cons_r; [|done].
      etrans; [|exact Hs]. by constructor.
    + rewrite IH. split; [by constructor|].
      intros [Hs|(u' & [= ? <-] & Hs)]%sublist_cons_r; [done|]. congruence.
Qed.

Lemma elem_of_subsequences u s : u ∈ subsequences s ↔ u `sublist_of` s.
Proof.
  revert u. induction s as [|a s IH]; intros u; simpl.
  - rewrite list_elem_of_singleton, sublist_nil_r. done.
  - rewrite elem_of_app, list_elem_of_fmap, sublist_cons_r.
    split.
    + intros [(u' & -> & Hin)|Hin]; apply IH in Hin; eauto.
    + intros [Hs|(u' & -> & Hs)]; apply IH in Hs; eauto.
Qed.

Lemma ref_lcs_length_spec s t : is_lcs_length s t (ref_lcs_length s t).
Proof.
  unfold ref_lcs_length.
  set (cands := filter (λ u, is_subsequence u t = true) (subsequences s)).
  assert (Hc : ∀ u, u ∈ cands ↔ u `sublist_of` s ∧ u `sublist_of` t).
  { intros u. unfold cands.
    rewrite list_elem_of_filter, is_subsequence_sublist, elem_of_subsequences.
    tauto. }
  split.
  - assert (Hne : length <$> cands ≠ []).
    { assert ([] ∈ cands) as Hin by (apply Hc; split; apply sublist_nil_l).
      intros Heq. apply (list_elem_of_fmap_2 length) in Hin.
      rewrite Heq in Hin. by apply elem_of_nil in Hin. }
    apply max_list_elem_of in Hne.
    apply list_elem_of_fmap in Hne as (u & Hlen & Hin).
    apply Hc in Hin as [? ?]. by exists u.
  - intros u Hs Ht. apply max_list_elem_of_le.
    apply list_elem_of_fmap_2. by apply Hc.
Qed.

Lemma ref_lcs_length_pylcs s t :
  ref_lcs_length s t = pylcs.lcs_length_ s t.
Proof.
  eapply is_lcs_length_unique;
    [apply ref_lcs_length_spec | apply lcs_length_spec].
Qed.
End Reference.

(** ** Rational arithmetic of the similarity *)

Section Similarity.
Local Open Scope Q_scope.

Lemma ratio_bounds (k n : Z) :
  (0 ≤ k ≤ n)%Z → (0 < n)%Z → 0 <= inject_Z k / inject_Z n ∧ inject_Z k / inject_Z n <= 1.
Proof.
  intros [Hk Hkn] Hn.
  assert (0 < inject_Z n) as Hn'.
  { change 0 with (inject_Z 0). by rewrite <-Zlt_Qlt. }
  split.
  - apply Qle_shift_div_l; [done|]. rewrite Qmult_0_l.
    change 0 with (inject_Z 0). by rewrite <-Zle_Qle.
  - apply Qle_shift_div_r; [done|]. rewrite Qmult_1_l. by rewrite <-Zle_Qle.
Qed.

Lemma ratio_self (n : Z) : (0 < n)%Z → inject_Z n / inject_Z n == 1.
Proof.
  intros Hn. apply Qmult_inv_r.
  change 0 with (inject_Z 0). rewrite inject_Z_injective. lia.
Qed.

Lemma ratio_zero (n : Z) : inject_Z 0 / inject_Z n == 0.
Proof. unfold Qdiv. apply Qmult_0_l. Qed.
End Similarity.

(** ** The two metrics *)

Section Metrics.
Implicit Types d dictionary : gmap Z pystr.
Implicit Types seq : list Z.
Implicit Types s : pystr.

Lemma lcs_sequence_length_Ok s1 s2 :
  pylcs.utf8_encodable s1 = true → pylcs.utf8_encodable s2 = true →
  pylcs.lcs_sequence_length s1 s2 = Ok (pylcs.lcs_length_ s1 s2).
Proof. intros H1 H2. unfold pylcs.lcs_sequence_length. by rewrite H1, H2. Qed.

Lemma lcs_string_length_Ok s1 s2 :
  pylcs.utf8_encodable s1 = true → pylcs.utf8_encodable s2 = true →
  pylcs.lcs_string_length s1 s2 = Ok (pylcs.lcs2_length_ s1 s2).
Proof. intros H1 H2. unfold pylcs.lcs_string_length. by rewrite H1, H2. Qed.

Lemma pylcs_length_Ok metric s1 s2 :
  pylcs.utf8_encodable s1 = true → pylcs.utf8_encodable s2 = true →
  pylcs_length metric s1 s2 = Ok (common_length metric s1 s2).
Proof.
  intros H1 H2. destruct metric; cbn.
  - by apply lcs_sequence_length_Ok.
  - by apply lcs_string_length_Ok.
Qed.

Lemma pylcs_length_TypeError metric s1 s2 :
  pylcs.utf8_encodable s1 && pylcs.utf8_encodable s2 = false →
  pylcs_length metric s1 s2 = Raise TypeError.
Proof.
  intros H. destruct metric; cbn;
    unfold pylcs.lcs_sequence_length, pylcs.lcs_string_length; by rewrite H.
Qed.

(** [pylcs] returns the common length or raises [TypeError]. *)
Lemma pylcs_length_cases metric s1 s2 :
  (pylcs.utf8_encodable s1 = true ∧ pylcs.utf8_encodable s2 = true ∧
   pylcs_length metric s1 s2 = Ok (common_length metric s1 s2)) ∨
  (pylcs.utf8_encodable s1 && pylcs.utf8_encodable s2 = false ∧
   pylcs_length metric s1 s2 = Raise TypeError).
Proof.
  destruct (pylcs.utf8_encodable s1) eqn:H1, (pylcs.utf8_encodable s2) eqn:H2.
  - left. split_and!; [done..|]. by apply pylcs_length_Ok.
  - right. split; [done|]. apply pylcs_length_TypeError. by rewrite H1, H2.
  - right. split; [done|]. apply pylcs_length_TypeError. by rewrite H1, H2.
  - right. split; [done|]. apply pylcs_length_TypeError. by rewrite H1, H2.
Qed.

Lemma calc_dist_unfold seq1 seq2 d :
  calc_dist seq1 seq2 d =
    s1 ← comparison_string d seq1;
    s2 ← comparison_string d seq2;
    km ← pylcs.lcs_sequence_length s1 s2;
    similarity_distance km (length s1 + length s2).
Proof.
  unfold calc_dist, comparison_string. cbn zeta.
  destruct (join_states d (filter _ seq1)) as [s1|]; [|done].
  cbn [mbind result_bind].
  destruct (join_states d (filter _ seq2)) as [s2|]; [|done].
  cbn [mbind result_bind].
  by destruct (pylcs.lcs_sequence_length s1 s2).
Qed.

Lemma calc_dist_substr_unfold seq1 seq2 d :
  calc_dist_substr seq1 seq2 d =
    s1 ← join_states d seq1;
    s2 ← join_states d seq2;
    km ← pylcs.lcs_string_length s1 s2;
    similarity_distance km (length s1 + length s2).
Proof.
  unfold calc_dist_substr.
  destruct (join_states d seq1) as [s1|]; [|done]. cbn [mbind result_bind].
  destruct (join_states d seq2) as [s2|]; [|done]. cbn [mbind result_bind].
  by destruct (pylcs.lcs_string_length s1 s2).
Qed.

(** Both metrics at once, on the strings they build. *)
Lemma distance_unfold metric d seq1 seq2 :
  distance metric d seq1 seq2 =
    s1 ← metric_string metric d seq1;
    s2 ← metric_string metric d seq2;
    km ← pylcs_length metric s1 s2;
    similarity_distance km (length s1 + length s2).
Proof.
  destruct metric; cbn [distance metric_string pylcs_length].
  - apply calc_dist_unfold.
  - apply calc_dist_substr_unfold.
Qed.

Lemma calc_dist_strings seq1 seq2 d s1 s2 :
  comparison_string d seq1 = Ok s1 →
  comparison_string d seq2 = Ok s2 →
  pylcs.utf8_encodable s1 = true → pylcs.utf8_encodable s2 = true →
  calc_dist seq1 seq2 d
  = similarity_distance (pylcs.lcs_length_ s1 s2) (length s1 + length s2).
Proof.
  intros H1 H2 E1 E2.
  rewrite calc_dist_unfold, H1, H2. cbn [mbind result_bind].
  by rewrite (lcs_sequence_length_Ok _ _ E1 E2).
Qed.

Lemma similarity_distance_Ok km n :
  n ≠ 0%nat →
  similarity_distance km n
  = Ok (1 - inject_Z (2 * Z.of_nat km) / inject_Z (Z.of_nat n))%Q.
Proof.
  intros Hn. unfold similarity_distance, true_div.
  rewrite decide_False by lia. done.
Qed.

Lemma similarity_distance_zero km : similarity_distance km 0 = Raise ZeroDivisionError.
Proof. reflexivity. Qed.

(** Two comparison strings that are both empty: the division by zero is
    not guarded. *)
Lemma calc_dist_both_empty seq1 seq2 d :
  comparison_string d seq1 = Ok [] →
  comparison_string d seq2 = Ok [] →
  calc_dist seq1 seq2 d = Raise ZeroDivisionError.
Proof.
  intros H1 H2. by rewrite (calc_dist_strings _ _ _ _ _ H1 H2 eq_refl eq_refl).
Qed.

Lemma to_string_cons d x seq :
  to_string d (x :: seq) =
    s ← getitem d x; rest ← to_string d seq; Ok (s ++ rest).
Proof.
  unfold to_string. cbn [mapM].
  destruct (getitem d x) as [sx|e]; [|reflexivity].
  destruct (mapM (getitem d) seq); reflexivity.
Qed.

Lemma join_states_to_string d seq : join_states d seq = to_string d seq.
Proof.
  induction seq as [|x seq IH]; [done|].
  rewrite to_string_cons. cbn [join_states]. by rewrite IH.
Qed.
End Metrics.

(** ** The reference definition of the subsequence metric *)

Section Refinement.
Implicit Types d : gmap Z pystr.
Implicit Types seq : list Z.

Lemma elem_of_py_range k n : k ∈ py_range n ↔ 0 ≤ k < n.
Proof.
  unfold py_range. rewrite list_elem_of_fmap. split.
  - intros (i & -> & Hi%elem_of_seq). lia.
  - intros Hk. exists (Z.to_nat k). split; [lia|]. apply elem_of_seq. lia.
Qed.

Lemma indexed_lookup d k :
  indexed_from_zero d → is_Some (d !! k) ↔ 0 ≤ k < len_dict d.
Proof.
  intros Hd. rewrite <-elem_of_dom, Hd, elem_of_list_to_set.
  apply elem_of_py_range.
Qed.

Lemma foldl_Zmax_spec (k : Z) (ks : list Z) :
  foldl Z.max k ks ∈ k :: ks ∧ ∀ x, x ∈ k :: ks → x ≤ foldl Z.max k ks.
Proof.
  revert k. induction ks as [|y ks IH]; intros k; cbn [foldl].
  - split; [by left|]. intros x ->%list_elem_of_singleton. lia.
  - destruct (IH (Z.max k y)) as [Hin Hle]. split.
    + apply elem_of_cons in Hin as [Heq|Hin]; [|by do 2 right].
      rewrite Heq. destruct (Z.max_spec k y) as [[_ ->]|[_ ->]];
        [right; by left | by left].
    + intros x [->|[->|Hx]%elem_of_cons]%elem_of_cons.
      * etrans; [|apply Hle; by left]. lia.
      * etrans; [|apply Hle; by left]. lia.
      * apply Hle. by right.
Qed.

Lemma highest_index_indexed d u :
  indexed_from_zero d → highest_index d = Some u → u = len_dict d - 1.
Proof.
  intros Hd. unfold highest_index.
  destruct (elements (dom d)) as [|k ks] eqn:Hel; [done|].
  intros [= <-]. destruct (foldl_Zmax_spec k ks) as [Hin Hle].
  rewrite <-Hel in Hin, Hle. setoid_rewrite elem_of_elements in Hle.
  apply elem_of_elements, elem_of_dom, indexed_lookup in Hin; [|done].
  assert (len_dict d - 1 ≤ foldl Z.max k ks); [|lia].
  apply Hle, elem_of_dom, indexed_lookup; [done|lia].
Qed.

Lemma strip_unknown_filter d seq :
  indexed_from_zero d →
  Forall (λ x, is_Some (d !! x)) seq →
  strip_unknown d seq = filter (λ x, x < len_dict d - 1) seq.
Proof.
  intros Hd Hseq. unfold strip_unknown.
  destruct (highest_index d) as [u|] eqn:Hu.
  - apply (highest_index_indexed _ _ Hd) in Hu as ->.
    induction Hseq as [|x seq Hx _ IH]; [done|].
    apply indexed_lookup in Hx; [|done].
    rewrite !filter_cons, IH. repeat case_decide; (done || lia).
  - unfold highest_index in Hu.
    destruct (elements (dom d)) as [|k ks] eqn:Hel; [|done].
    destruct Hseq as [|x seq Hx _]; [done|].
    apply elem_of_dom, elem_of_elements in Hx. rewrite Hel in Hx.
    by apply elem_of_nil in Hx.
Qed.
End Refinement.

(** A string joined from symbols without surrogates has none. *)
Lemma utf8_encodable_app s t :
  pylcs.utf8_encodable (s ++ t)
  = pylcs.utf8_encodable s && pylcs.utf8_encodable t.
Proof. unfold pylcs.utf8_encodable. apply forallb_app. Qed.

Lemma join_states_encodable (d : gmap Z pystr) (seq : list Z) (s : pystr) :
  map_Forall (λ _ symbol, pylcs.utf8_encodable symbol = true) d →
  join_states d seq = Ok s → pylcs.utf8_encodable s = true.
Proof.
  intros Hd. revert s. induction seq as [|x seq IH]; intros s.
  - by intros [= <-].
  - cbn [join_states]. unfold getitem.
    destruct (d !! x) as [sx|] eqn:Hx; [|done]. cbn [mbind result_bind].
    destruct (join_states d seq) as [rest|]; [|done]. cbn [mbind result_bind].
    intros [= <-]. rewrite utf8_encodable_app, (Hd _ _ Hx), (IH rest eq_refl).
    done.
Qed.

(** C7 as stated fails: the sequence [0, 7, 1] holds an entry above the
    unknown index 2.  [calc_dist] strips it and returns the distance 0 to
    [0, 1], where the reference definition, which strips the entries equal
    to the unknown index only, raises [KeyError]. *)
Lemma calc_dist_differs_from_reference :
  (∃ q, calc_dist [0; 7; 1] [0; 1] dictAB = Ok q ∧ (q == 0)%Q) ∧
  calc_dist_ref [0; 7; 1] [0; 1] dictAB = Raise KeyError ∧
  calc_dist [0; 7; 1] [0; 1] dictAB ≠ calc_dist_ref [0; 7; 1] [0; 1] dictAB.
Proof.
  split_and!.
  - eexists. split; [vm_compute; reflexivity | reflexivity].
  - vm_compute. reflexivity.
  - vm_compute. discriminate.
Qed.

(** C7 (amended). On a dictionary indexed from zero whose symbols hold no
    surrogate code point, and on sequences of state ids the dictionary
    covers, [calc_dist] equals the reference definition of the subsequence
    metric: strip the entries equal to the unknown index (the highest
    one), map the others through the dictionary, take the length [k] of a
    longest common subsequence of the two strings and return
    [1 - 2k / (len1 + len2)]. *)
Theorem calc_dist_refines_reference (seq1 seq2 : list Z) (d : gmap Z pystr) :
  indexed_from_zero d →
  map_Forall (λ _ symbol, pylcs.utf8_encodable symbol = true) d →
  Forall (λ x, is_Some (d !! x)) seq1 →
  Forall (λ x, is_Some (d !! x)) seq2 →
  calc_dist seq1 seq2 d = calc_dist_ref seq1 seq2 d.
Proof.
  intros Hd He H1 H2. unfold calc_dist_ref.
  rewrite !strip_unknown_filter, <-!join_states_to_string by done.
  rewrite calc_dist_unfold. unfold comparison_string.
  destruct (join_states d (filter _ seq1)) as [s1|e] eqn:Hs1; [|done].
  destruct (join_states d (filter _ seq2)) as [s2|e] eqn:Hs2; [|done].
  cbn [mbind result_bind].
  rewrite lcs_sequence_length_Ok by (by eapply join_states_encodable).
  cbn [mbind result_bind]. rewrite ref_lcs_length_pylcs.
  unfold similarity_distance, true_div.
  repeat case_decide; (done || lia).
Qed.

(** The theorem on two sequences over the states A, B and the unknown
    symbol. *)
Lemma calc_dist_refines_reference_witness :
  indexed_from_zero dictAB ∧
  map_Forall (λ _ symbol, pylcs.utf8_encodable symbol = true) dictAB ∧
  Forall (λ x, is_Some (dictAB !! x)) [0; 0; 0; 1; 2] ∧
  Forall (λ x, is_Some (dictAB !! x)) [1; 2; 0; 0; 0] ∧
  calc_dist [0; 0; 0; 1; 2] [1; 2; 0; 0; 0] dictAB
  = calc_dist_ref [0; 0; 0; 1; 2] [1; 2; 0; 0; 0] dictAB.
Proof.
  assert (Hd : indexed_from_zero dictAB) by (vm_compute; reflexivity).
  assert (He : map_Forall (λ _ symbol, pylcs.utf8_encodable symbol = true) dictAB).
  { unfold dictAB. repeat apply map_Forall_insert_2; [reflexivity..|].
    apply map_Forall_empty. }
  assert (H1 : Forall (λ x, is_Some (dictAB !! x)) [0; 0; 0; 1; 2])
    by (repeat constructor; eexists; reflexivity).
  assert (H2 : Forall (λ x, is_Some (dictAB !! x)) [1; 2; 0; 0; 0])
    by (repeat constructor; eexists; reflexivity).
  exact (conj Hd (conj He (conj H1 (conj H2
           (calc_dist_refines_reference _ _ _ Hd He H1 H2))))).
Defined.

(** ** Subsequence against substring *)

Lemma filter_Forall_id {A} (P : A → Prop) `{!∀ x, Decision (P x)} (l : list A) :
  Forall P l → filter P l = l.
Proof.
  induction 1 as [|x l Hx _ IH]; [done|].
  by rewrite filter_cons, decide_True, IH.
Qed.

(** C3 as stated fails: on sequences mapping to "AAAB" and "BAAA" the two
    metrics do not differ. *)
Lemma metrics_differ_AAAB_BAAA_false :
  ¬ (calc_dist_substr [0; 0; 0; 1] [1; 0; 0; 0] dictAB
     ≠ calc_dist [0; 0; 0; 1] [1; 0; 0; 0] dictAB).
Proof. intros H. apply H. vm_compute. reflexivity. Qed.

(** C3 (amended). On sequences mapping to "AAAB" and "BAAA", none of whose
    entries is stripped, both metrics return the distance 2/8: "AAA" is a
    longest common substring and a longest common subsequence.  The two
    metrics differ on "AAAB" against "ABAA". *)
Theorem metrics_agree_AAAB_BAAA (seq1 seq2 : list Z) (d : gmap Z pystr) :
  Forall (λ x, x < len_dict d - 1) seq1 →
  Forall (λ x, x < len_dict d - 1) seq2 →
  join_states d seq1 = Ok (str "AAAB") →
  join_states d seq2 = Ok (str "BAAA") →
  calc_dist seq1 seq2 d = Ok (2 # 8)%Q ∧
  calc_dist_substr seq1 seq2 d = Ok (2 # 8)%Q ∧
  calc_dist [0; 0; 0; 1] [0; 1; 0; 0] dictAB
  ≠ calc_dist_substr [0; 0; 0; 1] [0; 1; 0; 0] dictAB.
Proof.
  intros Hf1 Hf2 H1 H2. split_and!.
  - rewrite calc_dist_unfold. unfold comparison_string.
    rewrite !filter_Forall_id, H1, H2 by done. reflexivity.
  - rewrite calc_dist_substr_unfold, H1, H2. reflexivity.
  - vm_compute. discriminate.
Qed.

(** The theorem on the sequences [0, 0, 0, 1] and [1, 0, 0, 0]. *)
Lemma metrics_agree_AAAB_BAAA_witness :
  Forall (λ x, x < len_dict dictAB - 1) [0; 0; 0; 1] ∧
  Forall (λ x, x < len_dict dictAB - 1) [1; 0; 0; 0] ∧
  join_states dictAB [0; 0; 0; 1] = Ok (str "AAAB") ∧
  join_states dictAB [1; 0; 0; 0] = Ok (str "BAAA") ∧
  calc_dist [0; 0; 0; 1] [1; 0; 0; 0] dictAB = Ok (2 # 8)%Q ∧
  calc_dist_substr [0; 0; 0; 1] [1; 0; 0; 0] dictAB = Ok (2 # 8)%Q.
Proof.
  assert (Hf1 : Forall (λ x, x < len_dict dictAB - 1) [0; 0; 0; 1])
    by (repeat constructor; vm_compute; reflexivity).
  assert (Hf2 : Forall (λ x, x < len_dict dictAB - 1) [1; 0; 0; 0])
    by (repeat constructor; vm_compute; reflexivity).
  assert (H1 : join_states dictAB [0; 0; 0; 1] = Ok (str "AAAB"))
    by (vm_compute; reflexivity).
  assert (H2 : join_states dictAB [1; 0; 0; 0] = Ok (str "BAAA"))
    by (vm_compute; reflexivity).
  destruct (metrics_agree_AAAB_BAAA _ _ _ Hf1 Hf2 H1 H2) as (Hd & Hs & _).
  exact (conj Hf1 (conj Hf2 (conj H1 (conj H2 (conj Hd Hs))))).
Defined.

(** ** Symmetry, range and extreme values of the two metrics *)

Section MetricProperties.
Implicit Types d : gmap Z pystr.
Implicit Types seq : list Z.
Implicit Types s : pystr.
Local Open Scope Q_scope.

Lemma distance_range (k n : nat) :
  (2 * k ≤ n)%nat → (0 < n)%nat →
  0 <= 1 - inject_Z (2 * Z.of_nat k) / inject_Z (Z.of_nat n) ∧
  1 - inject_Z (2 * Z.of_nat k) / inject_Z (Z.of_nat n) <= 1.
Proof.
  intros Hk Hn.
  destruct (ratio_bounds (2 * Z.of_nat k) (Z.of_nat n)) as [? ?]; [lia..|].
  split; lra.
Qed.

Lemma distance_identical (n : nat) :
  (0 < n)%nat →
  1 - inject_Z (2 * Z.of_nat n) / inject_Z (Z.of_nat (n + n)) == 0.
Proof.
  intros Hn. replace (Z.of_nat (n + n)) with (2 * Z.of_nat n)%Z by lia.
  rewrite ratio_self by lia. lra.
Qed.

Lemma distance_disjoint (n : nat) :
  1 - inject_Z (2 * Z.of_nat 0) / inject_Z (Z.of_nat n) == 1.
Proof. change (2 * Z.of_nat 0)%Z with 0%Z. rewrite ratio_zero. lra. Qed.

Lemma common_length_sym metric s1 s2 :
  common_length metric s1 s2 = common_length metric s2 s1.
Proof.
  destruct metric; [apply lcs_length_sym | apply lcs2_length_sym].
Qed.

Lemma common_length_self metric s : common_length metric s s = length s.
Proof.
  destruct metric; [apply lcs_length_self | apply lcs2_length_self].
Qed.

Lemma common_length_le metric s1 s2 :
  (2 * common_length metric s1 s2 ≤ length s1 + length s2)%nat.
Proof.
  destruct metric; cbn.
  - pose proof (lcs_length_le_l s1 s2).
    pose proof (lcs_length_le_r s1 s2). lia.
  - pose proof (lcs2_length_le_l s1 s2).
    pose proof (lcs2_length_le_r s1 s2). lia.
Qed.

Lemma common_length_disjoint metric s1 s2 :
  (∀ c, c ∈ s1 → c ∉ s2) → common_length metric s1 s2 = 0%nat.
Proof.
  destruct metric;
    [apply lcs_length_disjoint | apply lcs2_length_disjoint].
Qed.

Lemma distance_strings metric seq1 seq2 d s1 s2 :
  metric_string metric d seq1 = Ok s1 →
  metric_string metric d seq2 = Ok s2 →
  pylcs.utf8_encodable s1 = true → pylcs.utf8_encodable s2 = true →
  distance metric d seq1 seq2
  = similarity_distance (common_length metric s1 s2) (length s1 + length s2).
Proof.
  intros H1 H2 E1 E2.
  rewrite distance_unfold, H1, H2. cbn [mbind result_bind].
  by rewrite (pylcs_length_Ok _ _ _ E1 E2).
Qed.

Lemma distance_value metric seq1 seq2 d s1 s2 :
  metric_string metric d seq1 = Ok s1 →
  metric_string metric d seq2 = Ok s2 →
  pylcs.utf8_encodable s1 = true → pylcs.utf8_encodable s2 = true →
  s1 ≠ [] →
  distance metric d seq1 seq2
  = Ok (1 - inject_Z (2 * Z.of_nat (common_length metric s1 s2))
            / inject_Z (Z.of_nat (length s1 + length s2))).
Proof.
  intros H1 H2 E1 E2 Hne. rewrite (distance_strings _ _ _ _ _ _ H1 H2 E1 E2).
  apply similarity_distance_Ok. destruct s1; [done|]. simpl. lia.
Qed.

Lemma distance_pair metric seq1 seq2 d s1 s2 :
  metric_string metric d seq1 = Ok s1 →
  metric_string metric d seq2 = Ok s2 →
  pylcs.utf8_encodable s1 = true → pylcs.utf8_encodable s2 = true →
  s1 ≠ [] → s2 ≠ [] →
  ∃ q, distance metric d seq1 seq2 = Ok q ∧ distance metric d seq2 seq1 = Ok q ∧
       0 <= q ∧ q <= 1 ∧
       (s1 = s2 → q == 0) ∧
       ((∀ c, c ∈ s1 → c ∉ s2) → q == 1).
Proof.
  intros H1 H2 E1 E2 Hne1 Hne2. eexists. split_and!.
  - by apply distance_value.
  - rewrite (distance_value _ _ _ _ _ _ H2 H1 E2 E1 Hne2).
    by rewrite common_length_sym, Nat.add_comm.
  - apply distance_range; [apply common_length_le|].
    destruct s1; [done|]. simpl. lia.
  - apply distance_range; [apply common_length_le|].
    destruct s1; [done|]. simpl. lia.
  - intros <-. rewrite common_length_self.
    apply distance_identical. destruct s1; [done|]. simpl. lia.
  - intros Hdisj. rewrite common_length_disjoint by done.
    apply distance_disjoint.
Qed.

Lemma distance_self metric seq d :
  comparable metric d seq → ∃ q, distance metric d seq seq = Ok q ∧ q == 0.
Proof.
  intros (s & Hs & Hne & He).
  destruct (distance_pair metric seq seq d s s Hs Hs He He Hne Hne)
    as (q & Hq & _ & _ & _ & H0 & _).
  exists q. split; [done|]. by apply H0.
Qed.
End MetricProperties.

(** ** Lists of results *)

Section MapM.
Context {A B : Type} (f : A → result B).

Lemma mapM_result_cons x l :
  mapM f (x :: l) = y ← f x; ys ← mapM f l; Ok (y :: ys).
Proof. reflexivity. Qed.

Lemma mapM_result_Ok l ys :
  mapM f l = Ok ys ↔ Forall2 (λ x y, f x = Ok y) l ys.
Proof.
  revert ys. induction l as [|x l IH]; intros ys.
  - split; [intros [= <-]; constructor | by inversion 1].
  - rewrite mapM_result_cons. split.
    + destruct (f x) as [y|e] eqn:Hx; [|done]. cbn.
      destruct (mapM f l) as [ys'|e] eqn:Hl; [|done]. cbn.
      intros [= <-]. constructor; [done|]. by apply IH.
    + inversion 1 as [|? y ? ys' Hx Hl]; subst.
      rewrite Hx. cbn. apply IH in Hl. rewrite Hl. done.
Qed.

Lemma mapM_result_total l :
  Forall (λ x, is_Ok (f x)) l → is_Ok (mapM f l).
Proof.
  induction 1 as [|x l [y Hx] _ [ys IH]]; [by exists []|].
  exists (y :: ys). rewrite mapM_result_cons, Hx. cbn. by rewrite IH.
Qed.

Lemma mapM_result_length l ys : mapM f l = Ok ys → length ys = length l.
Proof. intros H%mapM_result_Ok. symmetry. by eapply Forall2_length. Qed.
End MapM.

(** ** The assembled matrix *)

Section Assemble.
Implicit Types upper : list (list Q).
Implicit Types diag row : list Q.

Lemma assemble_length upper diag :
  triangular upper → length diag = length upper →
  length (sklearn.assemble upper diag) = length upper.
Proof.
  revert diag. induction upper as [|row upper IH]; intros [|d diag]; try done.
  intros [Hrow Htri] [= Hlen]. cbn [sklearn.assemble length].
  rewrite length_zip_with, IH by done. lia.
Qed.

Lemma assemble_square upper diag :
  triangular upper → length diag = length upper →
  square (length upper) (sklearn.assemble upper diag).
Proof.
  intros Htri Hlen. split; [by apply assemble_length|].
  revert diag Htri Hlen.
  induction upper as [|row upper IH]; intros [|d diag]; try done.
  intros [Hrow Htri] [= Hlen]. cbn [sklearn.assemble].
  constructor; [simpl; lia|].
  apply Forall_lookup. intros i r.
  rewrite lookup_zip_with_Some. intros (x & m & -> & _ & Hm).
  eapply Forall_lookup_1 in Hm; [|by apply IH]. simpl in *. lia.
Qed.

Lemma entry_cons_S row (m : matrix) i j : entry (row :: m) (S i) j = entry m i j.
Proof. reflexivity. Qed.

Lemma entry_assemble_00 row upper d diag :
  entry (sklearn.assemble (row :: upper) (d :: diag)) 0 0 = Some d.
Proof. reflexivity. Qed.

Lemma entry_assemble_0S row upper d diag j :
  entry (sklearn.assemble (row :: upper) (d :: diag)) 0 (S j) = row !! j.
Proof. reflexivity. Qed.

Lemma entry_assemble_S0 row upper d diag i :
  triangular (row :: upper) → length diag = length upper →
  entry (sklearn.assemble (row :: upper) (d :: diag)) (S i) 0 = row !! i.
Proof.
  intros [Hrow Htri] Hlen. cbn [sklearn.assemble].
  rewrite entry_cons_S. unfold entry. rewrite lookup_zip_with.
  destruct (row !! i) as [x|] eqn:Hx; [|done]. cbn.
  destruct (sklearn.assemble upper diag !! i) as [m|] eqn:Hm; [done|].
  apply lookup_ge_None in Hm. apply lookup_lt_Some in Hx.
  rewrite assemble_length in Hm by done. lia.
Qed.

Lemma entry_assemble_SS row upper d diag i j :
  triangular (row :: upper) → length diag = length upper →
  entry (sklearn.assemble (row :: upper) (d :: diag)) (S i) (S j)
  = entry (sklearn.assemble upper diag) i j.
Proof.
  intros [Hrow Htri] Hlen. cbn [sklearn.assemble].
  rewrite entry_cons_S. unfold entry. rewrite lookup_zip_with.
  destruct (sklearn.assemble upper diag !! i) as [m|] eqn:Hm.
  - apply lookup_lt_Some in Hm. rewrite assemble_length in Hm by done.
    destruct (lookup_lt_is_Some_2 row i) as [x ->]; [lia|]. done.
  - by destruct (row !! i).
Qed.

Lemma assemble_symmetric upper diag :
  triangular upper → length diag = length upper →
  symmetric (sklearn.assemble upper diag).
Proof.
  revert diag. induction upper as [|row upper IH]; intros [|d diag]; try done.
  intros Htri [= Hlen] i j.
  destruct i as [|i], j as [|j].
  - done.
  - by rewrite entry_assemble_0S, entry_assemble_S0.
  - by rewrite entry_assemble_0S, entry_assemble_S0.
  - rewrite !entry_assemble_SS by done. apply IH; [apply Htri|done].
Qed.

Lemma entry_assemble_diag upper diag i :
  triangular upper → length diag = length upper →
  entry (sklearn.assemble upper diag) i i = diag !! i.
Proof.
  revert diag i. induction upper as [|row upper IH]; intros [|d diag] i; try done.
  intros Htri [= Hlen]. destruct i as [|i]; [done|].
  rewrite entry_assemble_SS by done.
  change ((d :: diag) !! S i) with (diag !! i).
  apply IH; [apply Htri|done].
Qed.
End Assemble.

Section Pairwise.
Context {A : Type} (metric : A → A → result Q).

Lemma upper_triangle_total (X : list A) :
  (∀ x y, x ∈ X → y ∈ X → is_Ok (metric x y)) →
  ∃ upper, sklearn.upper_triangle metric X = Ok upper ∧
           length upper = length X ∧ triangular upper.
Proof.
  induction X as [|x X IH]; intros Hok; [by exists []|].
  destruct IH as (upper & Hup & Hlen & Htri).
  { intros y z Hy Hz. apply Hok; by right. }
  destruct (mapM_result_total (metric x) X) as [row Hrow].
  { apply Forall_forall. intros y Hy. apply Hok; [by left | by right]. }
  exists (row :: upper). cbn [sklearn.upper_triangle].
  rewrite Hrow. cbn. rewrite Hup. cbn.
  split_and!; [done|simpl; by rewrite Hlen|simpl|done].
  apply mapM_result_length in Hrow. lia.
Qed.

Lemma upper_triangle_shape (X : list A) upper :
  sklearn.upper_triangle metric X = Ok upper →
  length upper = length X ∧ triangular upper.
Proof.
  revert upper. induction X as [|x X IH]; intros upper.
  { by intros [= <-]. }
  cbn [sklearn.upper_triangle].
  destruct (mapM (metric x) X) as [row|e] eqn:Hrow; [|done]. cbn.
  destruct (sklearn.upper_triangle metric X) as [rest|e] eqn:Hrest; [|done]. cbn.
  intros [= <-]. destruct (IH rest eq_refl) as [Hlen Htri].
  apply mapM_result_length in Hrow. simpl. split_and!; [lia|lia|done].
Qed.

Lemma entry_upper (X : list A) upper diag i j x y :
  sklearn.upper_triangle metric X = Ok upper →
  length diag = length X →
  (i < j)%nat → X !! i = Some x → X !! j = Some y →
  ∃ q, metric x y = Ok q ∧ entry (sklearn.assemble upper diag) i j = Some q.
Proof.
  revert upper diag i j. induction X as [|x0 X IH]; intros upper diag i j; [done|].
  intros Hup Hlen Hij Hi Hj.
  pose proof (upper_triangle_shape _ _ Hup) as [Hulen Htri].
  cbn [sklearn.upper_triangle] in Hup.
  destruct (mapM (metric x0) X) as [row|e] eqn:Hrow; [|done]. cbn in Hup.
  destruct (sklearn.upper_triangle metric X) as [rest|e] eqn:Hrest; [|done].
  cbn in Hup. injection Hup as <-.
  destruct diag as [|d diag]; [done|]. injection Hlen as Hlen.
  destruct j as [|j]; [lia|]. cbn in Hj.
  destruct i as [|i].
  - injection Hi as <-. rewrite entry_assemble_0S.
    apply mapM_result_Ok in Hrow.
    destruct (Forall2_lookup_l _ _ _ _ _ Hrow Hj) as (q & Hq & Hm). by exists q.
  - cbn in Hi. rewrite entry_assemble_SS; [|done|simpl in Hulen; lia].
    eapply IH; [done|done|lia|done|done].
Qed.

(** The matrix of [_pairwise_callable] is square and symmetric, and its
    diagonal holds the self-distances. *)
Lemma pairwise_callable_shape (X : list A) :
  (∀ x y, x ∈ X → y ∈ X → is_Ok (metric x y)) →
  ∃ m, sklearn.pairwise_callable metric X = Ok m ∧
       square (length X) m ∧ symmetric m ∧
       (∀ i x, X !! i = Some x → ∃ q, metric x x = Ok q ∧ entry m i i = Some q) ∧
       (∀ i j x y, (i < j)%nat → X !! i = Some x → X !! j = Some y →
                   ∃ q, metric x y = Ok q ∧ entry m i j = Some q).
Proof.
  intros Hok.
  destruct (upper_triangle_total X Hok) as (upper & Hup & Hlen & Htri).
  destruct (mapM_result_total (λ x, metric x x) X) as [diag Hdiag].
  { apply Forall_forall. intros x Hx. by apply Hok. }
  pose proof (mapM_result_length _ _ _ Hdiag) as Hdlen.
  exists (sklearn.assemble upper diag).
  unfold sklearn.pairwise_callable. rewrite Hup. cbn. rewrite Hdiag. cbn.
  assert (length diag = length upper) as Hlen' by lia.
  split_and!; [done| |by apply assemble_symmetric| |].
  - rewrite <-Hlen. by apply assemble_square.
  - intros i x Hx. rewrite entry_assemble_diag by done.
    apply mapM_result_Ok in Hdiag.
    destruct (Forall2_lookup_l _ _ _ _ _ Hdiag Hx) as (q & Hq & Hm).
    by exists q.
  - intros i j x y Hij Hi Hj. by eapply entry_upper.
Qed.
End Pairwise.

(** The conversion of [X] to a 2-D array. *)
Section Checked.
Context {B : Type} (metric : list B → list B → result Q).

Lemma check_pairwise_arrays_Ok (X : list (list B)) :
  rectangular X → sklearn.check_pairwise_arrays X = Ok ().
Proof.
  destruct X as [|x X]; [done|]. intros HX.
  unfold sklearn.check_pairwise_arrays. by rewrite decide_True.
Qed.

Lemma check_pairwise_arrays_ValueError (X : list (list B)) :
  ¬ rectangular X → sklearn.check_pairwise_arrays X = Raise ValueError.
Proof.
  destruct X as [|x X]; [done|]. intros HX.
  unfold sklearn.check_pairwise_arrays. by rewrite decide_False.
Qed.

Lemma pairwise_distances_rectangular (X : list (list B)) :
  rectangular X →
  sklearn.pairwise_distances metric X = sklearn.pairwise_callable metric X.
Proof.
  intros HX. unfold sklearn.pairwise_distances.
  by rewrite check_pairwise_arrays_Ok.
Qed.

Lemma pairwise_distances_ValueError (X : list (list B)) :
  ¬ rectangular X → sklearn.pairwise_distances metric X = Raise ValueError.
Proof.
  intros HX. unfold sklearn.pairwise_distances.
  by rewrite check_pairwise_arrays_ValueError.
Qed.
End Checked.

(** ** The matrix of distances *)

Section DistanceMatrix.
Context (metric : bool) (d : gmap Z pystr) (X : list (list Z)).
Hypothesis comparable_X : Forall (comparable metric d) X.

Lemma distance_members seq1 seq2 :
  seq1 ∈ X → seq2 ∈ X →
  ∃ q, distance metric d seq1 seq2 = Ok q ∧ distance metric d seq2 seq1 = Ok q ∧
       (0 <= q)%Q ∧ (q <= 1)%Q ∧
       (metric_string metric d seq1 = metric_string metric d seq2 → (q == 0)%Q) ∧
       (∀ s1 s2, metric_string metric d seq1 = Ok s1 →
                 metric_string metric d seq2 = Ok s2 →
                 (∀ c, c ∈ s1 → c ∉ s2) → (q == 1)%Q).
Proof.
  pose proof comparable_X as HX. rewrite Forall_forall in HX.
  intros (s1 & H1 & Hne1 & E1)%HX (s2 & H2 & Hne2 & E2)%HX.
  destruct (distance_pair _ _ _ _ _ _ H1 H2 E1 E2 Hne1 Hne2)
    as (q & Hq & Hq' & Hlo & Hhi & Hsame & Hdisj).
  exists q. split_and!; try done.
  - rewrite H1, H2. intros [= ->]. by apply Hsame.
  - intros t1 t2. rewrite H1, H2. intros [= <-] [= <-]. apply Hdisj.
Qed.

Lemma distance_matrix :
  rectangular X →
  ∃ m, sklearn.pairwise_distances (distance metric d) X = Ok m ∧
       square (length X) m ∧ symmetric m ∧ zero_diagonal (length X) m ∧
       ∀ i j x y, X !! i = Some x → X !! j = Some y →
                  ∃ q, distance metric d x y = Ok q ∧ entry m i j = Some q.
Proof.
  intros Hrect. rewrite (pairwise_distances_rectangular _ _ Hrect).
  pose proof comparable_X as HX. rewrite Forall_forall in HX.
  destruct (pairwise_callable_shape (distance metric d) X)
    as (m & Hm & Hsq & Hsym & Hdiag & Hupper).
  { intros x y Hx Hy. destruct (distance_members x y Hx Hy) as (q & Hq & _).
    by exists q. }
  exists m. split_and!; try done.
  - intros i Hi. destruct (lookup_lt_is_Some_2 X i Hi) as [x Hx].
    destruct (Hdiag i x Hx) as (q & Hq & He).
    destruct (distance_self metric x d) as (q' & Hq' & H0).
    { apply HX. by eapply list_elem_of_lookup_2. }
    exists q. split; [done|]. congruence.
  - intros i j x y Hx Hy.
    destruct (Nat.lt_trichotomy i j) as [Hij|[<-|Hji]].
    + by eapply Hupper.
    + assert (x = y) as <- by congruence. by eapply Hdiag.
    + destruct (Hupper j i y x Hji Hy Hx) as (q & Hq & He).
      exists q. rewrite Hsym. split; [|done].
      destruct (distance_members x y) as (q' & Hxy & Hyx & _);
        [by eapply list_elem_of_lookup_2..|]. congruence.
Qed.
End DistanceMatrix.

(** C6 as stated fails: with the symbols "1" and "10", as
    [reassign_identity] names the states 1 and 10, the sequences [1] and
    [10] share no symbol, both have a string that is not empty, and their
    distance under the subsequence metric is 1/3. *)
Lemma disjoint_symbols_distance_not_one :
  dict_digits !! 1 ≠ dict_digits !! 10 ∧
  comparable true dict_digits [1] ∧ comparable true dict_digits [10] ∧
  ∃ q, calc_dist [1] [10] dict_digits = Ok q ∧ (q == 1 # 3)%Q ∧ ¬ (q == 1)%Q.
Proof.
  split_and!.
  - vm_compute. discriminate.
  - eexists. split_and!; [vm_compute; reflexivity | discriminate | reflexivity].
  - eexists. split_and!; [vm_compute; reflexivity | discriminate | reflexivity].
  - eexists. split_and!; [vm_compute; reflexivity | reflexivity | discriminate].
Qed.

(** C6 (amended). Under both metrics, for sequences whose strings are
    defined, not empty (after stripping the unknown entries, for the
    subsequence metric) and free of surrogate code points: the distance is
    symmetric; it lies between 0 and 1; it is 0 for a sequence against
    itself and for two sequences with the same string; it is 1 for two
    sequences whose strings share no character; and when the sequences
    are the rows of a 2-D array with at least one row and one column, the
    matrix of [pairwise_distances] is square and symmetric, has a zero
    diagonal, and holds the distance of sequences [i] and [j] at [(i, j)]. *)
Theorem distance_matrix_properties (metric : bool) (d : gmap Z pystr)
    (X : list (list Z)) :
  Forall (comparable metric d) X →
  (∀ seq1 seq2, seq1 ∈ X → seq2 ∈ X →
     ∃ q, distance metric d seq1 seq2 = Ok q ∧ distance metric d seq2 seq1 = Ok q ∧
          (0 <= q)%Q ∧ (q <= 1)%Q ∧
          (metric_string metric d seq1 = metric_string metric d seq2 → (q == 0)%Q) ∧
          (∀ s1 s2, metric_string metric d seq1 = Ok s1 →
                    metric_string metric d seq2 = Ok s2 →
                    (∀ c, c ∈ s1 → c ∉ s2) → (q == 1)%Q)) ∧
  (∀ seq, seq ∈ X → ∃ q, distance metric d seq seq = Ok q ∧ (q == 0)%Q) ∧
  (rectangular X →
   ∃ m, sklearn.pairwise_distances (distance metric d) X = Ok m ∧
        square (length X) m ∧ symmetric m ∧ zero_diagonal (length X) m ∧
        ∀ i j x y, X !! i = Some x → X !! j = Some y →
                   ∃ q, distance metric d x y = Ok q ∧ entry m i j = Some q).
Proof.
  intros HX. split_and!.
  - intros seq1 seq2. by apply distance_members.
  - intros seq Hseq. apply distance_self.
    rewrite Forall_forall in HX. by apply HX.
  - by apply distance_matrix.
Qed.

(** The theorem under the subsequence metric, on three sequences of four
    states. *)
Lemma distance_matrix_properties_witness :
  Forall (comparable true dictAB) [[0; 0; 0; 1]; [1; 0; 0; 0]; [1; 1; 2; 2]] ∧
  rectangular [[0; 0; 0; 1]; [1; 0; 0; 0]; [1; 1; 2; 2]] ∧
  ∃ m, sklearn.pairwise_distances (λ x y, calc_dist x y dictAB)
         [[0; 0; 0; 1]; [1; 0; 0; 0]; [1; 1; 2; 2]] = Ok m ∧
       square 3 m ∧ symmetric m ∧ zero_diagonal 3 m.
Proof.
  assert (HX : Forall (comparable true dictAB)
                 [[0; 0; 0; 1]; [1; 0; 0; 0]; [1; 1; 2; 2]]).
  { repeat constructor; eexists;
      (split_and!; [vm_compute; reflexivity | discriminate | reflexivity]). }
  assert (HR : rectangular [[0; 0; 0; 1]; [1; 0; 0; 0]; [1; 1; 2; 2]]).
  { split; [discriminate|]. repeat constructor. }
  destruct (distance_matrix_properties true dictAB _ HX)
    as (_ & _ & Hm).
  destruct (Hm HR) as (m & Hm' & Hsq & Hsym & Hdiag & _).
  split; [exact HX|]. split; [exact HR|]. exists m. split_and!; done.
Defined.

(** ** The unguarded division *)

Lemma mapM_result_raise {A B} (f : A → result B) (e : exn) (l : list A) x :
  x ∈ l → f x = Raise e → (∀ y e', f y = Raise e' → e' = e) →
  mapM f l = Raise e.
Proof.
  intros Hx Hfx Hall. induction l as [|y l IH]; [by apply elem_of_nil in Hx|].
  rewrite mapM_result_cons.
  destruct (f y) as [b|e'] eqn:Hy.
  - apply elem_of_cons in Hx as [->|Hx]; [congruence|].
    rewrite (IH Hx). done.
  - cbn. f_equal. by eapply Hall.
Qed.

Lemma last_weight_raises (frames : list frame) e :
  last_weight frames = Raise e → e = IndexError.
Proof. unfold last_weight. destruct (last frames); [done|]. by intros [= <-]. Qed.

(** A pathway of unknown states only stops [gen_dist_matrix] in the loop
    of the weights. *)
Lemma gen_dist_matrix_all_unknown (pathways : list pathway) (d : gmap Z pystr)
    (p : pathway) (file_name out_dir : string) (remake : bool) (fs : store) :
  p ∈ pathways →
  Forall (λ step, len_dict d - 1 ≤ state_id step) p →
  gen_dist_matrix pathways d file_name out_dir remake true fs = (Raise IndexError, fs).
Proof.
  intros Hp Hall. unfold gen_dist_matrix. cbn zeta.
  rewrite (mapM_result_raise (pathway_weight true d) IndexError pathways p); [done..| |].
  - unfold pathway_weight.
    assert (filter (λ step, state_id step < len_dict d - 1) p = []) as ->; [|done].
    clear Hp. induction Hall as [|step p Hstep _ IH]; [done|].
    rewrite filter_cons, decide_False by lia. done.
  - intros y e'. apply last_weight_raises.
Qed.

(** C2 as stated fails: two sequences made of unknown symbols only have
    empty comparison strings, and [calc_dist] raises [ZeroDivisionError]
    instead of returning the distance [1.0]. *)
Lemma calc_dist_all_unknown_raises :
  comparison_string dictAB [2; 2] = Ok [] ∧
  comparison_string dictAB [2] = Ok [] ∧
  calc_dist [2; 2] [2] dictAB = Raise ZeroDivisionError ∧
  ¬ ∃ q, calc_dist [2; 2] [2] dictAB = Ok q.
Proof.
  assert (H1 : comparison_string dictAB [2; 2] = Ok []) by (vm_compute; reflexivity).
  assert (H2 : comparison_string dictAB [2] = Ok []) by (vm_compute; reflexivity).
  assert (H : calc_dist [2; 2] [2] dictAB = Raise ZeroDivisionError)
    by (by apply calc_dist_both_empty).
  split_and!; [done..|]. rewrite H. by intros [q ?].
Qed.

(** C2 (amended). The division in [calc_dist] is not guarded: for any two
    sequences whose comparison strings are both empty after stripping,
    [calc_dist] raises [ZeroDivisionError] and returns no distance.  Under
    the subsequence metric [gen_dist_matrix] does not get that far for a
    pathway made of unknown states only: the loop of the weights raises
    [IndexError] before any distance is computed, and no file is
    written. *)
Theorem calc_dist_division_unguarded (seq1 seq2 : list Z) (d : gmap Z pystr) :
  comparison_string d seq1 = Ok [] →
  comparison_string d seq2 = Ok [] →
  calc_dist seq1 seq2 d = Raise ZeroDivisionError ∧
  ∀ (pathways : list pathway) (p : pathway) (file_name out_dir : string)
    (remake : bool) (fs : store),
    p ∈ pathways → state_id <$> p = seq1 →
    Forall (λ x, len_dict d - 1 ≤ x) seq1 →
    gen_dist_matrix pathways d file_name out_dir remake true fs
    = (Raise IndexError, fs).
Proof.
  intros H1 H2. split; [by apply calc_dist_both_empty|].
  intros pathways p file_name out_dir remake fs Hp <- Hall.
  eapply gen_dist_matrix_all_unknown; [done|].
  by rewrite Forall_fmap in Hall.
Qed.

(** The theorem on the sequences [2, 2] and [2], and on an array whose
    first pathway holds the states [2, 2]. *)
Lemma calc_dist_division_unguarded_witness :
  comparison_string dictAB [2; 2] = Ok [] ∧
  comparison_string dictAB [2] = Ok [] ∧
  calc_dist [2; 2] [2] dictAB = Raise ZeroDivisionError ∧
  gen_dist_matrix [[fr 1 0 2 (1 # 2); fr 2 0 2 (1 # 2)]; [fr 1 1 0 (1 # 2)]]
    dictAB "distmat.npy" "succ_traj" true true ∅
  = (Raise IndexError, ∅).
Proof.
  assert (H1 : comparison_string dictAB [2; 2] = Ok []) by (vm_compute; reflexivity).
  assert (H2 : comparison_string dictAB [2] = Ok []) by (vm_compute; reflexivity).
  destruct (calc_dist_division_unguarded [2; 2] [2] dictAB H1 H2) as [Hd Hg].
  split_and!; [done..|].
  apply (Hg _ [fr 1 0 2 (1 # 2); fr 2 0 2 (1 # 2)]).
  - by left.
  - reflexivity.
  - repeat constructor; vm_compute; discriminate.
Defined.


(** ** Padding *)

Section Padding.
Implicit Types d : gmap Z pystr.

Lemma expand_step_idemp d step : expand_step d (expand_step d step) = expand_step d step.
Proof.
  unfold expand_step. destruct (decide (iteration_id step = 0)) as [H0|Hne].
  - cbn. by rewrite decide_True.
  - by rewrite decide_False.
Qed.

Lemma frame_at_expand pathways d i j :
  frame_at (expand_shorter_traj pathways d) i j
  = expand_step d <$> frame_at pathways i j.
Proof.
  unfold frame_at, expand_shorter_traj. rewrite list_lookup_fmap.
  destruct (pathways !! i) as [traj|]; [|done]. cbn.
  by rewrite list_lookup_fmap.
Qed.
End Padding.

(** C9. Padding sets [state_id] to the unknown index [len(dictionary) - 1]
    on the frames whose [iteration_id] is 0 and on no other frame, leaves
    the shape of the array, the other frames and the other fields as they
    are, and is idempotent. *)
Theorem expand_shorter_traj_spec (pathways : list pathway) (d : gmap Z pystr) :
  let padded := expand_shorter_traj pathways d in
  length padded = length pathways ∧
  (∀ i, length <$> padded !! i = length <$> pathways !! i) ∧
  (∀ i j step, frame_at pathways i j = Some step →
     ∃ step', frame_at padded i j = Some step' ∧
       iteration_id step' = iteration_id step ∧
       segment_id step' = segment_id step ∧
       auxdata step' = auxdata step ∧
       weight step' = weight step ∧
       (iteration_id step = 0 → state_id step' = len_dict d - 1) ∧
       (iteration_id step ≠ 0 → step' = step)) ∧
  expand_shorter_traj padded d = padded.
Proof.
  cbn zeta. split_and!.
  - unfold expand_shorter_traj. by rewrite length_fmap.
  - intros i. unfold expand_shorter_traj. rewrite list_lookup_fmap.
    destruct (pathways !! i); [|done]. cbn. by rewrite length_fmap.
  - intros i j step Hstep. exists (expand_step d step).
    split; [by rewrite frame_at_expand, Hstep|]. unfold expand_step.
    case_decide; split_and!; (done || (intros; exfalso; lia)).
  - unfold expand_shorter_traj. rewrite <-list_fmap_compose.
    apply list_fmap_ext. intros _ traj _. cbn. rewrite <-list_fmap_compose.
    apply list_fmap_ext. intros _ step _. apply expand_step_idemp.
Qed.

(** ** Clusters and representatives *)

Section Representatives.
Implicit Types data_arr : list pathway.
Implicit Types weights : list Q.
Implicit Types cluster_labels : list Z.

Lemma mask_select_none {A} (a : list A) cluster_labels icluster :
  length a = length cluster_labels →
  Forall (λ l, l ≠ icluster) cluster_labels →
  mask_select a ((λ l, bool_decide (l = icluster)) <$> cluster_labels) = Ok [].
Proof.
  intros Hlen Hnone. unfold mask_select.
  rewrite length_fmap, decide_True by done. f_equal.
  revert a Hlen. induction Hnone as [|l ls Hl _ IH]; intros [|x a] Hlen; try done.
  cbn [fmap list_fmap zip zip_with]. rewrite filter_cons, decide_False.
  - apply IH. by injection Hlen.
  - cbn. rewrite bool_decide_eq_true. done.
Qed.

Lemma select_rep_empty_cluster data_arr weights cluster_labels icluster :
  length data_arr = length cluster_labels →
  length weights = length cluster_labels →
  Forall (λ l, l ≠ icluster) cluster_labels →
  select_rep data_arr weights cluster_labels icluster = Raise ValueError.
Proof.
  intros Hd Hw Hnone. unfold select_rep.
  by rewrite !mask_select_none.
Qed.

Lemma py_max_ge (l : list Z) m x : py_max l = Ok m → x ∈ l → x ≤ m.
Proof.
  destruct l as [|k ks]; [done|]. intros [= <-] Hx.
  by apply foldl_Zmax_spec.
Qed.

Lemma py_range_S (n : Z) : 0 < n → py_range n = 0 :: (Z.succ <$> py_range (n - 1)).
Proof.
  intros Hn. unfold py_range.
  replace (Z.to_nat n) with (S (Z.to_nat (n - 1))) by lia.
  cbn [seq fmap list_fmap]. f_equal.
  rewrite <-fmap_S_seq, <-!list_fmap_compose.
  apply list_fmap_ext. intros _ i _. cbn. lia.
Qed.
End Representatives.

(** C10. With [clusters=None] and 1-based labels, [determine_clusters]
    returns [[0, 1, ..., max(cluster_labels)]]; no pathway has label 0,
    [select_rep] raises [ValueError] on cluster 0 (the [argmax] of an empty
    selection), and [export_std_files] raises it before writing the
    report. *)
Theorem default_clusters_start_at_zero (data_arr : list pathway) (weights : list Q)
    (cluster_labels : list Z) (out_dir : string) (fs : store) :
  cluster_labels ≠ [] →
  Forall (λ l, 1 ≤ l) cluster_labels →
  length data_arr = length cluster_labels →
  length weights = length cluster_labels →
  ∃ m, py_max cluster_labels = Ok m ∧
       determine_clusters cluster_labels None = Ok (0 :: (Z.succ <$> py_range m)) ∧
       select_rep data_arr weights cluster_labels 0 = Raise ValueError ∧
       export_std_files data_arr weights cluster_labels None out_dir fs
       = (Raise ValueError, fs).
Proof.
  intros Hne Hpos Hd Hw.
  destruct cluster_labels as [|l ls] eqn:Hlabels; [done|]. rewrite <-Hlabels in *.
  assert (Hmax : py_max cluster_labels = Ok (foldl Z.max l ls)) by by rewrite Hlabels.
  set (m := foldl Z.max l ls) in *.
  assert (1 ≤ m) as Hm.
  { etrans; [|eapply (py_max_ge _ _ l Hmax); rewrite Hlabels; by left].
    rewrite Hlabels in Hpos. by inversion Hpos. }
  assert (Hsel : select_rep data_arr weights cluster_labels 0 = Raise ValueError).
  { apply select_rep_empty_cluster; [done..|].
    eapply Forall_impl; [exact Hpos|]. intros; simpl in *; lia. }
  assert (Hdet : determine_clusters cluster_labels None
                 = Ok (0 :: (Z.succ <$> py_range m))).
  { unfold determine_clusters. rewrite Hmax.
    change (Ok (py_range (m + 1)) = Ok (0 :: (Z.succ <$> py_range m))).
    rewrite py_range_S by lia. by replace (m + 1 - 1) with m by lia. }
  exists m. split_and!; [done..|].
  unfold export_std_files. rewrite Hdet. cbn [export_loop]. by rewrite Hsel.
Qed.

(** The theorem on three pathways in the clusters 1 and 2. *)
Lemma default_clusters_start_at_zero_witness :
  [1; 2; 1] ≠ [] ∧
  export_std_files (rep_pathways ++ [[fr 1 2 0 1]]) (rep_weights ++ [1%Q]) [1; 2; 1]
    None "succ_traj" ∅ = (Raise ValueError, ∅).
Proof.
  assert (Hne : [1; 2; 1] ≠ @nil Z) by discriminate.
  assert (Hpos : Forall (λ l, 1 ≤ l) [1; 2; 1]) by (repeat constructor; lia).
  destruct (default_clusters_start_at_zero
              (rep_pathways ++ [[fr 1 2 0 1]]) (rep_weights ++ [1%Q]) [1; 2; 1]
              "succ_traj" ∅ Hne Hpos eq_refl eq_refl) as (m & _ & _ & _ & Hexp).
  exact (conj Hne Hexp).
Defined.

(** ** The representative *)

Section Argmax.
Local Open Scope Q_scope.

Lemma argmax_from_spec (l : list Q) (best_i : nat) (best : Q) (i : nat) :
  let r := argmax_from best_i best i l in
  (r = best_i ∧ ∀ x, x ∈ l → x <= best) ∨
  (∃ k x, r = (i + k)%nat ∧ l !! k = Some x ∧ best < x ∧ ∀ y, y ∈ l → y <= x).
Proof.
  revert best_i best i. induction l as [|x l IH]; intros best_i best i; cbn.
  { left. split; [done|]. by intros x ?%elem_of_nil. }
  destruct (Qlt_le_dec best x) as [Hlt|Hle].
  - right. destruct (IH i x (S i)) as [[-> Hmax]|(k & y & -> & Hk & Hxy & Hmax)].
    + exists 0%nat, x. split_and!; [lia|done..|].
      intros y [->|Hy]%elem_of_cons; [lra|by apply Hmax].
    + exists (S k), y. split_and!; [lia|done|lra|].
      intros z [->|Hz]%elem_of_cons; [lra|by apply Hmax].
  - destruct (IH best_i best (S i)) as [[-> Hmax]|(k & y & -> & Hk & Hxy & Hmax)].
    + left. split; [done|].
      intros y [->|Hy]%elem_of_cons; [lra|by apply Hmax].
    + right. exists (S k), y. split_and!; [lia|done..|].
      intros z [->|Hz]%elem_of_cons; [lra|by apply Hmax].
Qed.

(** [argmax] returns an index of a maximum. *)
Lemma argmax_spec (l : list Q) (i : nat) :
  argmax l = Ok i → ∃ w, l !! i = Some w ∧ ∀ y, y ∈ l → y <= w.
Proof.
  destruct l as [|x l]; [done|]. intros [= <-].
  destruct (argmax_from_spec l 0 x 1) as [[-> Hmax]|(k & y & -> & Hk & Hxy & Hmax)].
  - exists x. split; [done|].
    intros y [->|Hy]%elem_of_cons; [lra|by apply Hmax].
  - exists y. split; [done|].
    intros z [->|Hz]%elem_of_cons; [lra|by apply Hmax].
Qed.
End Argmax.

(** What [select_rep] returns: the members of the cluster, and the first
    frame of a member of maximal weight. *)
Lemma select_rep_inv (data_arr : list pathway) (weights : list Q)
    (cluster_labels : list Z) (icluster : Z) (data_cl : list pathway) (rep : frame) :
  select_rep data_arr weights cluster_labels icluster = Ok (data_cl, rep) →
  let mask := (λ l, bool_decide (l = icluster)) <$> cluster_labels in
  mask_select data_arr mask = Ok data_cl ∧
  ∃ weights_cl i w member,
    mask_select weights mask = Ok weights_cl ∧
    weights_cl !! i = Some w ∧ (∀ y, y ∈ weights_cl → (y <= w)%Q) ∧
    data_cl !! i = Some member ∧ head member = Some rep.
Proof.
  unfold select_rep. cbn zeta.
  destruct (mask_select data_arr _) as [cl|e]; [|done]. cbn.
  destruct (mask_select weights _) as [wcl|e]; [|done]. cbn.
  destruct (argmax wcl) as [i|e] eqn:Hi; [|done]. cbn.
  unfold getindex.
  destruct (cl !! i) as [member|] eqn:Hmem; [|done]. cbn.
  destruct (member !! 0%nat) as [f|] eqn:Hf; [|done]. cbn.
  intros [= <- <-]. split; [done|].
  destruct (argmax_spec _ _ Hi) as (w & Hw & Hmax).
  exists wcl, i, w, member. split_and!; try done.
  by destruct member.
Qed.

(** C1. Two pathways of cluster 1 with weights 0.7 and 0.3: [select_rep]
    returns the two members, and as [rep_weight] the first frame record of
    the heavier member, whose weight column is 0.1, where the maximum of
    the weights is 0.7; the plain export writes that record. *)
Theorem select_rep_returns_first_frame :
  mapM (pathway_weight true dictAB) rep_pathways = Ok rep_weights ∧
  max_weight rep_weights = Some (7 # 10)%Q ∧
  select_rep rep_pathways rep_weights [1; 1] 1
  = Ok (rep_pathways, fr 1 0 0 (1 # 10)) ∧
  ¬ (weight (fr 1 0 0 (1 # 10)) == 7 # 10)%Q ∧
  export_std_files rep_pathways rep_weights [1; 1] (Some [1]) "succ_traj" ∅
  = (Ok (), {[ "succ_traj/representative_segments.txt"%string
               := TextFile [fr 1 0 0 (1 # 10)] ]}).
Proof.
  split_and!; try (vm_compute; reflexivity).
  vm_compute. discriminate.
Qed.

(** ** The cache of the distance matrix *)

Section Cache.
Implicit Types pathways : list pathway.
Implicit Types d : gmap Z pystr.
Implicit Types fs : store.

(** The matrix is looked for at [out_dir/file_name] and loaded from
    [file_name]. *)
Lemma gen_dist_matrix_cached pathways d file_name out_dir metric fs weights :
  mapM (pathway_weight metric d) pathways = Ok weights →
  exists_ (rsplit1_head out_dir +:+ "/" +:+ file_name) fs = true →
  gen_dist_matrix pathways d file_name out_dir false metric fs
  = (distmat ← numpy_load file_name fs; Ok (distmat, weights), fs).
Proof.
  intros Hw Hex. unfold gen_dist_matrix. cbn zeta. rewrite Hw, Hex. cbn.
  by destruct (numpy_load file_name fs).
Qed.

(** A recomputed matrix is saved under [file_name]. *)
Lemma gen_dist_matrix_saved pathways d file_name out_dir remake metric fs
    distmat weights fs' :
  negb (exists_ (rsplit1_head out_dir +:+ "/" +:+ file_name) fs) || remake = true →
  gen_dist_matrix pathways d file_name out_dir remake metric fs
  = (Ok (distmat, weights), fs') →
  fs' = <[npy_name file_name := NpyFile distmat]> fs.
Proof.
  intros Hre. unfold gen_dist_matrix. cbn zeta.
  destruct (mapM _ pathways) as [ws|e]; [|done]. rewrite Hre.
  destruct metric.
  - destruct (sklearn.pairwise_distances _ _) as [m|e]; [|done].
    by intros [= <- <- <-].
  - destruct (sklearn.pairwise_distances _ _) as [m|e]; [|done].
    by intros [= <- <- <-].
Qed.
End Cache.

(** C4. With the default names, a matrix stored at [succ_traj/distmat.npy]
    passes the existence test but is not the file read: [numpy.load] opens
    [distmat.npy] and fails when only the cache path holds a matrix, and
    returns another matrix when one is stored there.  A recomputed matrix is
    written to [distmat.npy], and the cache path stays empty. *)
Theorem gen_dist_matrix_cache_path_mismatch :
  exists_ "succ_traj/distmat.npy" cache_store = true ∧
  gen_dist_matrix rep_pathways dictAB "distmat.npy" "succ_traj" false true cache_store
  = (Raise FileNotFoundError, cache_store) ∧
  (∀ other : matrix,
     gen_dist_matrix rep_pathways dictAB "distmat.npy" "succ_traj" false true
       (<["distmat.npy"%string := NpyFile other]> cache_store)
     = (Ok (other, rep_weights), <["distmat.npy"%string := NpyFile other]> cache_store)) ∧
  ∃ distmat,
    gen_dist_matrix rep_pathways dictAB "distmat.npy" "succ_traj" true true ∅
    = (Ok (distmat, rep_weights), {[ "distmat.npy"%string := NpyFile distmat ]}) ∧
    exists_ "succ_traj/distmat.npy" {[ "distmat.npy"%string := NpyFile distmat ]} = false.
Proof.
  assert (Hw : mapM (pathway_weight true dictAB) rep_pathways = Ok rep_weights)
    by (vm_compute; reflexivity).
  split_and!.
  - vm_compute. reflexivity.
  - rewrite (gen_dist_matrix_cached _ _ _ _ _ _ _ Hw) by (vm_compute; reflexivity).
    reflexivity.
  - intros other.
    rewrite (gen_dist_matrix_cached _ _ _ _ _ _ _ Hw).
    + unfold numpy_load. by rewrite lookup_insert_eq.
    + unfold exists_. apply bool_decide_eq_true.
      rewrite lookup_insert_ne by done. by eexists.
  - eexists. split; vm_compute; reflexivity.
Qed.

(** ** The weights of [gen_dist_matrix] *)

Section Weights.
Implicit Types d : gmap Z pystr.

Lemma last_filter_Some {A} (P : A → Prop) `{!∀ x, Decision (P x)} (l : list A) x :
  last (filter P l) = Some x →
  ∃ pre post, l = pre ++ x :: post ∧ P x ∧ Forall (λ y, ¬ P y) post.
Proof.
  induction l as [|y l IH] using rev_ind; [done|].
  rewrite filter_app, filter_cons, filter_nil.
  destruct (decide (P y)) as [Hy|Hy].
  - rewrite last_snoc. intros [= <-]. by exists l, [].
  - rewrite app_nil_r. intros (pre & post & -> & Hx & Hpost)%IH.
    exists pre, (post ++ [y]). rewrite <-app_assoc. split_and!; [done..|].
    apply Forall_app. split; [done|]. by constructor.
Qed.

Lemma last_filter_is_Some {A} (P : A → Prop) `{!∀ x, Decision (P x)} (l : list A) :
  Exists P l → is_Some (last (filter P l)).
Proof.
  intros (x & Hin & Hx)%Exists_exists. apply last_is_Some.
  intros Hnil. assert (x ∈ filter P l) as Hf by by apply list_elem_of_filter.
  rewrite Hnil in Hf. by apply elem_of_nil in Hf.
Qed.

Lemma pathway_weight_spec metric d (pathway : pathway) :
  has_weight_frame metric d pathway →
  ∃ w, pathway_weight metric d pathway = Ok w ∧ is_pathway_weight metric d pathway w.
Proof.
  unfold has_weight_frame, pathway_weight, is_pathway_weight, last_weight.
  destruct metric; intros Hhas.
  - destruct (last_filter_is_Some _ _ Hhas) as [step Hstep]. rewrite Hstep.
    exists (weight step). split; [done|].
    apply last_filter_Some in Hstep as (pre & post & -> & Hlt & Hpost).
    by exists pre, step, post.
  - destruct (last pathway) as [step|] eqn:Hstep.
    + exists (weight step). split; [done|].
      apply last_Some in Hstep as [pre ->]. by exists pre, step.
    + by apply last_None in Hstep.
Qed.

(** Without such a frame the index [-1] is out of range. *)
Lemma pathway_weight_IndexError metric d (pathway : pathway) :
  ¬ has_weight_frame metric d pathway →
  pathway_weight metric d pathway = Raise IndexError.
Proof.
  unfold has_weight_frame, pathway_weight, last_weight.
  destruct metric; intros Hnone.
  - destruct (last (filter _ pathway)) as [step|] eqn:Hstep; [|done].
    destruct Hnone. apply last_filter_Some in Hstep as (pre & post & -> & Hlt & _).
    apply Exists_app. right. by left.
  - destruct pathway; [done|]. by destruct Hnone.
Qed.

Lemma pathway_weights_spec metric d (pathways : list pathway) :
  Forall (has_weight_frame metric d) pathways →
  ∃ weights, mapM (pathway_weight metric d) pathways = Ok weights ∧
             Forall2 (is_pathway_weight metric d) pathways weights.
Proof.
  induction 1 as [|p ps Hp _ (ws & Hws & Hall)]; [by exists []|].
  destruct (pathway_weight_spec _ _ _ Hp) as (w & Hw & Hspec).
  exists (w :: ws). rewrite mapM_result_cons, Hw. cbn. rewrite Hws.
  split; [done|]. by constructor.
Qed.
End Weights.




(** ** Reassignment with segment ids *)

Section Segid.
Implicit Types pathways : list pathway.
Implicit Types traj flipped : pathway.
Implicit Types d : gmap Z pystr.

Lemma segid_inner_spec flipped pathways idx idx2 traj :
  pathways !! idx = Some traj →
  (idx2 + length flipped ≤ length traj)%nat →
  segid_inner pathways idx idx2 flipped
  = Ok (<[idx := take idx2 traj ++ (segid_frame <$> flipped)
                 ++ drop (idx2 + length flipped) traj]> pathways).
Proof.
  revert pathways idx2 traj.
  induction flipped as [|val2 flipped IH]; intros pathways idx2 traj Hidx Hlen.
  - cbn. rewrite Nat.add_0_r, take_drop. by rewrite list_insert_id.
  - cbn [segid_inner length] in *.
    unfold setitem2. rewrite Hidx, decide_True by lia. cbn.
    unfold setitem_state.
    rewrite list_lookup_insert_eq by by eapply lookup_lt_Some.
    rewrite list_lookup_insert_eq by lia. cbn.
    rewrite !list_insert_insert_eq.
    change (set_state_id val2 (segment_id val2)) with (segid_frame val2).
    rewrite (IH _ (S idx2) (<[idx2 := segid_frame val2]> traj)).
    + rewrite list_insert_insert_eq. do 2 f_equal.
      rewrite (take_S_r _ _ (segid_frame val2))
        by (apply list_lookup_insert_eq; lia).
      rewrite take_insert_ge by done.
      rewrite drop_insert_lt by lia.
      rewrite <-app_assoc. cbn. by rewrite Nat.add_succ_r.
    + apply list_lookup_insert_eq. by eapply lookup_lt_Some.
    + rewrite length_insert. lia.
Qed.

Lemma segid_outer_spec data front rows :
  Forall2 (λ val traj, (length val ≤ length traj)%nat) data rows →
  segid_outer (front ++ rows) (length front) data
  = Ok (front ++ zip_with segid_row data rows).
Proof.
  intros Hfit. revert front.
  induction Hfit as [|val traj data rows Hlen _ IH]; intros front.
  { reflexivity. }
  cbn [segid_outer zip_with].
  rewrite (segid_inner_spec _ _ _ _ traj).
  - cbn. rewrite length_reverse, take_0.
    replace (length front) with (length front + 0)%nat at 1 by lia.
    rewrite insert_app_r. cbn [insert list_insert app].
    rewrite (cons_middle _ front rows), app_assoc.
    replace (S (length front)) with (length (front ++ [segid_row val traj]))
      by (rewrite length_app; simpl; lia).
    rewrite IH. by rewrite <-app_assoc.
  - by apply list_lookup_middle.
  - rewrite length_reverse. lia.
Qed.

Lemma segid_letters_spec d (idxs : list Z) :
  Forall (λ idx, 0 ≤ idx + 65 < 1114112) idxs →
  segid_letters d idxs
  = Ok (foldl (λ d idx, <[idx := [Z.to_N (idx + 65)]]> d) d idxs).
Proof.
  intros Hok. revert d. induction Hok as [|idx idxs Hidx _ IH]; intros d; [done|].
  cbn [segid_letters foldl]. unfold chr. rewrite decide_True by done.
  cbn. apply IH.
Qed.

Lemma lookup_letters d (idxs : list Z) k :
  foldl (λ d idx, <[idx := [Z.to_N (idx + 65)]]> d) d idxs !! k
  = if decide (k ∈ idxs) then Some [Z.to_N (k + 65)] else d !! k.
Proof.
  revert d. induction idxs as [|idx idxs IH]; intros d.
  - cbn. by rewrite decide_False by apply not_elem_of_nil.
  - cbn [foldl]. rewrite IH.
    destruct (decide (k ∈ idxs)) as [Hin|Hnin].
    + by rewrite decide_True by by right.
    + destruct (decide (k = idx)) as [->|Hne].
      * rewrite decide_True by by left. by rewrite lookup_insert_eq.
      * rewrite decide_False by (intros [?|?]%elem_of_cons; done).
        by rewrite lookup_insert_ne.
Qed.

Lemma NoDup_py_range n : NoDup (py_range n).
Proof. unfold py_range. apply NoDup_fmap_2; [apply _ | apply NoDup_seq]. Qed.

Lemma length_py_range n : 0 ≤ n → Z.of_nat (length (py_range n)) = n.
Proof. intros Hn. unfold py_range. rewrite length_fmap, length_seq. lia. Qed.

(** The dictionary built by [reassign_segid] from the empty one. *)
Lemma segid_dictionary (n_states : Z) :
  0 ≤ n_states →
  let dictionary :=
    <[n_states := str "!"]>
      (foldl (λ d idx, <[idx := [Z.to_N (idx + 65)]]> d) (∅ : gmap Z pystr)
         (py_range n_states)) in
  (∀ k, 0 ≤ k < n_states → dictionary !! k = Some [Z.to_N (k + 65)]) ∧
  dictionary !! n_states = Some (str "!") ∧
  indexed_from_zero dictionary ∧
  len_dict dictionary - 1 = n_states.
Proof.
  intros Hn dictionary.
  assert (Hlook : ∀ k, dictionary !! k =
            if decide (k = n_states) then Some (str "!")
            else if decide (0 ≤ k < n_states) then Some [Z.to_N (k + 65)] else None).
  { intros k. unfold dictionary. rewrite lookup_insert.
    destruct (decide (n_states = k)) as [->|Hne].
    - by rewrite decide_True.
    - rewrite decide_False by done. rewrite lookup_letters.
      destruct (decide (k ∈ py_range n_states)) as [Hin|Hnin].
      + rewrite decide_True; [done|]. by apply elem_of_py_range.
      + rewrite decide_False; [done|]. by rewrite <-elem_of_py_range. }
  assert (Hdom : dom dictionary = list_to_set (py_range (n_states + 1))).
  { apply set_eq. intros k.
    rewrite elem_of_dom, elem_of_list_to_set, elem_of_py_range, Hlook.
    destruct (decide (k = n_states)) as [->|Hne].
    - split; [lia | by eexists].
    - destruct (decide (0 ≤ k < n_states)) as [Hk|Hk].
      + split; [lia | by eexists].
      + split; [by intros [? ?] | lia]. }
  assert (Hsize : len_dict dictionary = n_states + 1).
  { unfold len_dict. rewrite <-size_dom, Hdom.
    rewrite size_list_to_set by apply NoDup_py_range.
    apply length_py_range. lia. }
  split_and!.
  - intros k Hk. rewrite Hlook.
    rewrite decide_False by lia. by rewrite decide_True.
  - rewrite Hlook. by rewrite decide_True.
  - unfold indexed_from_zero. by rewrite Hsize.
  - lia.
Qed.
End Segid.

Section SegidResult.
Implicit Types data pathways : list pathway.

Lemma elem_of_concat {A} (x : A) (ls : list (list A)) :
  x ∈ concat ls ↔ ∃ l, l ∈ ls ∧ x ∈ l.
Proof.
  induction ls as [|l ls IH]; cbn.
  - split; [by intros ?%elem_of_nil | by intros (l & ?%elem_of_nil & _)].
  - rewrite elem_of_app, IH. split.
    + intros [Hx|(l' & Hl' & Hx)]; [exists l; split; [by left|done]|].
      exists l'. split; [by right|done].
    + intros (l' & [->|Hl']%elem_of_cons & Hx); [by left|]. right. by exists l'.
Qed.

Lemma load_data_inv data data' pathways0 :
  load_data data = Ok (data', pathways0) →
  data' = data ∧
  (∃ f p rest, data = (f :: p) :: rest) ∧
  pathways0 = replicate (length data)
                (replicate (max_list (length <$> data))
                   (zero_frame (length (auxdata (default (zero_frame 0)
                                                   (head data ≫= head)))))).
Proof.
  unfold load_data. case_decide; [done|].
  destruct data as [|[|f p] rest]; try done.
  intros [= <- <-]. split_and!; [done|by exists f, p, rest|done].
Qed.

Lemma rows_fit data (L : nat) (z : frame) :
  Forall (λ val : pathway, (length val ≤ L)%nat) data →
  Forall2 (λ val traj : pathway, (length val ≤ length traj)%nat) data
    (replicate (length data) (replicate L z)).
Proof.
  induction 1 as [|val data Hval _ IH]; [constructor|].
  cbn. constructor; [by rewrite length_replicate | done].
Qed.

Lemma segid_row_frames val (L : nat) naux step :
  step ∈ segid_row val (replicate L (zero_frame naux)) →
  step = zero_frame naux ∨ ∃ val2, val2 ∈ val ∧ step = segid_frame val2.
Proof.
  unfold segid_row. intros [Hin|Hin]%elem_of_app.
  - apply list_elem_of_fmap in Hin as (val2 & -> & Hin).
    rewrite elem_of_reverse in Hin. right. exists val2. by split.
  - left. apply subseteq_drop in Hin. by eapply elem_of_replicate_inv.
Qed.
End SegidResult.

(** C8 as stated fails: the segment ids are not remapped to a dense range
    [0 .. M-1].  On a pathway through segments 3 and 7 the states become 3
    and 7, and [M] is 2. *)
Lemma segid_states_not_dense :
  ¬ (∀ pathways0 pathways dictionary,
       load_data segid_data = Ok (segid_data, pathways0) →
       reassign_segid segid_data pathways0 ∅ = Ok (pathways, dictionary) →
       Forall (λ step, 0 ≤ state_id step
                       < Z.of_nat (size (distinct_segment_ids segid_data)))
         (concat pathways)).
Proof.
  intros Hspec.
  assert (∃ pathways0 pathways dictionary,
            load_data segid_data = Ok (segid_data, pathways0) ∧
            reassign_segid segid_data pathways0 ∅ = Ok (pathways, dictionary) ∧
            head (concat pathways) = Some (fr 1 3 3 (1 # 4)))
    as (pathways0 & pathways & dictionary & Hload & Hrun & Hhead).
  { eexists _, _, _.
    split; [vm_compute; reflexivity|].
    split; [vm_compute; reflexivity|].
    vm_compute. reflexivity. }
  specialize (Hspec _ _ _ Hload Hrun).
  destruct (concat pathways) as [|step rest]; [done|].
  injection Hhead as ->. inversion Hspec as [|? ? Hstep _]; subst.
  vm_compute in Hstep. destruct Hstep as [_ Hlt]. discriminate Hlt.
Qed.

(** C8 (amended). For a data set loaded by [load_data] with segment ids in
    [0 .. 1114046], [reassign_segid] succeeds; it writes each pathway,
    flipped, at the front of its row with the [state_id] of each frame
    overwritten by its [segment_id], unchanged: nothing is remapped.  The
    dictionary maps every index [0 .. max state] to the character
    [chr(65 + index)], distinct indices to distinct characters, and holds
    the unknown entry "!" at the next index, the highest one. *)
Theorem reassign_segid_spec (data pathways0 : list pathway) :
  load_data data = Ok (data, pathways0) →
  Forall (λ step, 0 ≤ segment_id step < 1114047) (concat data) →
  ∃ pathways dictionary n_states,
    reassign_segid data pathways0 ∅ = Ok (pathways, dictionary) ∧
    pathways = zip_with segid_row data pathways0 ∧
    (∀ step, step ∈ concat pathways → state_id step = segment_id step) ∧
    py_max (state_id <$> concat pathways) = Ok (n_states - 1) ∧
    (∀ k, 0 ≤ k < n_states → dictionary !! k = Some [Z.to_N (k + 65)]) ∧
    (∀ k1 k2, 0 ≤ k1 < n_states → 0 ≤ k2 < n_states →
              dictionary !! k1 = dictionary !! k2 → k1 = k2) ∧
    dictionary !! n_states = Some (str "!") ∧
    indexed_from_zero dictionary ∧
    len_dict dictionary - 1 = n_states.
Proof.
  intros Hload Hseg.
  apply load_data_inv in Hload as (_ & (f & p & rest & Hdata) & Hp0).
  set (naux := length (auxdata (default (zero_frame 0) (head data ≫= head)))) in *.
  set (L := max_list (length <$> data)) in *.
  set (pathways := zip_with segid_row data pathways0).
  assert (Houter : segid_outer pathways0 0 data = Ok pathways).
  { unfold pathways. rewrite Hp0. apply (segid_outer_spec data []).
    apply rows_fit, Forall_forall. intros val Hval.
    apply max_list_elem_of_le. by apply list_elem_of_fmap_2. }
  assert (Hframes : ∀ step, step ∈ concat pathways →
            state_id step = segment_id step ∧ 0 ≤ segment_id step < 1114047).
  { intros step (row & Hrow & Hstep)%elem_of_concat.
    apply elem_of_zip_with in Hrow as (val & traj & -> & Hval & Htraj).
    rewrite Hp0 in Htraj. apply elem_of_replicate_inv in Htraj as ->.
    apply segid_row_frames in Hstep as [->|(val2 & Hval2 & ->)].
    - cbn. lia.
    - split; [done|]. cbn. rewrite Forall_forall in Hseg.
      apply Hseg, elem_of_concat. by exists val. }
  assert (∃ m, py_max (state_id <$> concat pathways) = Ok m ∧ 0 ≤ m < 1114047)
    as (m & Hmax & Hm).
  { assert (∃ step0, step0 ∈ concat pathways) as [step0 Hin0].
    { exists (segid_frame f).
      apply elem_of_concat. exists (segid_row (f :: p) (replicate L (zero_frame naux))).
      split.
      - unfold pathways. rewrite Hp0, Hdata. cbn. by left.
      - unfold segid_row. apply elem_of_app. left.
        apply list_elem_of_fmap_2. rewrite elem_of_reverse. by left. }
    destruct (state_id <$> concat pathways) as [|k ks] eqn:Hstates.
    { apply (list_elem_of_fmap_2 state_id) in Hin0. rewrite Hstates in Hin0.
      by apply elem_of_nil in Hin0. }
    exists (foldl Z.max k ks). split; [done|].
    destruct (foldl_Zmax_spec k ks) as [Hin _]. rewrite <-Hstates in Hin.
    apply list_elem_of_fmap in Hin as (step & -> & Hstep).
    destruct (Hframes step Hstep) as [-> ?]. done. }
  set (n_states := m + 1).
  assert (Hletters : segid_letters ∅ (py_range n_states)
            = Ok (foldl (λ d idx, <[idx := [Z.to_N (idx + 65)]]> d) ∅ (py_range n_states))).
  { apply segid_letters_spec, Forall_forall.
    intros idx Hidx%elem_of_py_range. unfold n_states in Hidx. lia. }
  destruct (segid_dictionary n_states ltac:(unfold n_states; lia))
    as (Hlook & Hunknown & Hindexed & Hlen).
  eexists pathways, _, n_states. split_and!.
  - unfold reassign_segid. rewrite Houter. cbn. rewrite Hmax. cbn.
    fold n_states. rewrite Hletters. reflexivity.
  - done.
  - intros step Hstep. by apply Hframes.
  - rewrite Hmax. f_equal. unfold n_states. lia.
  - exact Hlook.
  - intros k1 k2 Hk1 Hk2. rewrite !Hlook by done. intros [= Heq]. lia.
  - exact Hunknown.
  - exact Hindexed.
  - exact Hlen.
Qed.

(** The theorem on the pathway through segments 3 and 7. *)
Lemma reassign_segid_spec_witness :
  Forall (λ step, 0 ≤ segment_id step < 1114047) (concat segid_data) ∧
  ∃ pathways dictionary,
    reassign_segid segid_data [[zero_frame 1; zero_frame 1]] ∅
    = Ok (pathways, dictionary) ∧
    pathways = zip_with segid_row segid_data [[zero_frame 1; zero_frame 1]] ∧
    dictionary !! 8 = Some (str "!").
Proof.
  assert (Hseg : Forall (λ step, 0 ≤ segment_id step < 1114047) (concat segid_data))
    by (repeat constructor; cbn; lia).
  split; [exact Hseg|].
  destruct (reassign_segid_spec segid_data [[zero_frame 1; zero_frame 1]] eq_refl Hseg)
    as (pathways & dictionary & n_states & Hrun & Hrows & _ & Hmax & _ & _ & Hunk & _).
  exists pathways, dictionary. split_and!; [done..|].
  assert (Hseven : py_max (state_id <$> concat
            (zip_with segid_row segid_data [[zero_frame 1; zero_frame 1]])) = Ok 7)
    by (vm_compute; reflexivity).
  rewrite Hrows, Hseven in Hmax. injection Hmax as Hn.
  replace 8 with n_states by lia. exact Hunk.
Defined.

(** ** The whole distance step *)

(** A matrix recomputed from a 2-D array of states comes back with the
    weights and is saved; it is square and symmetric with a zero diagonal. *)
Lemma gen_dist_matrix_recomputed (pathways : list pathway) (d : gmap Z pystr)
    (file_name out_dir : string) (metric : bool) (fs : store) :
  Forall (has_weight_frame metric d) pathways →
  Forall (comparable metric d) ((λ pathway : pathway, state_id <$> pathway) <$> pathways) →
  rectangular ((λ pathway : pathway, state_id <$> pathway) <$> pathways) →
  ∃ distmat weights,
    gen_dist_matrix pathways d file_name out_dir true metric fs
    = (Ok (distmat, weights), numpy_save file_name distmat fs) ∧
    Forall2 (is_pathway_weight metric d) pathways weights ∧
    square (length pathways) distmat ∧ symmetric distmat ∧
    zero_diagonal (length pathways) distmat.
Proof.
  intros Hhas Hcmp Hrect.
  destruct (pathway_weights_spec _ _ _ Hhas) as (weights & Hws & Hall).
  destruct (distance_matrix metric d _ Hcmp Hrect)
    as (m & Hm & Hsq & Hsym & Hdiag & _).
  rewrite length_fmap in Hsq, Hdiag.
  exists m, weights. split_and!; try done.
  unfold gen_dist_matrix. cbn zeta. rewrite Hws, orb_true_r.
  unfold distance in Hm. destruct metric; by rewrite Hm.
Qed.

(** ** Examples *)

Example lcs_sequence_length_example :
  pylcs.lcs_sequence_length (str "ABCBDAB") (str "BDCABA") = Ok 4%nat.
Proof. reflexivity. Qed.

Example lcs_string_length_example :
  pylcs.lcs_string_length (str "ABCBDAB") (str "BDCABA") = Ok 2%nat.
Proof. reflexivity. Qed.

(** A string with the lone surrogate U+D800 is refused. *)
Example lcs_sequence_length_surrogate :
  pylcs.lcs_sequence_length [55296%N] (str "A") = Raise TypeError.
Proof. reflexivity. Qed.

(** The pathways "ABAB", "ABAB" and "CDCD": distances 0, 1 and 1 (the
    fractions are not reduced). *)
Example three_pathways_distances :
  sklearn.pairwise_distances (λ x y, calc_dist x y dictABCD)
    [[0; 1; 0; 1]; [0; 1; 0; 1]; [2; 3; 2; 3]]
  = Ok [ [ 0 # 8;  0 # 8;  8 # 8 ];
         [ 0 # 8;  0 # 8;  8 # 8 ];
         [ 8 # 8;  8 # 8;  0 # 8 ] ]%Q.
Proof. vm_compute. reflexivity. Qed.

(** Padding marks the filler frame with the unknown index 2. *)
Example padded_pathways_states :
  (λ pathway : pathway, state_id <$> pathway) <$> padded_pathways = [[0; 2]; [0; 1]].
Proof. vm_compute. reflexivity. Qed.

(** Rows of different lengths, or no row at all, are refused before the
    metric is called. *)
Example pairwise_distances_ragged :
  sklearn.pairwise_distances (λ x y, calc_dist x y dictAB) [[0; 0; 0; 1]; [1; 1; 2]]
  = Raise ValueError.
Proof. reflexivity. Qed.

Example gen_dist_matrix_no_pathway :
  gen_dist_matrix [] dictAB "distmat.npy" "succ_traj" true true ∅
  = (Raise ValueError, ∅).
Proof. reflexivity. Qed.

(** Segment 55231 gets the symbol [chr(55296)], a lone surrogate. *)
Example calc_dist_substr_surrogate :
  chr (55231 + 65) = Ok [55296%N] ∧
  calc_dist_substr [55231] [55231] (<[55231 := [55296%N]]> (<[55232 := str "!"]> ∅))
  = Raise TypeError.
Proof. split; reflexivity. Qed.

(** An empty member of the cluster stops the export after its
    representative was chosen. *)
Example export_std_files_empty_member :
  export_std_files [[fr 1 0 0 (1 # 2)]; []] [(1 # 2)%Q; 0%Q] [0; 0] (Some [0])
    "succ_traj" ∅
  = (Raise IndexError, ∅).
Proof. reflexivity. Qed.

(** * Further properties *)

(** ** Outcomes of the two metrics *)

Section Outcomes.
Implicit Types d : gmap Z pystr.
Implicit Types seq : list Z.
Implicit Types s : pystr.

(** The join fails on the first missing key, and only then. *)
Lemma join_states_cases d seq :
  match join_states d seq with
  | Ok s => Forall (λ x, is_Some (d !! x)) seq
  | Raise e => e = KeyError ∧ Exists (λ x, d !! x = None) seq
  end.
Proof.
  induction seq as [|x seq IH]; cbn [join_states]; [constructor|].
  unfold getitem. destruct (d !! x) as [sx|] eqn:Hx; cbn.
  - destruct (join_states d seq) as [rest|e]; cbn.
    + constructor; [by eexists|done].
    + destruct IH as [-> IH]. split; [done|]. by right.
  - split; [done|]. by left.
Qed.

Lemma join_states_app d (seq1 seq2 : list Z) :
  join_states d (seq1 ++ seq2)
  = (s1 ← join_states d seq1; s2 ← join_states d seq2; Ok (s1 ++ s2)).
Proof.
  induction seq1 as [|x seq1 IH]; cbn [app join_states].
  { cbn. by destruct (join_states d seq2). }
  destruct (getitem d x) as [sx|e]; [|done]. cbn. rewrite IH.
  destruct (join_states d seq1) as [s1|e]; [|done]. cbn.
  destruct (join_states d seq2) as [s2|e]; [|done]. cbn. by rewrite app_assoc.
Qed.

(** The division fails on two empty strings, and only then. *)
Lemma similarity_distance_cases (km n : nat) :
  (2 * km ≤ n)%nat →
  match similarity_distance km n with
  | Ok q => n ≠ 0%nat ∧ (0 <= q)%Q ∧ (q <= 1)%Q
  | Raise e => e = ZeroDivisionError ∧ n = 0%nat
  end.
Proof.
  intros Hk. destruct (decide (n = 0%nat)) as [->|Hn].
  - rewrite similarity_distance_zero. done.
  - rewrite similarity_distance_Ok by done. split; [done|].
    apply distance_range; lia.
Qed.

Lemma length_app_0 s1 s2 : (length s1 + length s2)%nat = 0%nat ↔ s1 = [] ∧ s2 = [].
Proof.
  destruct s1, s2; cbn; split; (done || lia || by intros [? ?]).
Qed.
End Outcomes.

(** X1. What [calc_dist] does on any input.  It returns a distance between
    0 and 1, or raises [KeyError], [TypeError] or [ZeroDivisionError], and
    nothing else: [KeyError] exactly when an entry below the unknown index
    [len(dictionary) - 1] of one of the sequences is not a key of the
    dictionary (entries at or above that index are stripped before the
    lookup); [TypeError] exactly when both comparison strings are built
    and one of them holds a surrogate code point, which [pylcs] cannot
    take; [ZeroDivisionError] exactly when both comparison strings are
    empty. *)
Theorem calc_dist_outcomes (seq1 seq2 : list Z) (d : gmap Z pystr) :
  match calc_dist seq1 seq2 d with
  | Ok q =>
      (0 <= q)%Q ∧ (q <= 1)%Q ∧
      Forall (λ x, x < len_dict d - 1 → is_Some (d !! x)) (seq1 ++ seq2) ∧
      ∃ s1 s2, comparison_string d seq1 = Ok s1 ∧ comparison_string d seq2 = Ok s2 ∧
               pylcs.utf8_encodable s1 = true ∧ pylcs.utf8_encodable s2 = true ∧
               ¬ (s1 = [] ∧ s2 = [])
  | Raise e =>
      (e = KeyError ∧
       Exists (λ x, x < len_dict d - 1 ∧ d !! x = None) (seq1 ++ seq2)) ∨
      (e = TypeError ∧
       ∃ s1 s2, comparison_string d seq1 = Ok s1 ∧ comparison_string d seq2 = Ok s2 ∧
                pylcs.utf8_encodable s1 && pylcs.utf8_encodable s2 = false) ∨
      (e = ZeroDivisionError ∧
       comparison_string d seq1 = Ok [] ∧ comparison_string d seq2 = Ok [])
  end.
Proof.
  rewrite calc_dist_unfold. unfold comparison_string.
  pose proof (join_states_cases d (filter (λ x, x < len_dict d - 1) seq1)) as H1.
  pose proof (join_states_cases d (filter (λ x, x < len_dict d - 1) seq2)) as H2.
  assert (Hall : ∀ seq, Forall (λ x, is_Some (d !! x)) (filter (λ x, x < len_dict d - 1) seq)
                 → Forall (λ x, x < len_dict d - 1 → is_Some (d !! x)) seq).
  { intros seq. rewrite !Forall_forall. intros H x Hx Hlt.
    apply H. by apply list_elem_of_filter. }
  assert (Hex : ∀ seq, Exists (λ x, d !! x = None) (filter (λ x, x < len_dict d - 1) seq)
                → Exists (λ x, x < len_dict d - 1 ∧ d !! x = None) seq).
  { intros seq. rewrite !Exists_exists.
    intros (x & [Hlt Hx]%list_elem_of_filter & Hnone). by exists x. }
  destruct (join_states d (filter _ seq1)) as [s1|e1]; cbn [mbind result_bind].
  - destruct (join_states d (filter _ seq2)) as [s2|e2]; cbn [mbind result_bind].
    + destruct (pylcs_length_cases true s1 s2) as [(E1 & E2 & Hk)|[E Hk]];
        cbn [pylcs_length common_length] in Hk; rewrite Hk; cbn [mbind result_bind].
      2:{ right; left. split; [done|]. by exists s1, s2. }
      pose proof (similarity_distance_cases (pylcs.lcs_length_ s1 s2)
                    (length s1 + length s2)) as Hsim.
      destruct (similarity_distance _ _) as [q|e].
      * destruct Hsim as (Hn & Hlo & Hhi).
        { pose proof (lcs_length_le_l s1 s2).
          pose proof (lcs_length_le_r s1 s2). lia. }
        split_and!; [done..| |].
        -- apply Forall_app. split; by apply Hall.
        -- exists s1, s2. split_and!; [done..|]. intros [-> ->]. done.
      * destruct Hsim as [-> Hn].
        { pose proof (lcs_length_le_l s1 s2).
          pose proof (lcs_length_le_r s1 s2). lia. }
        do 2 right. apply length_app_0 in Hn as [-> ->]. done.
    + destruct H2 as [-> H2]. left. split; [done|].
      apply Exists_app. right. by apply Hex.
  - destruct H1 as [-> H1]. left. split; [done|].
    apply Exists_app. left. by apply Hex.
Qed.

(** X2. What [calc_dist_substr] does on any input.  Nothing is stripped:
    it raises [KeyError] exactly when some entry of one of the sequences,
    the unknown index included, is not a key of the dictionary;
    [TypeError] exactly when both strings are built and one of them holds
    a surrogate code point; [ZeroDivisionError] exactly when both strings
    are empty; and it returns a distance between 0 and 1 otherwise. *)
Theorem calc_dist_substr_outcomes (seq1 seq2 : list Z) (d : gmap Z pystr) :
  match calc_dist_substr seq1 seq2 d with
  | Ok q =>
      (0 <= q)%Q ∧ (q <= 1)%Q ∧
      Forall (λ x, is_Some (d !! x)) (seq1 ++ seq2) ∧
      ∃ s1 s2, join_states d seq1 = Ok s1 ∧ join_states d seq2 = Ok s2 ∧
               pylcs.utf8_encodable s1 = true ∧ pylcs.utf8_encodable s2 = true ∧
               ¬ (s1 = [] ∧ s2 = [])
  | Raise e =>
      (e = KeyError ∧ Exists (λ x, d !! x = None) (seq1 ++ seq2)) ∨
      (e = TypeError ∧
       ∃ s1 s2, join_states d seq1 = Ok s1 ∧ join_states d seq2 = Ok s2 ∧
                pylcs.utf8_encodable s1 && pylcs.utf8_encodable s2 = false) ∨
      (e = ZeroDivisionError ∧ join_states d seq1 = Ok [] ∧ join_states d seq2 = Ok [])
  end.
Proof.
  rewrite calc_dist_substr_unfold.
  pose proof (join_states_cases d seq1) as H1.
  pose proof (join_states_cases d seq2) as H2.
  destruct (join_states d seq1) as [s1|e1]; cbn [mbind result_bind].
  - destruct (join_states d seq2) as [s2|e2]; cbn [mbind result_bind].
    + destruct (pylcs_length_cases false s1 s2) as [(E1 & E2 & Hk)|[E Hk]];
        cbn [pylcs_length common_length] in Hk; rewrite Hk; cbn [mbind result_bind].
      2:{ right; left. split; [done|]. by exists s1, s2. }
      pose proof (similarity_distance_cases (pylcs.lcs2_length_ s1 s2)
                    (length s1 + length s2)) as Hsim.
      destruct (similarity_distance _ _) as [q|e].
      * destruct Hsim as (Hn & Hlo & Hhi).
        { pose proof (lcs2_length_le_l s1 s2).
          pose proof (lcs2_length_le_r s1 s2). lia. }
        split_and!; [done..| |].
        -- apply Forall_app. by split.
        -- exists s1, s2. split_and!; [done..|]. intros [-> ->]. done.
      * destruct Hsim as [-> Hn].
        { pose proof (lcs2_length_le_l s1 s2).
          pose proof (lcs2_length_le_r s1 s2). lia. }
        do 2 right. apply length_app_0 in Hn as [-> ->]. done.
    + destruct H2 as [-> H2]. left. split; [done|].
      apply Exists_app. by right.
  - destruct H1 as [-> H1]. left. split; [done|].
    apply Exists_app. by left.
Qed.

(** ** Distance zero *)

Section ZeroDistance.
Implicit Types d : gmap Z pystr.
Implicit Types seq : list Z.
Implicit Types s t u : pystr.

Lemma sublist_full_length {A} (l1 l2 : list A) :
  l1 `sublist_of` l2 → (length l2 ≤ length l1)%nat → l1 = l2.
Proof.
  induction 1 as [|x l1 l2 _ IH|x l1 l2 Hsub IH]; cbn; intros Hlen.
  - done.
  - f_equal. apply IH. lia.
  - apply sublist_length in Hsub. lia.
Qed.

(** A common length as long as both strings: the strings are equal. *)
Lemma common_length_full metric s t :
  common_length metric s t = length s → length t = length s → s = t.
Proof.
  intros Hk Hlen.
  assert (pylcs.lcs_length_ s t = length s) as Hseq.
  { destruct metric; [done|]. cbn in Hk.
    pose proof (lcs2_length_le_sequence s t).
    pose proof (lcs_length_le_l s t). lia. }
  destruct (lcs_length_spec s t) as [(u & Hs & Ht & Hu) _].
  rewrite Hseq in Hu.
  apply sublist_full_length in Hs; [|lia]. subst u.
  apply sublist_full_length in Ht; [done|lia].
Qed.

Lemma ratio_one (k n : Z) :
  (0 < n)%Z → (1 - inject_Z k / inject_Z n == 0)%Q → k = n.
Proof.
  intros Hn Hq.
  assert (inject_Z k / inject_Z n == 1)%Q as H1 by lra.
  assert (¬ inject_Z n == 0)%Q as Hn0.
  { change 0%Q with (inject_Z 0). rewrite inject_Z_injective. lia. }
  apply inject_Z_injective.
  assert (inject_Z k == inject_Z k / inject_Z n * inject_Z n)%Q as ->
    by (field; done).
  rewrite H1. ring.
Qed.

(** A distance that is returned comes from two strings [pylcs] accepts. *)
Lemma distance_Ok_inv metric d seq1 seq2 (q : Q) :
  distance metric d seq1 seq2 = Ok q →
  ∃ s1 s2, metric_string metric d seq1 = Ok s1 ∧
           metric_string metric d seq2 = Ok s2 ∧
           pylcs.utf8_encodable s1 = true ∧ pylcs.utf8_encodable s2 = true ∧
           similarity_distance (common_length metric s1 s2) (length s1 + length s2)
           = Ok q.
Proof.
  rewrite distance_unfold.
  destruct (metric_string metric d seq1) as [s1|]; [|done].
  destruct (metric_string metric d seq2) as [s2|]; [|done].
  cbn [mbind result_bind].
  destruct (pylcs_length_cases metric s1 s2) as [(E1 & E2 & Hk)|[E Hk]];
    rewrite Hk; [|done].
  cbn [mbind result_bind]. intros Hq. by exists s1, s2.
Qed.
End ZeroDistance.

(** X3. Under both metrics a distance that is returned is 0 exactly when
    the two sequences are compared through the same string (for the
    subsequence metric, the string left after stripping the unknown
    entries). *)
Theorem distance_zero_iff_same_string (metric : bool) (d : gmap Z pystr)
    (seq1 seq2 : list Z) (q : Q) :
  distance metric d seq1 seq2 = Ok q →
  (q == 0)%Q ↔ metric_string metric d seq1 = metric_string metric d seq2.
Proof.
  intros (s1 & s2 & H1 & H2 & _ & _ & Hq)%distance_Ok_inv.
  assert ((length s1 + length s2)%nat ≠ 0%nat) as Hn.
  { intros Hn. rewrite Hn, similarity_distance_zero in Hq. done. }
  rewrite similarity_distance_Ok in Hq by done. injection Hq as <-.
  rewrite H1, H2. split.
  - intros Hzero. apply ratio_one in Hzero; [|lia].
    pose proof (common_length_le metric s1 s2) as Hle.
    assert (common_length metric s1 s2 ≤ length s1)%nat.
    { destruct metric; [apply lcs_length_le_l | apply lcs2_length_le_l]. }
    assert (common_length metric s1 s2 ≤ length s2)%nat.
    { destruct metric; [apply lcs_length_le_r | apply lcs2_length_le_r]. }
    f_equal. apply (common_length_full metric); lia.
  - intros [= <-]. rewrite common_length_self.
    apply distance_identical. destruct s1; [done|]. simpl. lia.
Qed.

(** The theorem on two sequences that differ in their unknown entries
    only. *)
Lemma distance_zero_iff_same_string_witness :
  distance true dictAB [0; 2; 1] [2; 0; 1; 2] = Ok (0 # 4)%Q ∧
  ((0 # 4 == 0)%Q ↔
   metric_string true dictAB [0; 2; 1] = metric_string true dictAB [2; 0; 1; 2]).
Proof.
  assert (Hq : distance true dictAB [0; 2; 1] [2; 0; 1; 2] = Ok (0 # 4)%Q)
    by (vm_compute; reflexivity).
  exact (conj Hq (distance_zero_iff_same_string true dictAB _ _ _ Hq)).
Defined.

(** ** The two metrics compared *)

(** X4. On two sequences without an entry at or above the unknown index,
    the subsequence distance is at most the substring distance. *)
Theorem calc_dist_le_substr (seq1 seq2 : list Z) (d : gmap Z pystr) (q1 q2 : Q) :
  Forall (λ x, x < len_dict d - 1) seq1 →
  Forall (λ x, x < len_dict d - 1) seq2 →
  calc_dist seq1 seq2 d = Ok q1 →
  calc_dist_substr seq1 seq2 d = Ok q2 →
  (q1 <= q2)%Q.
Proof.
  intros Hf1 Hf2. rewrite calc_dist_unfold, calc_dist_substr_unfold.
  unfold comparison_string. rewrite !filter_Forall_id by done.
  destruct (join_states d seq1) as [s1|]; [|done].
  destruct (join_states d seq2) as [s2|]; [|done]. cbn [mbind result_bind].
  unfold pylcs.lcs_sequence_length, pylcs.lcs_string_length.
  destruct (pylcs.utf8_encodable s1 && pylcs.utf8_encodable s2); [|done].
  cbn [mbind result_bind].
  destruct (decide ((length s1 + length s2)%nat = 0%nat)) as [Hn|Hn].
  { rewrite Hn, similarity_distance_zero. done. }
  rewrite !similarity_distance_Ok by done. intros [= <-] [= <-].
  pose proof (lcs2_length_le_sequence s1 s2) as Hle.
  set (n := (length s1 + length s2)%nat) in *.
  assert (0 < inject_Z (Z.of_nat n))%Q as Hpos.
  { change 0%Q with (inject_Z 0). rewrite <-Zlt_Qlt. lia. }
  assert (inject_Z (2 * Z.of_nat (pylcs.lcs2_length_ s1 s2)) / inject_Z (Z.of_nat n)
          <= inject_Z (2 * Z.of_nat (pylcs.lcs_length_ s1 s2)) / inject_Z (Z.of_nat n))%Q.
  { apply Qmult_le_compat_r.
    - rewrite <-Zle_Qle. lia.
    - apply Qlt_le_weak, Qinv_lt_0_compat. done. }
  lra.
Qed.

(** The theorem on the strings "AAAB" and "ABAA". *)
Lemma calc_dist_le_substr_witness :
  Forall (λ x, x < len_dict dictAB - 1) [0; 0; 0; 1] ∧
  Forall (λ x, x < len_dict dictAB - 1) [0; 1; 0; 0] ∧
  calc_dist [0; 0; 0; 1] [0; 1; 0; 0] dictAB = Ok (2 # 8)%Q ∧
  calc_dist_substr [0; 0; 0; 1] [0; 1; 0; 0] dictAB = Ok (4 # 8)%Q ∧
  (2 # 8 <= 4 # 8)%Q.
Proof.
  assert (Hf1 : Forall (λ x, x < len_dict dictAB - 1) [0; 0; 0; 1])
    by (repeat constructor; vm_compute; reflexivity).
  assert (Hf2 : Forall (λ x, x < len_dict dictAB - 1) [0; 1; 0; 0])
    by (repeat constructor; vm_compute; reflexivity).
  assert (H1 : calc_dist [0; 0; 0; 1] [0; 1; 0; 0] dictAB = Ok (2 # 8)%Q)
    by (vm_compute; reflexivity).
  assert (H2 : calc_dist_substr [0; 0; 0; 1] [0; 1; 0; 0] dictAB = Ok (4 # 8)%Q)
    by (vm_compute; reflexivity).
  exact (conj Hf1 (conj Hf2 (conj H1 (conj H2
           (calc_dist_le_substr _ _ _ _ _ Hf1 Hf2 H1 H2))))).
Defined.

(** ** Padding and the metrics *)

Section Ext.
Context {A B : Type}.

Lemma mapM_result_ext (f g : A → result B) (R : A → A → Prop) l l' :
  (∀ x x', R x x' → f x = g x') → Forall2 R l l' → mapM f l = mapM g l'.
Proof.
  intros Hfg. induction 1 as [|x x' l l' Hx _ IH]; [done|].
  rewrite !mapM_result_cons, (Hfg _ _ Hx), IH. done.
Qed.
End Ext.

(** [pairwise_distances] on two arrays whose rows the metric does not
    tell apart. *)
Section PairwiseExt.
Context {A : Type} (metric metric' : A → A → result Q) (R : A → A → Prop).
Hypothesis metric_ext : ∀ x x' y y', R x x' → R y y' → metric x y = metric' x' y'.

Lemma upper_triangle_ext X X' :
  Forall2 R X X' → sklearn.upper_triangle metric X = sklearn.upper_triangle metric' X'.
Proof.
  induction 1 as [|x x' X X' Hx HX IH]; [done|].
  cbn [sklearn.upper_triangle].
  rewrite (mapM_result_ext (metric x) (metric' x') R X X'), IH; [done| |done].
  intros y y' Hy. by apply metric_ext.
Qed.

Lemma pairwise_callable_ext X X' :
  Forall2 R X X' →
  sklearn.pairwise_callable metric X = sklearn.pairwise_callable metric' X'.
Proof.
  intros HX. unfold sklearn.pairwise_callable.
  rewrite (upper_triangle_ext _ _ HX).
  rewrite (mapM_result_ext (λ x, metric x x) (λ x, metric' x x) R X X'); [done| |done].
  intros x x' Hx. by apply metric_ext.
Qed.
End PairwiseExt.

Section ShapeExt.
Context {B : Type} (R : list B → list B → Prop).
Hypothesis R_length : ∀ x x', R x x' → length x = length x'.

Lemma rectangular_ext (X X' : list (list B)) :
  Forall2 R X X' → rectangular X → rectangular X'.
Proof.
  destruct 1 as [|x x' X X' Hx HX]; [done|]. cbn.
  apply R_length in Hx. intros [Hne Hall]. split.
  - intros ->. destruct x; [done|]. done.
  - rewrite <-Hx. clear Hne Hx. induction HX as [|y y' X X' Hy _ IH]; [done|].
    apply Forall_cons in Hall as [Hlen Hall]. constructor; [|by apply IH].
    by rewrite <-(R_length _ _ Hy).
Qed.
End ShapeExt.

Section CheckedExt.
Context {B : Type} (metric metric' : list B → list B → result Q).
Context (R : list B → list B → Prop).
Hypothesis metric_ext : ∀ x x' y y', R x x' → R y y' → metric x y = metric' x' y'.
Hypothesis R_length : ∀ x x', R x x' → length x = length x'.

Lemma pairwise_distances_ext (X X' : list (list B)) :
  Forall2 R X X' →
  sklearn.pairwise_distances metric X = sklearn.pairwise_distances metric' X'.
Proof.
  intros HX. destruct (decide (rectangular X)) as [Hrect|Hrect].
  - rewrite !pairwise_distances_rectangular;
      [by eapply pairwise_callable_ext | by eapply rectangular_ext | done].
  - rewrite !pairwise_distances_ValueError; [done| |done].
    intros Hrect'. apply Hrect.
    eapply (rectangular_ext (λ x x', R x' x)); [|by apply Forall2_flip|done].
    intros x x' Hx. symmetry. by apply R_length.
Qed.
End CheckedExt.

Section PaddingInvisible.
Implicit Types d : gmap Z pystr.
Implicit Types p : pathway.

(** The frames with a state below the unknown index are the same in a
    padded row and in the row without its iteration-0 frames. *)
Lemma filter_known_expand d p :
  filter (λ step, state_id step < len_dict d - 1) (expand_step d <$> p)
  = filter (λ step, state_id step < len_dict d - 1) (real_frames p).
Proof.
  unfold real_frames. induction p as [|step p IH]; [done|].
  rewrite fmap_cons, (filter_cons _ step). unfold expand_step at 1.
  destruct (decide (iteration_id step = 0)) as [H0|Hne].
  - rewrite decide_False by (intros []; done).
    rewrite filter_cons, decide_False by (cbn; lia). done.
  - rewrite decide_True by done. rewrite !filter_cons, IH. done.
Qed.

Lemma filter_known_states d p :
  filter (λ x, x < len_dict d - 1) (state_id <$> (expand_step d <$> p))
  = filter (λ x, x < len_dict d - 1) (state_id <$> real_frames p).
Proof.
  pose proof (filter_known_expand d p) as H.
  apply (f_equal (fmap state_id)) in H.
  assert (Hcomm : ∀ l : pathway,
            state_id <$> filter (λ step, state_id step < len_dict d - 1) l
            = filter (λ x, x < len_dict d - 1) (state_id <$> l)).
  { induction l as [|step l IH]; [done|].
    rewrite fmap_cons, !filter_cons. case_decide; [|done].
    by rewrite fmap_cons, IH. }
  by rewrite !Hcomm in H.
Qed.

(** [calc_dist] looks at the entries below the unknown index only. *)
Lemma calc_dist_known d (x x' y y' : list Z) :
  filter (λ k, k < len_dict d - 1) x = filter (λ k, k < len_dict d - 1) x' →
  filter (λ k, k < len_dict d - 1) y = filter (λ k, k < len_dict d - 1) y' →
  calc_dist x y d = calc_dist x' y' d.
Proof.
  intros Hx Hy. rewrite !calc_dist_unfold. unfold comparison_string.
  by rewrite Hx, Hy.
Qed.
End PaddingInvisible.

(** The real frames of a row and of its padded copy are the same. *)
Lemma real_frames_filter_known d p p' :
  real_frames p = real_frames p' →
  filter (λ step, state_id step < len_dict d - 1) (expand_step d <$> p)
  = filter (λ step, state_id step < len_dict d - 1) (expand_step d <$> p').
Proof. intros H. by rewrite !filter_known_expand, H. Qed.

(** X6. Under the subsequence metric, what [gen_dist_matrix] returns on a
    padded array depends on the shape of the array and on the frames that
    are not padding only: two arrays whose rows have the same lengths and
    the same frames with a non-zero iteration, in the same order, give the
    same weights, the same matrix (or the same exception) and the same
    store, whatever the iteration-0 frames hold and wherever they sit. *)
Theorem gen_dist_matrix_padding_invisible (pathways pathways' : list pathway)
    (d : gmap Z pystr) (file_name out_dir : string) (remake : bool) (fs : store) :
  Forall2 (λ p p', length p = length p' ∧ real_frames p = real_frames p')
    pathways pathways' →
  gen_dist_matrix (expand_shorter_traj pathways d) d file_name out_dir remake true fs
  = gen_dist_matrix (expand_shorter_traj pathways' d) d file_name out_dir remake true fs.
Proof.
  intros Hsame. unfold gen_dist_matrix. cbn zeta.
  assert (Hw : mapM (pathway_weight true d) (expand_shorter_traj pathways d)
               = mapM (pathway_weight true d) (expand_shorter_traj pathways' d)).
  { unfold expand_shorter_traj.
    apply (mapM_result_ext _ _ (λ p p', filter (λ step, state_id step < len_dict d - 1) p
                                 = filter (λ step, state_id step < len_dict d - 1) p')).
    - intros p p' Hp. unfold pathway_weight. by rewrite Hp.
    - apply Forall2_fmap. eapply Forall2_impl; [exact Hsame|].
      intros p p' [_ Hp]. by apply real_frames_filter_known. }
  rewrite Hw. destruct (mapM _ (expand_shorter_traj pathways' d)) as [weights|e]; [|done].
  assert (Hm : sklearn.pairwise_distances (λ x y, calc_dist x y d)
                 ((λ pathway : pathway, state_id <$> pathway)
                    <$> expand_shorter_traj pathways d)
               = sklearn.pairwise_distances (λ x y, calc_dist x y d)
                   ((λ pathway : pathway, state_id <$> pathway)
                      <$> expand_shorter_traj pathways' d)).
  { apply (pairwise_distances_ext _ _
             (λ x x', length x = length x' ∧
                      filter (λ k, k < len_dict d - 1) x
                      = filter (λ k, k < len_dict d - 1) x')).
    - intros x x' y y' [_ Hx] [_ Hy]. by apply calc_dist_known.
    - by intros x x' [? _].
    - unfold expand_shorter_traj.
      apply Forall2_fmap, Forall2_fmap. eapply Forall2_impl; [exact Hsame|].
      intros p p' [Hlen Hp]. split; [by rewrite !length_fmap|].
      by rewrite !filter_known_states, Hp. }
  by rewrite Hm.
Qed.

(** The theorem on two arrays that differ in what their padding frames
    hold. *)
Lemma gen_dist_matrix_padding_invisible_witness :
  Forall2 (λ p p', length p = length p' ∧ real_frames p = real_frames p')
    [[fr 1 0 0 (1 # 2); fr 0 0 0 0]; [fr 1 1 0 (1 # 4); fr 2 1 1 (1 # 4)]]
    [[fr 1 0 0 (1 # 2); fr 0 7 1 (1 # 3)]; [fr 1 1 0 (1 # 4); fr 2 1 1 (1 # 4)]] ∧
  gen_dist_matrix
    (expand_shorter_traj
       [[fr 1 0 0 (1 # 2); fr 0 0 0 0]; [fr 1 1 0 (1 # 4); fr 2 1 1 (1 # 4)]] dictAB)
    dictAB "distmat.npy" "succ_traj" true true ∅
  = gen_dist_matrix
      (expand_shorter_traj
         [[fr 1 0 0 (1 # 2); fr 0 7 1 (1 # 3)]; [fr 1 1 0 (1 # 4); fr 2 1 1 (1 # 4)]]
         dictAB)
      dictAB "distmat.npy" "succ_traj" true true ∅.
Proof.
  assert (H : Forall2 (λ p p', length p = length p' ∧ real_frames p = real_frames p')
    [[fr 1 0 0 (1 # 2); fr 0 0 0 0]; [fr 1 1 0 (1 # 4); fr 2 1 1 (1 # 4)]]
    [[fr 1 0 0 (1 # 2); fr 0 7 1 (1 # 3)]; [fr 1 1 0 (1 # 4); fr 2 1 1 (1 # 4)]]).
  { repeat constructor. }
  exact (conj H (gen_dist_matrix_padding_invisible _ _ dictAB _ _ _ _ H)).
Defined.

Lemma filter_replicate_nil {A} (P : A → Prop) `{!∀ x, Decision (P x)} (n : nat) x :
  ¬ P x → filter P (replicate n x) = [].
Proof.
  intros Hx. induction n as [|n IH]; [done|].
  cbn [replicate]. by rewrite filter_cons, decide_False.
Qed.

(** X5. Trailing entries equal to the unknown index do not change the
    subsequence distance, but they are part of the strings of the substring
    metric: two sequences that both end in the unknown index, whose symbol
    is not empty, are never at substring distance 1, whatever comes before
    it. *)
Theorem padding_counts_as_common_substring (seq1 seq2 : list Z) (d : gmap Z pystr)
    (k : nat) (s : pystr) :
  (0 < k)%nat →
  d !! (len_dict d - 1) = Some s → s ≠ [] →
  calc_dist (seq1 ++ replicate k (len_dict d - 1)) (seq2 ++ replicate k (len_dict d - 1)) d
  = calc_dist seq1 seq2 d ∧
  ∀ q, calc_dist_substr (seq1 ++ replicate k (len_dict d - 1))
         (seq2 ++ replicate k (len_dict d - 1)) d = Ok q →
       (q < 1)%Q.
Proof.
  intros Hk Hs Hne. split.
  - apply calc_dist_known;
      by rewrite filter_app, filter_replicate_nil, app_nil_r by lia.
  - intros q. rewrite calc_dist_substr_unfold, !join_states_app.
    destruct (join_states d (replicate k (len_dict d - 1))) as [p|e] eqn:Hp.
    2:{ destruct (join_states d seq1); [|done]. cbn.
        by destruct (join_states d seq2). }
    assert (p ≠ []) as Hpne.
    { destruct k as [|k]; [lia|]. cbn [replicate join_states] in Hp.
      unfold getitem in Hp. rewrite Hs in Hp. cbn [mbind result_bind] in Hp.
      destruct (join_states d (replicate k _)); [|done].
      cbn in Hp. injection Hp as <-. by destruct s. }
    destruct (join_states d seq1) as [s1|]; [|done].
    destruct (join_states d seq2) as [s2|]; [|done].
    cbn [mbind result_bind]. unfold pylcs.lcs_string_length.
    destruct (pylcs.utf8_encodable (s1 ++ p) && pylcs.utf8_encodable (s2 ++ p));
      [|done].
    cbn [mbind result_bind].
    assert (length p ≤ pylcs.lcs2_length_ (s1 ++ p) (s2 ++ p))%nat as Hkm.
    { apply lcs2_length_spec.
      - exists s1, []. by rewrite app_nil_r.
      - exists s2, []. by rewrite app_nil_r. }
    assert (0 < length p)%nat as Hlen by (destruct p; [done|cbn; lia]).
    rewrite similarity_distance_Ok by (rewrite length_app; lia).
    intros [= <-].
    set (km := pylcs.lcs2_length_ (s1 ++ p) (s2 ++ p)) in *.
    set (n := (length (s1 ++ p) + length (s2 ++ p))%nat).
    assert (0 < n)%nat as Hn by (unfold n; rewrite length_app; lia).
    assert (0 < inject_Z (2 * Z.of_nat km) / inject_Z (Z.of_nat n))%Q; [|lra].
    apply Qlt_shift_div_l.
    + change 0%Q with (inject_Z 0). rewrite <-Zlt_Qlt. lia.
    + rewrite Qmult_0_l. change 0%Q with (inject_Z 0). rewrite <-Zlt_Qlt. lia.
Qed.

(** The theorem on the sequences [0] and [1], each followed by two unknown
    entries. *)
Lemma padding_counts_as_common_substring_witness :
  calc_dist ([0] ++ replicate 2 (len_dict dictAB - 1))
    ([1] ++ replicate 2 (len_dict dictAB - 1)) dictAB
  = calc_dist [0] [1] dictAB ∧
  ∀ q, calc_dist_substr ([0] ++ replicate 2 (len_dict dictAB - 1))
         ([1] ++ replicate 2 (len_dict dictAB - 1)) dictAB = Ok q →
       (q < 1)%Q.
Proof.
  apply (padding_counts_as_common_substring [0] [1] dictAB 2 (str "!")).
  - lia.
  - reflexivity.
  - discriminate.
Defined.

(** ** File names *)

Section FileNames.
Implicit Types s h f : string.

Lemma list_ascii_app s1 s2 :
  String.list_ascii_of_string (s1 +:+ s2)
  = String.list_ascii_of_string s1 ++ String.list_ascii_of_string s2.
Proof. induction s1 as [|c s1 IH]; [done|]. simpl. f_equal. exact IH. Qed.

Lemma list_ascii_rev_app s1 s2 :
  String.list_ascii_of_string (String.rev_app s1 s2)
  = reverse (String.list_ascii_of_string s1) ++ String.list_ascii_of_string s2.
Proof.
  revert s2. induction s1 as [|c s1 IH]; intros s2; [done|].
  cbn [String.rev_app String.list_ascii_of_string].
  rewrite IH, reverse_cons, <-app_assoc. done.
Qed.

Lemma list_ascii_rev s :
  String.list_ascii_of_string (String.rev s) = reverse (String.list_ascii_of_string s).
Proof. unfold String.rev. by rewrite list_ascii_rev_app, app_nil_r. Qed.

Lemma string_prefix_true s1 s2 :
  String.prefix s1 s2 = true
  ↔ String.list_ascii_of_string s1 `prefix_of` String.list_ascii_of_string s2.
Proof.
  revert s2. induction s1 as [|a s1 IH]; intros s2.
  { destruct s2; (split; [intros _; apply prefix_nil | done]). }
  destruct s2 as [|b s2]; cbn.
  { split; [done|]. by intros ?%prefix_nil_inv. }
  destruct (ascii_dec a b) as [->|Hne].
  - rewrite IH. split; [apply prefix_cons | by intros ?%prefix_cons_inv_2].
  - split; [done|]. by intros ?%prefix_cons_inv_1.
Qed.

(** [numpy.save] leaves a name alone exactly when it ends in [.npy]. *)
Lemma npy_name_cases f :
  (String.list_ascii_of_string ".npy" `suffix_of` String.list_ascii_of_string f ∧ npy_name f = f) ∨
  (¬ String.list_ascii_of_string ".npy" `suffix_of` String.list_ascii_of_string f ∧
   npy_name f = (f +:+ ".npy")%string).
Proof.
  unfold npy_name.
  destruct (String.prefix _ _) eqn:Hp.
  - left. split; [|done]. apply string_prefix_true in Hp.
    rewrite !list_ascii_rev in Hp. by apply suffix_prefix_reverse.
  - right. split; [|done]. intros Hs. apply suffix_prefix_reverse in Hs.
    rewrite <-!list_ascii_rev in Hs. apply string_prefix_true in Hs. congruence.
Qed.

(** The cache path [out_dir/file_name] is never the name [numpy.save]
    writes to. *)
Lemma new_name_not_saved h f : (h +:+ "/" +:+ f)%string ≠ npy_name f.
Proof.
  intros Heq. apply (f_equal String.list_ascii_of_string) in Heq.
  rewrite !list_ascii_app in Heq.
  set (F := String.list_ascii_of_string f) in *. set (H := String.list_ascii_of_string h) in *.
  destruct (npy_name_cases f) as [[Hs Hn]|[Hs Hn]]; rewrite Hn in Heq.
  - fold F in Heq. apply (f_equal length) in Heq.
    rewrite !length_app in Heq. cbn in Heq. lia.
  - rewrite list_ascii_app in Heq. fold F in Heq, Hs.
    assert (F `suffix_of` F ++ String.list_ascii_of_string ".npy") as HF.
    { rewrite <-Heq. rewrite app_assoc. by apply suffix_app_r. }
    assert (String.list_ascii_of_string ".npy" `suffix_of` F ++ String.list_ascii_of_string ".npy")
      as Hnpy by by apply suffix_app_r.
    assert ("/"%char ∈ F ++ String.list_ascii_of_string ".npy") as Hin.
    { rewrite <-Heq. rewrite !elem_of_app. right. left. cbn. by left. }
    assert ("/"%char ∉ String.list_ascii_of_string ".npy") as Hnot.
    { cbn. rewrite !elem_of_cons. intros [?|[?|[?|[?|?%elem_of_nil]]]]; done. }
    destruct (suffix_weak_total _ _ _ Hnpy HF) as [?|Hsuf]; [done|].
    apply elem_of_app in Hin as [Hin|Hin]; [|done].
    destruct Hsuf as [k Hk]. apply Hnot. rewrite Hk, elem_of_app. by right.
Qed.

Lemma string_length_app s1 s2 :
  String.length (s1 +:+ s2) = (String.length s1 + String.length s2)%nat.
Proof. induction s1 as [|c s1 IH]; [done|]. simpl. f_equal. exact IH. Qed.

Lemma new_name_not_file_name h f : (h +:+ "/" +:+ f)%string ≠ f.
Proof.
  intros Heq. apply (f_equal String.length) in Heq.
  rewrite !string_length_app in Heq. cbn in Heq. lia.
Qed.
End FileNames.

(** ** The store of [gen_dist_matrix] *)

Section Store.
Implicit Types pathways : list pathway.
Implicit Types d : gmap Z pystr.
Implicit Types fs : store.

(** Either the store is left as it is, or the matrix returned was computed
    and saved under [file_name]. *)
Lemma gen_dist_matrix_store_cases pathways d file_name out_dir remake metric fs :
  (gen_dist_matrix pathways d file_name out_dir remake metric fs).2 = fs ∨
  ∃ distmat weights,
    gen_dist_matrix pathways d file_name out_dir remake metric fs
    = (Ok (distmat, weights), numpy_save file_name distmat fs) ∧
    negb (exists_ (rsplit1_head out_dir +:+ "/" +:+ file_name) fs) || remake = true.
Proof.
  unfold gen_dist_matrix. cbn zeta.
  destruct (mapM _ pathways) as [weights|e]; [|by left].
  destruct (negb _ || remake) eqn:Hre.
  - destruct metric.
    + destruct (sklearn.pairwise_distances _ _) as [m|e]; [|by left].
      right. by exists m, weights.
    + destruct (sklearn.pairwise_distances _ _) as [m|e]; [|by left].
      right. by exists m, weights.
  - left. by destruct (numpy_load file_name fs).
Qed.

(** The weights do not depend on the store. *)
Lemma gen_dist_matrix_Ok_weights pathways d file_name out_dir remake metric fs
    distmat weights fs' :
  gen_dist_matrix pathways d file_name out_dir remake metric fs
  = (Ok (distmat, weights), fs') →
  mapM (pathway_weight metric d) pathways = Ok weights.
Proof.
  unfold gen_dist_matrix. cbn zeta.
  destruct (mapM _ pathways) as [ws|e]; [|done].
  destruct (negb _ || remake).
  - destruct metric; destruct (sklearn.pairwise_distances _ _); [|done| |done];
      by intros [= _ <- _].
  - destruct (numpy_load file_name fs); [|done]. by intros [= _ <- _].
Qed.
End Store.

(** X7. [gen_dist_matrix] touches no file but the one [numpy.save] writes
    for [file_name]; it leaves the store as it is when it raises, and when
    it loads the matrix ([remake] false and the cache path present). *)
Theorem gen_dist_matrix_store_frame (pathways : list pathway) (d : gmap Z pystr)
    (file_name out_dir : string) (remake metric : bool) (fs : store) :
  (∀ name, name ≠ npy_name file_name →
     (gen_dist_matrix pathways d file_name out_dir remake metric fs).2 !! name
     = fs !! name) ∧
  (¬ is_Ok (gen_dist_matrix pathways d file_name out_dir remake metric fs).1 →
     (gen_dist_matrix pathways d file_name out_dir remake metric fs).2 = fs) ∧
  (remake = false →
   exists_ (rsplit1_head out_dir +:+ "/" +:+ file_name) fs = true →
     (gen_dist_matrix pathways d file_name out_dir remake metric fs).2 = fs).
Proof.
  destruct (gen_dist_matrix_store_cases pathways d file_name out_dir remake metric fs)
    as [Hsame|(distmat & weights & Hrun & Hre)].
  - rewrite Hsame. done.
  - rewrite Hrun. cbn [fst snd]. unfold numpy_save. split_and!.
    + intros name Hname. by rewrite lookup_insert_ne.
    + intros []. by eexists.
    + intros -> Hex. rewrite Hex in Hre. done.
Qed.

(** X8. For a plain file name and an output directory whose directory
    part is a plain name (one path component each, not empty, not [.] and
    not [..]), the cache path [out_dir/file_name] is a file of a
    sub-directory and [numpy.save] writes to the working directory: the
    cache path, which the existence test reads, is never written.  When
    it is absent before a call it is absent after it, whatever the call
    did, and a following call with [remake] false computes the matrix
    again, as one with [remake] true does. *)
Theorem gen_dist_matrix_never_caches (pathways : list pathway) (d : gmap Z pystr)
    (file_name out_dir : string) (remake metric : bool) (fs : store) :
  plain_name file_name = true →
  plain_name (rsplit1_head out_dir) = true →
  exists_ (rsplit1_head out_dir +:+ "/" +:+ file_name) fs = false →
  let fs' := (gen_dist_matrix pathways d file_name out_dir remake metric fs).2 in
  exists_ (rsplit1_head out_dir +:+ "/" +:+ file_name) fs' = false ∧
  gen_dist_matrix pathways d file_name out_dir false metric fs'
  = gen_dist_matrix pathways d file_name out_dir true metric fs'.
Proof.
  intros _ _ Hex fs'.
  assert (Hex' : exists_ (rsplit1_head out_dir +:+ "/" +:+ file_name) fs' = false).
  { unfold fs'.
    destruct (gen_dist_matrix_store_cases pathways d file_name out_dir remake metric fs)
      as [->|(distmat & weights & -> & _)]; [done|].
    cbn [snd]. unfold exists_, numpy_save in *.
    rewrite lookup_insert_ne; [done|]. apply not_eq_sym, new_name_not_saved. }
  split; [done|]. unfold gen_dist_matrix. cbn zeta. by rewrite Hex'.
Qed.

(** The theorem on an empty store, with the default names. *)
Lemma gen_dist_matrix_never_caches_witness :
  plain_name "distmat.npy" = true ∧
  plain_name (rsplit1_head "succ_traj") = true ∧
  exists_ (rsplit1_head "succ_traj" +:+ "/" +:+ "distmat.npy") ∅ = false ∧
  let fs' := (gen_dist_matrix rep_pathways dictAB "distmat.npy" "succ_traj"
                true true ∅).2 in
  exists_ (rsplit1_head "succ_traj" +:+ "/" +:+ "distmat.npy") fs' = false ∧
  gen_dist_matrix rep_pathways dictAB "distmat.npy" "succ_traj" false true fs'
  = gen_dist_matrix rep_pathways dictAB "distmat.npy" "succ_traj" true true fs'.
Proof.
  assert (Hf : plain_name "distmat.npy" = true) by reflexivity.
  assert (Hd : plain_name (rsplit1_head "succ_traj") = true) by reflexivity.
  assert (Hex : exists_ (rsplit1_head "succ_traj" +:+ "/" +:+ "distmat.npy") ∅ = false)
    by (vm_compute; reflexivity).
  exact (conj Hf (conj Hd (conj Hex
           (gen_dist_matrix_never_caches rep_pathways dictAB "distmat.npy" "succ_traj"
              true true ∅ Hf Hd Hex)))).
Defined.

(** X9. Saving and loading, for a plain file name and an output directory
    whose directory part is a plain name, so that the cache path is not
    the file [numpy.save] writes.  After a call that computed and saved
    the matrix, a call with [remake] false that finds any file at the
    cache path returns the saved matrix when [file_name] ends in [.npy];
    the content of the file at the cache path is not read.  When
    [file_name] lacks the extension, [numpy.save] has added it and the
    load of [file_name] raises [FileNotFoundError]. *)
Theorem gen_dist_matrix_reload (pathways : list pathway) (d : gmap Z pystr)
    (file_name out_dir : string) (metric : bool) (fs fs' : store)
    (distmat : matrix) (weights : list Q) (cached : file) :
  plain_name file_name = true →
  plain_name (rsplit1_head out_dir) = true →
  gen_dist_matrix pathways d file_name out_dir true metric fs
  = (Ok (distmat, weights), fs') →
  let fs'' := <[(rsplit1_head out_dir +:+ "/" +:+ file_name)%string := cached]> fs' in
  (npy_name file_name = file_name →
   gen_dist_matrix pathways d file_name out_dir false metric fs''
   = (Ok (distmat, weights), fs'')) ∧
  (npy_name file_name ≠ file_name → fs !! file_name = None →
   gen_dist_matrix pathways d file_name out_dir false metric fs''
   = (Raise FileNotFoundError, fs'')).
Proof.
  intros _ _ Hrun fs''.
  pose proof (gen_dist_matrix_Ok_weights _ _ _ _ _ _ _ _ _ _ Hrun) as Hw.
  assert (fs' = <[npy_name file_name := NpyFile distmat]> fs) as Hfs'.
  { eapply gen_dist_matrix_saved; [|exact Hrun]. apply orb_true_r. }
  assert (Hex : exists_ (rsplit1_head out_dir +:+ "/" +:+ file_name) fs'' = true).
  { unfold exists_, fs''. apply bool_decide_eq_true.
    rewrite lookup_insert_eq. by eexists. }
  rewrite (gen_dist_matrix_cached _ _ _ _ _ _ _ Hw Hex).
  unfold numpy_load, fs''.
  rewrite lookup_insert_ne by apply new_name_not_file_name.
  rewrite Hfs'. split.
  - intros ->. by rewrite lookup_insert_eq.
  - intros Hne Hnone. rewrite lookup_insert_ne by done. by rewrite Hnone.
Qed.

(** The theorem with the default names and a text file at the cache
    path. *)
Lemma gen_dist_matrix_reload_witness :
  plain_name "distmat.npy" = true ∧
  plain_name (rsplit1_head "succ_traj") = true ∧
  ∃ distmat fs',
    gen_dist_matrix rep_pathways dictAB "distmat.npy" "succ_traj" true true ∅
    = (Ok (distmat, rep_weights), fs') ∧
    gen_dist_matrix rep_pathways dictAB "distmat.npy" "succ_traj" false true
      (<["succ_traj/distmat.npy"%string := TextFile []]> fs')
    = (Ok (distmat, rep_weights), <["succ_traj/distmat.npy"%string := TextFile []]> fs').
Proof.
  split; [reflexivity|]. split; [reflexivity|].
  destruct (gen_dist_matrix rep_pathways dictAB "distmat.npy" "succ_traj" true true ∅)
    as [r fs'] eqn:Hrun.
  assert (∃ distmat, r = Ok (distmat, rep_weights)) as [distmat ->].
  { apply (f_equal fst) in Hrun. cbn [fst] in Hrun. rewrite <-Hrun.
    eexists. vm_compute. reflexivity. }
  exists distmat, fs'. split; [done|].
  apply (gen_dist_matrix_reload rep_pathways dictAB "distmat.npy" "succ_traj"
           true ∅ fs' distmat rep_weights (TextFile []));
    [reflexivity|reflexivity|exact Hrun|reflexivity].
Defined.

(** ** The representative of a cluster *)

Section ArgmaxFirst.
Local Open Scope Q_scope.

Lemma argmax_from_first (l : list Q) (best_i : nat) (best : Q) (i : nat) :
  (argmax_from best_i best i l = best_i ∧ Forall (λ y, y <= best) l) ∨
  (∃ pre x post, l = pre ++ x :: post ∧
     argmax_from best_i best i l = (i + length pre)%nat ∧ best < x ∧
     Forall (λ y, y < x) pre ∧ Forall (λ y, y <= x) post).
Proof.
  revert best_i best i. induction l as [|x l IH]; intros best_i best i; cbn.
  { left. by split. }
  destruct (Qlt_le_dec best x) as [Hlt|Hle].
  - right. destruct (IH i x (S i)) as [[-> Hmax]|(pre & y & post & -> & -> & Hxy & Hpre & Hpost)].
    + exists [], x, l. split_and!; [done|cbn; lia|done|constructor|done].
    + exists (x :: pre), y, post. split_and!; [done|cbn; lia|lra| |done].
      by constructor.
  - destruct (IH best_i best (S i))
      as [[-> Hmax]|(pre & y & post & -> & -> & Hxy & Hpre & Hpost)].
    + left. split; [done|]. by constructor.
    + right. exists (x :: pre), y, post. split_and!; [done|cbn; lia|done| |done].
      constructor; [lra|done].
Qed.

(** [argmax] returns the first index of the maximum. *)
Lemma argmax_first (l : list Q) (i : nat) :
  argmax l = Ok i →
  ∃ pre w post, l = pre ++ w :: post ∧ length pre = i ∧
    Forall (λ y, y < w) pre ∧ Forall (λ y, y <= w) post.
Proof.
  destruct l as [|x l]; [done|]. intros [= <-].
  destruct (argmax_from_first l 0 x 1)
    as [[-> Hmax]|(pre & y & post & -> & -> & Hxy & Hpre & Hpost)].
  - by exists [], x, l.
  - exists (x :: pre), y, post. split_and!; [done|cbn; lia| |done].
    by constructor.
Qed.
End ArgmaxFirst.

Section Members.
Implicit Types data_arr : list pathway.
Implicit Types weights : list Q.
Implicit Types cluster_labels : list Z.

Lemma filter_split {A} (P : A → Prop) `{!∀ x, Decision (P x)} (l pre' post' : list A) x :
  filter P l = pre' ++ x :: post' →
  ∃ pre post, l = pre ++ x :: post ∧ filter P pre = pre' ∧ filter P post = post' ∧ P x.
Proof.
  revert pre'. induction l as [|y l IH]; intros pre'.
  { rewrite filter_nil. by destruct pre'. }
  rewrite filter_cons. destruct (decide (P y)) as [Hy|Hy].
  - destruct pre' as [|z pre']; cbn.
    + intros [= <- Hl]. exists [], l. by rewrite filter_nil.
    + intros [= <- Hl]. destruct (IH _ Hl) as (pre & post & -> & Hpre & Hpost & Hx).
      exists (y :: pre), post. rewrite filter_cons, decide_True, Hpre by done. done.
  - intros Hl. destruct (IH _ Hl) as (pre & post & -> & Hpre & Hpost & Hx).
    exists (y :: pre), post. rewrite filter_cons, decide_False by done. done.
Qed.

Lemma mask_select_members data_arr weights cluster_labels icluster :
  length data_arr = length cluster_labels →
  length weights = length cluster_labels →
  let mask := (λ l, bool_decide (l = icluster)) <$> cluster_labels in
  mask_select data_arr mask
  = Ok ((λ t, t.1.1) <$> members data_arr weights cluster_labels icluster) ∧
  mask_select weights mask
  = Ok ((λ t, t.1.2) <$> members data_arr weights cluster_labels icluster).
Proof.
  intros Hd Hw mask. unfold mask_select, mask.
  rewrite length_fmap, !decide_True by done.
  unfold members, labelled.
  revert data_arr weights Hd Hw.
  induction cluster_labels as [|l ls IH]; intros [|p ps] [|w ws] Hd Hw; try done.
  injection Hd as Hd. injection Hw as Hw.
  destruct (IH ps ws Hd Hw) as [[= IH1] [= IH2]].
  cbn [fmap list_fmap zip zip_with]. rewrite !filter_cons. cbn [fst snd].
  destruct (decide (l = icluster)) as [->|Hne].
  - rewrite bool_decide_true by done. rewrite !decide_True by done.
    cbn [fmap list_fmap fst snd].
    split; do 2 f_equal; [exact IH1 | exact IH2].
  - rewrite bool_decide_false by done. rewrite !decide_False by done.
    split; f_equal; [exact IH1 | exact IH2].
Qed.

(** [select_rep] on the members of the cluster. *)
Lemma select_rep_members data_arr weights cluster_labels icluster :
  length data_arr = length cluster_labels →
  length weights = length cluster_labels →
  select_rep data_arr weights cluster_labels icluster
  = (let cl := members data_arr weights cluster_labels icluster in
     i ← argmax ((λ t, t.1.2) <$> cl);
     rep ← getindex ((λ t, t.1.1) <$> cl) i;
     rep_weight ← getindex rep 0;
     Ok ((λ t, t.1.1) <$> cl, rep_weight)).
Proof.
  intros Hd Hw. unfold select_rep. cbn zeta.
  destruct (mask_select_members data_arr weights cluster_labels icluster Hd Hw)
    as [-> ->]. reflexivity.
Qed.

Lemma members_nonempty data_arr weights cluster_labels icluster :
  length data_arr = length cluster_labels →
  length weights = length cluster_labels →
  icluster ∈ cluster_labels →
  members data_arr weights cluster_labels icluster ≠ [].
Proof.
  intros Hd Hw Hin Hnil.
  apply list_elem_of_lookup in Hin as [i Hi].
  destruct (lookup_lt_is_Some_2 data_arr i) as [p Hp].
  { rewrite Hd. by eapply lookup_lt_Some. }
  destruct (lookup_lt_is_Some_2 weights i) as [w Hwi].
  { rewrite Hw. by eapply lookup_lt_Some. }
  assert ((p, w, icluster) ∈ members data_arr weights cluster_labels icluster) as Hm.
  { apply list_elem_of_filter. split; [done|].
    apply list_elem_of_lookup. exists i. unfold labelled.
    rewrite !lookup_zip_with, Hp, Hwi, Hi. done. }
  rewrite Hnil in Hm. by apply elem_of_nil in Hm.
Qed.

Lemma members_pathway data_arr weights cluster_labels icluster t :
  t ∈ members data_arr weights cluster_labels icluster → t.1.1 ∈ data_arr ∧ t.2 = icluster.
Proof.
  intros [Hl Hin]%list_elem_of_filter. split; [|done].
  unfold labelled in Hin. destruct t as [[p w] l].
  apply elem_of_zip_l, elem_of_zip_l in Hin. done.
Qed.

(** A cluster with a member has a representative, when no pathway is
    empty. *)
Lemma select_rep_is_Ok data_arr weights cluster_labels icluster :
  length data_arr = length cluster_labels →
  length weights = length cluster_labels →
  Forall (λ p, p ≠ []) data_arr →
  icluster ∈ cluster_labels →
  is_Ok (select_rep data_arr weights cluster_labels icluster).
Proof.
  intros Hd Hw Hne Hin. rewrite select_rep_members by done. cbn zeta.
  pose proof (members_nonempty _ _ _ _ Hd Hw Hin) as Hcl.
  set (cl := members data_arr weights cluster_labels icluster) in *.
  destruct (argmax ((λ t, t.1.2) <$> cl)) as [i|e] eqn:Hi.
  2:{ destruct cl; [done|]. done. }
  cbn. destruct (argmax_first _ _ Hi) as (pre & w & post & Hl & Hlen & _).
  assert (i < length cl)%nat as Hlt.
  { apply (f_equal length) in Hl. rewrite length_fmap, length_app in Hl.
    cbn in Hl. lia. }
  destruct (lookup_lt_is_Some_2 cl i Hlt) as [t Ht].
  unfold getindex. rewrite list_lookup_fmap, Ht. cbn.
  assert (t.1.1 ∈ data_arr) as Hp.
  { eapply members_pathway, list_elem_of_lookup_2. exact Ht. }
  rewrite Forall_forall in Hne. apply Hne in Hp.
  destruct (t.1.1) as [|f p]; [done|]. cbn. by eexists.
Qed.
End Members.

(** X10. When the arrays have the length of the labels, no pathway is
    empty and some pathway has the label [icluster], [select_rep] returns
    the pathways of the cluster in their order, and the first frame of the
    first member of maximal weight: every member before it is strictly
    lighter, every member after it at most as heavy. *)
Theorem select_rep_first_maximum (data_arr : list pathway) (weights : list Q)
    (cluster_labels : list Z) (icluster : Z) :
  length data_arr = length cluster_labels →
  length weights = length cluster_labels →
  Forall (λ p, p ≠ []) data_arr →
  icluster ∈ cluster_labels →
  ∃ before member w after rep,
    labelled data_arr weights cluster_labels
    = before ++ (member, w, icluster) :: after ∧
    Forall (λ t, t.2 = icluster → (t.1.2 < w)%Q) before ∧
    Forall (λ t, t.2 = icluster → (t.1.2 <= w)%Q) after ∧
    head member = Some rep ∧
    select_rep data_arr weights cluster_labels icluster
    = Ok ((λ t, t.1.1) <$> members data_arr weights cluster_labels icluster, rep).
Proof.
  intros Hd Hw Hne Hin.
  destruct (select_rep_is_Ok _ _ _ _ Hd Hw Hne Hin) as [[data_cl rep] Hrun].
  pose proof Hrun as Hrun'.
  rewrite select_rep_members in Hrun' by done. cbn zeta in Hrun'.
  set (cl := members data_arr weights cluster_labels icluster) in *.
  destruct (argmax ((λ t, t.1.2) <$> cl)) as [i|e] eqn:Hi; [|done].
  cbn in Hrun'. unfold getindex in Hrun'. rewrite list_lookup_fmap in Hrun'.
  destruct (cl !! i) as [t|] eqn:Ht; [|done]. cbn in Hrun'.
  destruct (t.1.1 !! 0%nat) as [f|] eqn:Hf; [|done]. cbn in Hrun'.
  injection Hrun' as <- <-.
  destruct (argmax_first _ _ Hi) as (pre & w & post & Hl & Hlen & Hpre & Hpost).
  apply fmap_app_inv in Hl as (cl1 & cl2' & -> & Hcl2 & Hcl).
  symmetry in Hcl2. apply fmap_cons_inv in Hcl2 as (t' & cl2 & Hw' & -> & ->).
  rewrite length_fmap in Hlen.
  assert (t' = t) as ->.
  { rewrite Hcl in Ht. rewrite lookup_app_r in Ht by lia.
    rewrite Hlen, Nat.sub_diag in Ht. by injection Ht. }
  unfold cl, members in Hcl.
  apply filter_split in Hcl as (before & after & Hlab & Hbefore & Hafter & Hlabel).
  destruct t as [[member w'] l]. cbn in *. subst w' l.
  exists before, member, w, after, f. split_and!.
  - exact Hlab.
  - apply Forall_forall. intros u Hu Hul.
    assert (u ∈ cl1) as Hu1 by (rewrite <-Hbefore; by apply list_elem_of_filter).
    rewrite Forall_forall in Hpre. apply Hpre.
    by apply (list_elem_of_fmap_2 (λ t, t.1.2)).
  - apply Forall_forall. intros u Hu Hul.
    assert (u ∈ cl2) as Hu2 by (rewrite <-Hafter; by apply list_elem_of_filter).
    rewrite Forall_forall in Hpost. apply Hpost.
    by apply (list_elem_of_fmap_2 (λ t, t.1.2)).
  - by destruct member.
  - exact Hrun.
Qed.

(** The theorem on four pathways, three of them in cluster 2, two of
    these with the maximal weight. *)
Lemma select_rep_first_maximum_witness :
  ∃ before member w after rep,
    labelled (rep_pathways ++ rep_pathways) [(3 # 10); (7 # 10); (7 # 10); (1 # 10)]%Q
      [1; 2; 2; 2]
    = before ++ (member, w, 2) :: after ∧
    Forall (λ t, t.2 = 2 → (t.1.2 < w)%Q) before ∧
    Forall (λ t, t.2 = 2 → (t.1.2 <= w)%Q) after ∧
    head member = Some rep ∧
    select_rep (rep_pathways ++ rep_pathways) [(3 # 10); (7 # 10); (7 # 10); (1 # 10)]%Q
      [1; 2; 2; 2] 2
    = Ok ((λ t, t.1.1) <$> members (rep_pathways ++ rep_pathways)
            [(3 # 10); (7 # 10); (7 # 10); (1 # 10)]%Q [1; 2; 2; 2] 2, rep).
Proof.
  apply (select_rep_first_maximum (rep_pathways ++ rep_pathways)
           [(3 # 10); (7 # 10); (7 # 10); (1 # 10)]%Q [1; 2; 2; 2] 2).
  - reflexivity.
  - reflexivity.
  - repeat constructor; discriminate.
  - right. left.
Defined.

(** ** The file of representatives *)

Section ExportFiles.
Implicit Types data_arr : list pathway.
Implicit Types weights : list Q.
Implicit Types cluster_labels clusters : list Z.

Lemma mapM_trace_out (data_cl : list pathway) :
  (Forall (λ item, item ≠ []) data_cl ∧ is_Ok (mapM trace_out data_cl)) ∨
  (¬ Forall (λ item, item ≠ []) data_cl ∧ mapM trace_out data_cl = Raise IndexError).
Proof.
  induction data_cl as [|item data_cl IH].
  { left. split; [constructor|by eexists]. }
  rewrite mapM_result_cons. destruct item as [|step item].
  { right. split; [|done]. by intros [? _]%Forall_cons. }
  cbn [trace_out mbind result_bind].
  destruct IH as [[Hall [traces ->]]|[Hnot ->]].
  - left. split; [by constructor|by eexists].
  - right. split; [|done]. by intros [_ ?]%Forall_cons.
Qed.

Lemma export_cluster_unfold data_arr weights cluster_labels icluster :
  export_cluster data_arr weights cluster_labels icluster
  = ('(data_cl, rep_weight) ← select_rep data_arr weights cluster_labels icluster;
     if decide (Forall (λ item : pathway, item ≠ []) data_cl) then Ok rep_weight
     else Raise IndexError).
Proof. reflexivity. Qed.

(** The loop appends one line per cluster, and stops at the first cluster
    whose turn raises. *)
Lemma export_loop_mapM data_arr weights cluster_labels clusters lines :
  export_loop data_arr weights cluster_labels clusters lines
  = (reps ← mapM (export_cluster data_arr weights cluster_labels) clusters;
     Ok (lines ++ reps)).
Proof.
  revert lines. induction clusters as [|icluster clusters IH]; intros lines.
  { cbn. by rewrite app_nil_r. }
  cbn [export_loop]. rewrite mapM_result_cons.
  rewrite (export_cluster_unfold _ _ _ icluster).
  destruct (select_rep data_arr weights cluster_labels icluster) as [[data_cl rep]|e];
    [|done].
  cbn [mbind result_bind]. cbn zeta.
  destruct (mapM_trace_out data_cl) as [[Hall [traces ->]]|[Hnot ->]].
  - rewrite decide_True by done. cbn [mbind result_bind]. rewrite IH.
    destruct (mapM _ clusters) as [reps|e]; [|done].
    cbn. by rewrite <-app_assoc.
  - by rewrite decide_False.
Qed.

(** The turn of a cluster with a member succeeds when no pathway is
    empty. *)
Lemma export_cluster_is_Ok data_arr weights cluster_labels icluster :
  length data_arr = length cluster_labels →
  length weights = length cluster_labels →
  Forall (λ p, p ≠ []) data_arr →
  icluster ∈ cluster_labels →
  is_Ok (export_cluster data_arr weights cluster_labels icluster).
Proof.
  intros Hd Hw Hne Hin. unfold export_cluster.
  destruct (select_rep_is_Ok _ _ _ _ Hd Hw Hne Hin) as [[data_cl rep] Hrun].
  rewrite Hrun. cbn [mbind result_bind].
  rewrite select_rep_members in Hrun by done. cbn zeta in Hrun.
  destruct (argmax _) as [i|]; [|done]. cbn [mbind result_bind] in Hrun.
  destruct (getindex _ i) as [member|]; [|done]. cbn [mbind result_bind] in Hrun.
  destruct (getindex member 0) as [f|]; [|done]. cbn [mbind result_bind] in Hrun.
  injection Hrun as <- <-.
  rewrite decide_True; [by eexists|].
  apply Forall_fmap, Forall_forall. intros t Ht. cbn.
  rewrite Forall_forall in Hne. apply Hne.
  by eapply members_pathway.
Qed.

Lemma export_loop_labelled data_arr weights cluster_labels clusters :
  length data_arr = length cluster_labels →
  length weights = length cluster_labels →
  Forall (λ p, p ≠ []) data_arr →
  Forall (λ k, k ∈ cluster_labels) clusters →
  ∃ lines, export_loop data_arr weights cluster_labels clusters [] = Ok lines ∧
           length lines = length clusters.
Proof.
  intros Hd Hw Hne Hall. rewrite export_loop_mapM.
  destruct (mapM_result_total (export_cluster data_arr weights cluster_labels) clusters)
    as [reps Hreps].
  { eapply Forall_impl; [exact Hall|]. intros k Hk. by apply export_cluster_is_Ok. }
  rewrite Hreps. cbn. eexists. split; [done|].
  by eapply mapM_result_length.
Qed.

Lemma export_loop_unlabelled data_arr weights cluster_labels clusters :
  length data_arr = length cluster_labels →
  length weights = length cluster_labels →
  Forall (λ p, p ≠ []) data_arr →
  Exists (λ k, k ∉ cluster_labels) clusters →
  export_loop data_arr weights cluster_labels clusters [] = Raise ValueError.
Proof.
  intros Hd Hw Hne Hex. rewrite export_loop_mapM.
  induction clusters as [|k clusters IH]; [by inversion Hex|].
  rewrite mapM_result_cons.
  destruct (decide (k ∈ cluster_labels)) as [Hk|Hk].
  - destruct (export_cluster_is_Ok _ _ _ k Hd Hw Hne Hk) as [rep ->]. cbn.
    apply Exists_cons in Hex as [?|Hex]; [done|].
    specialize (IH Hex).
    destruct (mapM _ clusters) as [reps|e]; [done|]. cbn in *. done.
  - rewrite export_cluster_unfold, select_rep_empty_cluster; [done..|].
    apply Forall_forall. intros l Hl ->. done.
Qed.
End ExportFiles.

(** X11. With a list of clusters, [export_std_files] writes one line per
    requested cluster, in the order of the list (a cluster listed twice is
    written twice), replacing the file.  The turn of a cluster raises when
    [select_rep] raises, and raises [IndexError] when a member of the
    cluster is an empty pathway; the exception of the first cluster whose
    turn raises is then raised and nothing is written. *)
Theorem export_std_files_lines (data_arr : list pathway) (weights : list Q)
    (cluster_labels clusters : list Z) (out_dir : string) (fs : store) :
  export_std_files data_arr weights cluster_labels (Some clusters) out_dir fs
  = match mapM (export_cluster data_arr weights cluster_labels) clusters with
    | Ok reps =>
        (Ok (), <[(rsplit1_head out_dir +:+ "/representative_segments.txt")%string
                  := TextFile reps]> fs)
    | Raise e => (Raise e, fs)
    end.
Proof.
  unfold export_std_files. cbn [determine_clusters].
  rewrite export_loop_mapM.
  by destruct (mapM _ clusters) as [reps|e].
Qed.

(** X12. With [clusters=None], for arrays of the length of the labels and
    pathways that are not empty: [export_std_files] writes its file, with
    [max(cluster_labels) + 1] lines (none when the maximum is negative),
    exactly when every integer from 0 to [max(cluster_labels)] is the label
    of some pathway; otherwise it raises [ValueError] and writes
    nothing. *)
Theorem export_std_files_default (data_arr : list pathway) (weights : list Q)
    (cluster_labels : list Z) (out_dir : string) (fs : store) (m : Z) :
  length data_arr = length cluster_labels →
  length weights = length cluster_labels →
  Forall (λ p, p ≠ []) data_arr →
  py_max cluster_labels = Ok m →
  ((∀ k, 0 ≤ k ≤ m → k ∈ cluster_labels) →
   ∃ lines,
     export_std_files data_arr weights cluster_labels None out_dir fs
     = (Ok (), <[(rsplit1_head out_dir +:+ "/representative_segments.txt")%string
                 := TextFile lines]> fs) ∧
     Z.of_nat (length lines) = Z.max 0 (m + 1)) ∧
  (¬ (∀ k, 0 ≤ k ≤ m → k ∈ cluster_labels) →
   export_std_files data_arr weights cluster_labels None out_dir fs
   = (Raise ValueError, fs)).
Proof.
  intros Hd Hw Hne Hmax. unfold export_std_files, determine_clusters.
  rewrite Hmax. cbn. split.
  - intros Hall.
    destruct (export_loop_labelled data_arr weights cluster_labels (py_range (m + 1)))
      as (lines & -> & Hlen); [done..| |].
    { apply Forall_forall. intros k Hk%elem_of_py_range. apply Hall. lia. }
    exists lines. split; [done|]. rewrite Hlen.
    unfold py_range. rewrite length_fmap, length_seq. lia.
  - intros Hnot. rewrite export_loop_unlabelled; [done..|].
    apply not_Forall_Exists; [apply _|].
    rewrite Forall_forall. intros Hall. apply Hnot.
    intros k Hk. apply Hall, elem_of_py_range. lia.
Qed.

(** The theorem on three pathways with the labels 0, 1 and 0. *)
Lemma export_std_files_default_witness :
  ∃ lines,
    export_std_files (rep_pathways ++ [[fr 1 2 0 1]]) (rep_weights ++ [1%Q]) [0; 1; 0]
      None "succ_traj" ∅
    = (Ok (), <[(rsplit1_head "succ_traj" +:+ "/representative_segments.txt")%string
                := TextFile lines]> ∅) ∧
    Z.of_nat (length lines) = Z.max 0 (1 + 1).
Proof.
  apply (export_std_files_default (rep_pathways ++ [[fr 1 2 0 1]]) (rep_weights ++ [1%Q])
           [0; 1; 0] "succ_traj" ∅ 1).
  - reflexivity.
  - reflexivity.
  - repeat constructor; discriminate.
  - reflexivity.
  - intros k Hk. assert (k = 0 ∨ k = 1) as [-> | ->] by lia.
    + by left.
    + right. by left.
Defined.

(** ** Statistics of the clusters *)

Section Statistics.
Implicit Types pairs front : list (Z * Q).
Implicit Types st : gmap Z Q * gmap Z Z.

Lemma elem_of_py_range_from a b j : j ∈ py_range_from a b ↔ a ≤ j < b.
Proof.
  unfold py_range_from. rewrite list_elem_of_fmap. split.
  - intros (i & -> & Hi%elem_of_seq). lia.
  - intros Hj. exists (Z.to_nat (j - a)). split; [lia|]. apply elem_of_seq. lia.
Qed.

Lemma stats_init_lookup (js : list Z) st j :
  (foldl (λ st j, (<[j := 0%Q]> st.1, <[j := 0]> st.2)) st js).1 !! j
  = (if decide (j ∈ js) then Some 0%Q else st.1 !! j) ∧
  (foldl (λ st j, (<[j := 0%Q]> st.1, <[j := 0]> st.2)) st js).2 !! j
  = (if decide (j ∈ js) then Some 0 else st.2 !! j).
Proof.
  revert st. induction js as [|k js IH]; intros st.
  { cbn. by rewrite !decide_False by apply not_elem_of_nil. }
  cbn [foldl]. destruct (IH (<[k := 0%Q]> st.1, <[k := 0]> st.2)) as [-> ->].
  cbn [fst snd]. destruct (decide (j ∈ js)) as [Hin|Hnin].
  - by rewrite !decide_True by by right.
  - destruct (decide (j = k)) as [->|Hne].
    + rewrite !decide_True by by left. by rewrite !lookup_insert_eq.
    + rewrite !decide_False by (intros [?|?]%elem_of_cons; done).
      by rewrite !lookup_insert_ne.
Qed.

Lemma stats_init_spec nclusters :
  stats_of nclusters []
    (foldl (λ st j, (<[j := 0%Q]> st.1, <[j := 0]> st.2)) (∅, ∅)
       (py_range_from 1 (nclusters + 1))).
Proof.
  intros j. destruct (stats_init_lookup (py_range_from 1 (nclusters + 1)) (∅, ∅) j)
    as [-> ->].
  destruct (decide (1 ≤ j ≤ nclusters)) as [Hj|Hj].
  - rewrite !decide_True by (apply elem_of_py_range_from; lia). done.
  - rewrite !decide_False by (rewrite elem_of_py_range_from; lia). done.
Qed.

Lemma cluster_pairs_snoc front cl weight j :
  cluster_pairs (front ++ [(cl, weight)]) j
  = cluster_pairs front j ++ (if decide (cl = j) then [(cl, weight)] else []).
Proof.
  unfold cluster_pairs. rewrite filter_app, filter_cons, filter_nil. cbn.
  by destruct (decide (cl = j)).
Qed.

Lemma stats_step_spec nclusters front st cl weight :
  stats_of nclusters front st →
  match stats_step st (cl, weight) with
  | Ok st' => 1 ≤ cl ≤ nclusters ∧ stats_of nclusters (front ++ [(cl, weight)]) st'
  | Raise e => e = KeyError ∧ ¬ 1 ≤ cl ≤ nclusters
  end.
Proof.
  intros Hst. destruct st as [fd counts]. unfold stats_step, getkey.
  destruct (Hst cl) as [Hfd Hc]. cbn [fst snd] in *. rewrite Hfd.
  destruct (decide (1 ≤ cl ≤ nclusters)) as [Hcl|Hcl]; [|done].
  cbn. rewrite Hc. cbn. split; [done|].
  intros j. destruct (Hst j) as [Hfdj Hcj]. cbn [fst snd] in *.
  unfold cluster_weight, cluster_count, sum_weights.
  rewrite cluster_pairs_snoc.
  destruct (decide (cl = j)) as [->|Hne].
  - rewrite !lookup_insert_eq, !decide_True by done.
    rewrite fmap_app, foldl_app, length_app. cbn.
    split; [done|]. f_equal. lia.
  - rewrite !lookup_insert_ne by done. rewrite app_nil_r. by rewrite Hfdj, Hcj.
Qed.

Lemma stats_loop_spec nclusters front pairs st :
  stats_of nclusters front st →
  match stats_loop st pairs with
  | Ok st' => Forall (λ p, 1 ≤ p.1 ≤ nclusters) pairs ∧
              stats_of nclusters (front ++ pairs) st'
  | Raise e => e = KeyError ∧ Exists (λ p, ¬ 1 ≤ p.1 ≤ nclusters) pairs
  end.
Proof.
  revert front st. induction pairs as [|[cl weight] pairs IH]; intros front st Hst.
  { cbn. by rewrite app_nil_r. }
  cbn [stats_loop].
  pose proof (stats_step_spec nclusters front st cl weight Hst) as Hstep.
  destruct (stats_step st (cl, weight)) as [st1|e]; cbn.
  - destruct Hstep as [Hcl Hst1]. specialize (IH _ _ Hst1).
    destruct (stats_loop st1 pairs) as [st'|e].
    + destruct IH as [Hall Hst']. split; [by constructor|].
      by rewrite <-app_assoc in Hst'.
    + destruct IH as [-> Hex]. split; [done|]. by right.
  - destruct Hstep as [-> Hcl]. split; [done|]. by left.
Qed.
End Statistics.

(** X13. [report_statistics] pairs labels and weights with [zip] (what is
    beyond the shorter of the two is ignored).  It raises [KeyError], and
    nothing else, exactly when a paired label lies outside
    [1 .. nclusters]; otherwise its keys are [1 .. nclusters], and cluster
    [j] is reported with the sum of the weights of the pathways labelled
    [j], added from left to right starting from 0, and with their
    number. *)
Theorem report_statistics_outcomes (nclusters : Z) (cluster_labels : list Z)
    (weights : list Q) :
  match report_statistics nclusters cluster_labels weights with
  | Ok (final_dictionary, counts) =>
      Forall (λ p, 1 ≤ p.1 ≤ nclusters) (zip cluster_labels weights) ∧
      ∀ j, final_dictionary !! j
           = (if decide (1 ≤ j ≤ nclusters)
              then Some (cluster_weight (zip cluster_labels weights) j) else None) ∧
           counts !! j
           = (if decide (1 ≤ j ≤ nclusters)
              then Some (cluster_count (zip cluster_labels weights) j) else None)
  | Raise e =>
      e = KeyError ∧ Exists (λ p, ¬ 1 ≤ p.1 ≤ nclusters) (zip cluster_labels weights)
  end.
Proof.
  unfold report_statistics. cbn zeta.
  pose proof (stats_loop_spec nclusters [] (zip cluster_labels weights) _
                (stats_init_spec nclusters)) as H.
  destruct (stats_loop _ _) as [[fd counts]|e]; [|done].
  destruct H as [Hall Hst]. split; [done|]. exact Hst.
Qed.

Section Totals.
Implicit Types pairs front : list (Z * Q).
Implicit Types js : list Z.









End Totals.



(** ** Reassignment with the states as they are *)

Section Copy.
Implicit Types pathways : list pathway.
Implicit Types traj flipped : pathway.

Lemma copy_inner_spec flipped pathways idx idx2 traj :
  pathways !! idx = Some traj →
  (idx2 + length flipped ≤ length traj)%nat →
  copy_inner pathways idx idx2 flipped
  = Ok (<[idx := take idx2 traj ++ flipped ++ drop (idx2 + length flipped) traj]> pathways).
Proof.
  revert pathways idx2 traj.
  induction flipped as [|val2 flipped IH]; intros pathways idx2 traj Hidx Hlen.
  - cbn. rewrite Nat.add_0_r, take_drop. by rewrite list_insert_id.
  - cbn [copy_inner length] in *.
    unfold setitem2. rewrite Hidx, decide_True by lia. cbn.
    rewrite (IH _ (S idx2) (<[idx2 := val2]> traj)).
    + rewrite list_insert_insert_eq. do 2 f_equal.
      rewrite (take_S_r _ _ val2) by (apply list_lookup_insert_eq; lia).
      rewrite take_insert_ge by done.
      rewrite drop_insert_lt by lia.
      rewrite <-app_assoc. cbn. by rewrite Nat.add_succ_r.
    + apply list_lookup_insert_eq. by eapply lookup_lt_Some.
    + rewrite length_insert. lia.
Qed.

Lemma copy_outer_spec data front rows :
  Forall2 (λ val traj, (length val ≤ length traj)%nat) data rows →
  copy_outer (front ++ rows) (length front) data
  = Ok (front ++ zip_with copy_row data rows).
Proof.
  intros Hfit. revert front.
  induction Hfit as [|val traj data rows Hlen _ IH]; intros front.
  { reflexivity. }
  cbn [copy_outer zip_with].
  rewrite (copy_inner_spec _ _ _ _ traj).
  - cbn. rewrite length_reverse, take_0.
    replace (length front) with (length front + 0)%nat at 1 by lia.
    rewrite insert_app_r. cbn [insert list_insert app].
    rewrite (cons_middle _ front rows), app_assoc.
    replace (S (length front)) with (length (front ++ [copy_row val traj]))
      by (rewrite length_app; simpl; lia).
    rewrite IH. by rewrite <-app_assoc.
  - by apply list_lookup_middle.
  - rewrite length_reverse. lia.
Qed.

(** The copy loops on the array of [load_data]. *)
Lemma copy_outer_loaded data pathways0 :
  load_data data = Ok (data, pathways0) →
  copy_outer pathways0 0 data = Ok (zip_with copy_row data pathways0).
Proof.
  intros (_ & _ & ->)%load_data_inv.
  apply (copy_outer_spec data []).
  apply rows_fit, Forall_forall. intros val Hval.
  apply max_list_elem_of_le. by apply list_elem_of_fmap_2.
Qed.

Lemma copy_row_frames val (L : nat) naux step :
  step ∈ copy_row val (replicate L (zero_frame naux)) →
  step = zero_frame naux ∨ step ∈ val.
Proof.
  unfold copy_row. intros [Hin|Hin]%elem_of_app.
  - right. by rewrite elem_of_reverse in Hin.
  - left. apply subseteq_drop in Hin. by eapply elem_of_replicate_inv.
Qed.
End Copy.

Section Digits.
Implicit Types d : gmap Z pystr.

Lemma str_inj (s1 s2 : string) : str s1 = str s2 → s1 = s2.
Proof.
  revert s2. induction s1 as [|c1 s1 IH]; intros [|c2 s2]; cbn; try done.
  intros [= Hc Hs]. f_equal; [|by apply IH].
  apply (f_equal ascii_of_N) in Hc. by rewrite !ascii_N_embedding in Hc.
Qed.

Lemma str_of_int_inj (k1 k2 : Z) : str_of_int k1 = str_of_int k2 → k1 = k2.
Proof. intros H%str_inj. by apply (inj pretty) in H. Qed.

Lemma lookup_digits d (idxs : list Z) k :
  foldl (λ d idx, <[idx := str_of_int idx]> d) d idxs !! k
  = if decide (k ∈ idxs) then Some (str_of_int k) else d !! k.
Proof.
  revert d. induction idxs as [|idx idxs IH]; intros d.
  - cbn. by rewrite decide_False by apply not_elem_of_nil.
  - cbn [foldl]. rewrite IH.
    destruct (decide (k ∈ idxs)) as [Hin|Hnin].
    + by rewrite decide_True by by right.
    + destruct (decide (k = idx)) as [->|Hne].
      * rewrite decide_True by by left. by rewrite lookup_insert_eq.
      * rewrite decide_False by (intros [?|?]%elem_of_cons; done).
        by rewrite lookup_insert_ne.
Qed.

(** A dictionary with the keys [0 .. n - 1]. *)
Lemma dictionary_keys d (n : Z) :
  0 ≤ n →
  (∀ k, is_Some (d !! k) ↔ 0 ≤ k < n) →
  indexed_from_zero d ∧ len_dict d = n.
Proof.
  intros Hn Hkeys.
  assert (Hdom : dom d = list_to_set (py_range n)).
  { apply set_eq. intros k.
    by rewrite elem_of_dom, elem_of_list_to_set, elem_of_py_range, Hkeys. }
  assert (Hsize : len_dict d = n).
  { unfold len_dict. rewrite <-size_dom, Hdom.
    rewrite size_list_to_set by apply NoDup_py_range.
    by apply length_py_range. }
  split; [|done]. unfold indexed_from_zero. by rewrite Hsize.
Qed.

(** The dictionary built by [reassign_identity] from the empty one. *)
Lemma identity_dictionary (n_states : Z) :
  0 ≤ n_states →
  let dictionary :=
    <[n_states := str "!"]>
      (foldl (λ d idx, <[idx := str_of_int idx]> d) (∅ : gmap Z pystr)
         (py_range n_states)) in
  (∀ k, 0 ≤ k < n_states → dictionary !! k = Some (str_of_int k)) ∧
  dictionary !! n_states = Some (str "!") ∧
  indexed_from_zero dictionary ∧
  len_dict dictionary - 1 = n_states.
Proof.
  intros Hn dictionary.
  assert (Hlook : ∀ k, dictionary !! k =
            if decide (k = n_states) then Some (str "!")
            else if decide (0 ≤ k < n_states) then Some (str_of_int k) else None).
  { intros k. unfold dictionary. rewrite lookup_insert.
    destruct (decide (n_states = k)) as [->|Hne].
    - by rewrite decide_True.
    - rewrite decide_False by done. rewrite lookup_digits.
      destruct (decide (k ∈ py_range n_states)) as [Hin|Hnin].
      + rewrite decide_True; [done|]. by apply elem_of_py_range.
      + rewrite decide_False; [done|]. by rewrite <-elem_of_py_range. }
  destruct (dictionary_keys dictionary (n_states + 1) ltac:(lia)) as [Hidx Hlen].
  { intros k. rewrite Hlook. repeat case_decide; split; intros Hk;
      try (by eexists); try lia; by destruct Hk. }
  split_and!; [|by rewrite Hlook, decide_True|done|lia].
  intros k Hk. rewrite Hlook, decide_False, decide_True by lia. done.
Qed.
End Digits.

Section Identity.
Implicit Types data pathways : list pathway.

Lemma py_max_elem_of (l : list Z) m : py_max l = Ok m → m ∈ l.
Proof.
  destruct l as [|k ks]; [done|]. intros [= <-]. apply foldl_Zmax_spec.
Qed.

Lemma py_max_is_Ok (l : list Z) : l ≠ [] → ∃ m, py_max l = Ok m.
Proof. destruct l as [|k ks]; [done|]. intros _. by eexists. Qed.

(** The first row of a loaded array is not empty. *)
Lemma loaded_rows_nonempty data pathways0 (row : pathway → pathway → list frame) :
  load_data data = Ok (data, pathways0) →
  (∀ val traj, length (row val traj) = (length val `max` length traj)%nat) →
  state_id <$> concat (zip_with row data pathways0) ≠ [].
Proof.
  intros (_ & (f & p & rest & ->) & ->)%load_data_inv Hrow.
  cbn [length replicate zip_with concat].
  intros Hnil. apply (f_equal length) in Hnil.
  rewrite length_fmap, length_app, Hrow in Hnil. cbn in Hnil. lia.
Qed.

Lemma length_copy_row (val traj : pathway) :
  length (copy_row val traj) = (length val `max` length traj)%nat.
Proof. unfold copy_row. rewrite length_app, length_reverse, length_drop. lia. Qed.

(** The run of [reassign_identity] on loaded data. *)
Lemma reassign_identity_loaded data pathways0 :
  load_data data = Ok (data, pathways0) →
  ∃ m, py_max (state_id <$> concat (zip_with copy_row data pathways0)) = Ok m ∧
       reassign_identity data pathways0 ∅
       = Ok (zip_with copy_row data pathways0,
             <[m + 1 := str "!"]>
               (foldl (λ d idx, <[idx := str_of_int idx]> d) (∅ : gmap Z pystr)
                  (py_range (m + 1)))).
Proof.
  intros Hload.
  destruct (py_max_is_Ok (state_id <$> concat (zip_with copy_row data pathways0)))
    as [m Hm].
  { eapply loaded_rows_nonempty; [done|]. apply length_copy_row. }
  exists m. split; [done|].
  unfold reassign_identity. rewrite (copy_outer_loaded _ _ Hload). cbn.
  rewrite Hm. reflexivity.
Qed.

Lemma copied_frames data pathways0 step :
  load_data data = Ok (data, pathways0) →
  step ∈ concat (zip_with copy_row data pathways0) →
  (∃ naux, step = zero_frame naux) ∨ step ∈ concat data.
Proof.
  intros (_ & _ & ->)%load_data_inv (row & Hrow & Hstep)%elem_of_concat.
  apply elem_of_zip_with in Hrow as (val & traj & -> & Hval & Htraj).
  apply elem_of_replicate_inv in Htraj as ->.
  apply copy_row_frames in Hstep as [->|Hstep]; [left; by eexists|].
  right. apply elem_of_concat. by exists val.
Qed.
End Identity.

(** X15. On data loaded by [load_data] whose states are not negative,
    [reassign_identity] succeeds; every row of the array holds its pathway,
    flipped, then the zero frames left by [load_data], the states as they
    are in the data; every state of the array is a key below the unknown
    index; the dictionary maps every index [0 .. n_states - 1] to its
    decimal digits [str(index)], distinct indices to distinct strings,
    and holds "!" at [n_states], the highest index. *)
Theorem reassign_identity_spec (data pathways0 : list pathway) :
  load_data data = Ok (data, pathways0) →
  Forall (λ step, 0 ≤ state_id step) (concat data) →
  ∃ pathways dictionary n_states,
    reassign_identity data pathways0 ∅ = Ok (pathways, dictionary) ∧
    pathways = zip_with copy_row data pathways0 ∧
    (∀ step, step ∈ concat pathways → 0 ≤ state_id step < n_states) ∧
    (∀ k, 0 ≤ k < n_states → dictionary !! k = Some (str_of_int k)) ∧
    (∀ k1 k2, 0 ≤ k1 < n_states → 0 ≤ k2 < n_states →
              dictionary !! k1 = dictionary !! k2 → k1 = k2) ∧
    dictionary !! n_states = Some (str "!") ∧
    indexed_from_zero dictionary ∧
    len_dict dictionary - 1 = n_states.
Proof.
  intros Hload Hstates.
  destruct (reassign_identity_loaded data pathways0 Hload) as (m & Hm & Hrun).
  assert (Hnonneg : ∀ step, step ∈ concat (zip_with copy_row data pathways0) →
                    0 ≤ state_id step).
  { intros step [[naux ->]|Hin]%(copied_frames _ _ _ Hload); [done|].
    rewrite Forall_forall in Hstates. by apply Hstates. }
  assert (0 ≤ m) as Hm0.
  { apply py_max_elem_of, list_elem_of_fmap in Hm as (step & -> & Hstep).
    by apply Hnonneg. }
  destruct (identity_dictionary (m + 1) ltac:(lia)) as (Hlook & Hunk & Hidx & Hlen).
  eexists _, _, (m + 1). split_and!; [exact Hrun|done| |exact Hlook| |done..].
  - intros step Hstep. split; [by apply Hnonneg|].
    assert (state_id step ≤ m); [|lia].
    eapply py_max_ge; [exact Hm|]. by apply list_elem_of_fmap_2.
  - intros k1 k2 Hk1 Hk2. rewrite !Hlook by done. intros [= Heq].
    by apply str_of_int_inj.
Qed.

(** The theorem on a pathway of two frames. *)
Lemma reassign_identity_spec_witness :
  Forall (λ step, 0 ≤ state_id step) (concat segid_data) ∧
  ∃ pathways dictionary,
    reassign_identity segid_data [[zero_frame 1; zero_frame 1]] ∅
    = Ok (pathways, dictionary) ∧
    pathways = zip_with copy_row segid_data [[zero_frame 1; zero_frame 1]] ∧
    indexed_from_zero dictionary.
Proof.
  assert (Hst : Forall (λ step, 0 ≤ state_id step) (concat segid_data))
    by (repeat constructor; cbn; lia).
  split; [exact Hst|].
  destruct (reassign_identity_spec segid_data [[zero_frame 1; zero_frame 1]] eq_refl Hst)
    as (pathways & dictionary & n_states & Hrun & Hrows & _ & _ & _ & _ & Hidx & _).
  by exists pathways, dictionary.
Defined.

(** X16. The symbols of [reassign_identity] are decimal numbers of several
    characters from state 10 on, and the strings are joined without a
    separator: once a state is 10 or more, the different state sequences
    [1, 0] and [10] are both compared as "10", and their distance is 0. *)
Theorem reassign_identity_ambiguous (data pathways0 pathways : list pathway)
    (dictionary : gmap Z pystr) :
  reassign_identity data pathways0 ∅ = Ok (pathways, dictionary) →
  Exists (λ step, 10 ≤ state_id step) (concat pathways) →
  join_states dictionary [1; 0] = Ok (str "10") ∧
  join_states dictionary [10] = Ok (str "10") ∧
  ∃ q, calc_dist [1; 0] [10] dictionary = Ok q ∧ (q == 0)%Q.
Proof.
  intros Hrun Hex. unfold reassign_identity in Hrun.
  destruct (copy_outer pathways0 0 data) as [rows|e]; [|done].
  cbn [mbind result_bind] in Hrun.
  destruct (py_max (state_id <$> concat rows)) as [m|e] eqn:Hm; [|done].
  cbn [mbind result_bind] in Hrun. injection Hrun as <- <-.
  apply Exists_exists in Hex as (step & Hstep & Hten).
  assert (10 ≤ m) as Hm10.
  { etrans; [exact Hten|]. eapply py_max_ge; [exact Hm|]. by apply list_elem_of_fmap_2. }
  destruct (identity_dictionary (m + 1) ltac:(lia)) as (Hlook & _ & _ & Hlen).
  set (dictionary := <[m + 1 := str "!"]> _) in *.
  assert (H1 : join_states dictionary [1; 0] = Ok (str "10")).
  { cbn. unfold getitem. rewrite !Hlook by lia. reflexivity. }
  assert (H2 : join_states dictionary [10] = Ok (str "10")).
  { cbn. unfold getitem. rewrite !Hlook by lia. reflexivity. }
  split_and!; [done..|].
  assert (Hq : calc_dist [1; 0] [10] dictionary
               = similarity_distance (pylcs.lcs_length_ (str "10") (str "10"))
                   (length (str "10") + length (str "10"))).
  { apply calc_dist_strings; [| |reflexivity..]; unfold comparison_string;
      by rewrite filter_Forall_id by (repeat constructor; lia). }
  eexists. split; [etrans; [exact Hq|reflexivity] | reflexivity].
Qed.

(** The theorem on a pathway through state 10. *)
Lemma reassign_identity_ambiguous_witness :
  ∃ pathways dictionary,
    reassign_identity [[fr 1 0 10 (1 # 2)]] [[zero_frame 1]] ∅ = Ok (pathways, dictionary) ∧
    join_states dictionary [1; 0] = Ok (str "10") ∧
    join_states dictionary [10] = Ok (str "10") ∧
    ∃ q, calc_dist [1; 0] [10] dictionary = Ok q ∧ (q == 0)%Q.
Proof.
  destruct (reassign_identity [[fr 1 0 10 (1 # 2)]] [[zero_frame 1]] ∅)
    as [[pathways dictionary]|e] eqn:Hrun.
  - exists pathways, dictionary. split; [done|].
    apply (reassign_identity_ambiguous _ _ _ _ Hrun).
    assert (pathways = [[fr 1 0 10 (1 # 2)]]) as ->.
    { vm_compute in Hrun. by injection Hrun as <- _. }
    by left.
  - exfalso. vm_compute in Hrun. discriminate Hrun.
Defined.

(** ** Reassignment with state labels *)

Section StateLabels.
Implicit Types d : gmap Z pystr.
Implicit Types state_labels : list pystr.

Lemma enumerate_snoc {A} (l : list A) x :
  enumerate (l ++ [x]) = enumerate l ++ [(Z.of_nat (length l), x)].
Proof.
  unfold enumerate. rewrite imap_app. cbn. by rewrite Nat.add_0_r.
Qed.

Lemma lookup_labels d state_labels k :
  foldl (λ d iv, <[iv.1 := iv.2]> d) d (enumerate state_labels) !! k
  = if decide (0 ≤ k < Z.of_nat (length state_labels))
    then state_labels !! Z.to_nat k else d !! k.
Proof.
  induction state_labels as [|label state_labels IH] using rev_ind.
  { cbn. by rewrite decide_False by lia. }
  rewrite enumerate_snoc, foldl_app. cbn [foldl fst snd].
  rewrite length_app. cbn [length].
  destruct (decide (k = Z.of_nat (length state_labels))) as [->|Hne].
  - rewrite lookup_insert_eq, decide_True by lia.
    rewrite Nat2Z.id, lookup_app_r by lia. by rewrite Nat.sub_diag.
  - rewrite lookup_insert_ne by done. rewrite IH.
    destruct (decide (0 ≤ k < Z.of_nat (length state_labels))) as [Hk|Hk].
    + rewrite decide_True by lia. by rewrite lookup_app_l by lia.
    + by rewrite decide_False by lia.
Qed.
End StateLabels.

(** X17. On data loaded by [load_data], [reassign_statelabel] with the
    labels read from the assignment file copies every pathway, flipped,
    into its row and changes no state; starting from an empty dictionary
    it maps index [k] to the [k]-th label and the number of labels to "!",
    the highest index.  The states of the data are not looked at. *)
Theorem reassign_statelabel_spec (data pathways0 : list pathway)
    (state_labels : list pystr) :
  load_data data = Ok (data, pathways0) →
  ∃ pathways dictionary,
    reassign_statelabel data pathways0 ∅ state_labels = Ok (pathways, dictionary) ∧
    pathways = zip_with copy_row data pathways0 ∧
    (∀ k label, state_labels !! k = Some label →
                dictionary !! Z.of_nat k = Some label) ∧
    dictionary !! Z.of_nat (length state_labels) = Some (str "!") ∧
    indexed_from_zero dictionary ∧
    len_dict dictionary - 1 = Z.of_nat (length state_labels).
Proof.
  intros Hload. unfold reassign_statelabel.
  rewrite (copy_outer_loaded _ _ Hload). cbn [mbind result_bind].
  set (labels := foldl (λ d iv, <[iv.1 := iv.2]> d) (∅ : gmap Z pystr)
                   (enumerate state_labels)).
  assert (Hlabels : ∀ k, labels !! k =
            if decide (0 ≤ k < Z.of_nat (length state_labels))
            then state_labels !! Z.to_nat k else None).
  { intros k. unfold labels. by rewrite lookup_labels, lookup_empty. }
  assert (Hsize : len_dict labels = Z.of_nat (length state_labels)).
  { apply dictionary_keys; [lia|]. intros k. rewrite Hlabels.
    destruct (decide (0 ≤ k < Z.of_nat (length state_labels))) as [Hk|Hk].
    - split; [done|]. intros _. apply lookup_lt_is_Some. lia.
    - split; [by intros [? ?]|done]. }
  rewrite Hsize.
  set (dictionary := <[Z.of_nat (length state_labels) := str "!"]> labels).
  assert (Hlook : ∀ k, dictionary !! k =
            if decide (k = Z.of_nat (length state_labels)) then Some (str "!")
            else labels !! k).
  { intros k. unfold dictionary. rewrite lookup_insert.
    destruct (decide (Z.of_nat (length state_labels) = k)) as [<-|Hne].
    - by rewrite decide_True.
    - by rewrite decide_False. }
  destruct (dictionary_keys dictionary (Z.of_nat (length state_labels) + 1)
              ltac:(lia)) as [Hidx Hlen].
  { intros k. rewrite Hlook, Hlabels.
    destruct (decide (k = Z.of_nat (length state_labels))) as [->|Hne].
    - split; [lia | by eexists].
    - destruct (decide (0 ≤ k < Z.of_nat (length state_labels))) as [Hk|Hk].
      + split; [lia|]. intros _. apply lookup_lt_is_Some. lia.
      + split; [by intros [? ?] | lia]. }
  exists (zip_with copy_row data pathways0), dictionary.
  split_and!; [done|done| |by rewrite Hlook, decide_True|done|lia].
  intros k label Hk. pose proof (lookup_lt_Some _ _ _ Hk).
  rewrite Hlook, decide_False, Hlabels, decide_True by lia.
  by rewrite Nat2Z.id.
Qed.

(** The theorem with the labels "unbound" and "bound". *)
Lemma reassign_statelabel_spec_witness :
  ∃ pathways dictionary,
    reassign_statelabel segid_data [[zero_frame 1; zero_frame 1]] ∅
      [str "unbound"; str "bound"] = Ok (pathways, dictionary) ∧
    pathways = zip_with copy_row segid_data [[zero_frame 1; zero_frame 1]] ∧
    dictionary !! 2 = Some (str "!") ∧
    indexed_from_zero dictionary.
Proof.
  destruct (reassign_statelabel_spec segid_data [[zero_frame 1; zero_frame 1]]
              [str "unbound"; str "bound"] eq_refl)
    as (pathways & dictionary & Hrun & Hrows & _ & Hunk & Hidx & _).
  by exists pathways, dictionary.
Defined.

(** ** The custom reassignment *)

Section Custom.
Implicit Types pathways : list pathway.
Implicit Types traj flipped : pathway.

Lemma set_state_id_id (step : frame) : set_state_id step (state_id step) = step.
Proof. by destruct step. Qed.

Lemma custom_frame_unfold first_contact idx2 val2 :
  (let val2' :=
     if decide (state_id val2 ∈ [1; 3; 4; 6; 7; 9]) then set_state_id val2 0
     else if decide (state_id val2 ∈ [2; 5; 8]) then set_state_id val2 1
     else val2 in
   if decide (idx2 < first_contact)%nat then set_state_id val2' 2 else val2')
  = custom_frame first_contact idx2 val2.
Proof.
  unfold custom_frame, merge_state. cbn zeta.
  destruct (decide (idx2 < first_contact)%nat);
    repeat case_decide; try done; by rewrite set_state_id_id.
Qed.

Lemma setitem2_Ok pathways idx idx2 traj (val2 : frame) :
  pathways !! idx = Some traj → (idx2 < length traj)%nat →
  setitem2 pathways idx idx2 val2 = Ok (<[idx := <[idx2 := val2]> traj]> pathways).
Proof. intros Hidx Hlt. unfold setitem2. by rewrite Hidx, decide_True. Qed.


Lemma custom_inner_spec flipped pathways idx idx2 first_contact traj :
  pathways !! idx = Some traj →
  (idx2 + length flipped ≤ length traj)%nat →
  custom_inner pathways idx idx2 first_contact flipped
  = Ok (<[idx := take idx2 traj
                 ++ imap (λ k, custom_frame first_contact (idx2 + k)) flipped
                 ++ drop (idx2 + length flipped) traj]> pathways).
Proof.
  revert pathways idx2 traj.
  induction flipped as [|val2 flipped IH]; intros pathways idx2 traj Hidx Hlen.
  - cbn. rewrite Nat.add_0_r, take_drop. by rewrite list_insert_id.
  - cbn [custom_inner length] in *.
    pose proof (custom_frame_unfold first_contact idx2 val2) as Hframe.
    cbn zeta in Hframe. rewrite Hframe. clear Hframe.
    rewrite (setitem2_Ok _ _ _ traj) by (done || lia).
    cbn [mbind result_bind].
    rewrite (setitem2_Ok _ _ _ (<[idx2 := val2]> traj));
      [|apply list_lookup_insert_eq; by eapply lookup_lt_Some
       |rewrite length_insert; lia].
    cbn [mbind result_bind].
    rewrite !list_insert_insert_eq.
    rewrite (IH _ (S idx2) (<[idx2 := custom_frame first_contact idx2 val2]> traj)).
    + rewrite list_insert_insert_eq. do 2 f_equal.
      rewrite (take_S_r _ _ (custom_frame first_contact idx2 val2))
        by (apply list_lookup_insert_eq; lia).
      rewrite take_insert_ge by done.
      rewrite drop_insert_lt by lia.
      rewrite <-app_assoc. cbn [imap app]. rewrite Nat.add_0_r.
      rewrite Nat.add_succ_r. do 3 f_equal.
      apply imap_ext. intros k step _. cbn. f_equal. lia.
    + apply list_lookup_insert_eq. by eapply lookup_lt_Some.
    + rewrite length_insert. lia.
Qed.


Lemma first_contact_from_cases (flipped : list frame) (i : nat) :
  match first_contact_from i flipped with
  | Ok r => ∃ pre step post, flipped = pre ++ step :: post ∧
              r = (i + length pre)%nat ∧
              Forall (λ f, ¬ in_contact f) pre ∧ in_contact step
  | Raise e => e = IndexError ∧ Forall (λ f, ¬ in_contact f) flipped
  end.
Proof.
  revert i. induction flipped as [|step flipped IH]; intros i; cbn.
  { done. }
  destruct (Qlt_le_dec (column3 step) 5) as [Hlt|Hle].
  - exists [], step, flipped. split_and!; [done|cbn; lia|constructor|done].
  - specialize (IH (S i)). destruct (first_contact_from (S i) flipped) as [r|e].
    + destruct IH as (pre & step' & post & -> & -> & Hpre & Hstep).
      exists (step :: pre), step', post. split_and!; [done|cbn; lia| |done].
      constructor; [|done]. unfold in_contact. lra.
    + destruct IH as [-> Hall]. split; [done|].
      constructor; [|done]. unfold in_contact. lra.
Qed.
End Custom.

Section CustomOuter.
Implicit Types pathways data : list pathway.

Lemma custom_outer_spec data front rows :
  Forall2 (λ val traj : pathway, (length val ≤ length traj)%nat) data rows →
  Forall (λ val : pathway, Exists in_contact val) data →
  custom_outer (front ++ rows) (length front) data
  = Ok (front ++ zip_with custom_row data rows).
Proof.
  intros Hfit. revert front.
  induction Hfit as [|val traj data rows Hlen _ IH]; intros front Hcontact.
  { reflexivity. }
  apply Forall_cons in Hcontact as [Hval Hcontact].
  cbn [custom_outer zip_with]. cbn zeta.
  pose proof (first_contact_from_cases (reverse val) 0) as Hfc.
  unfold custom_row at 1, contact_index.
  destruct (first_contact_from 0 (reverse val)) as [fc|e].
  2:{ destruct Hfc as [_ Hnone]. exfalso.
      apply Exists_exists in Hval as (step & Hin & Hstep).
      rewrite Forall_forall in Hnone. apply (Hnone step); [|done].
      by rewrite elem_of_reverse. }
  cbn [mbind result_bind].
  rewrite (custom_inner_spec _ _ _ _ _ traj).
  - cbn [mbind result_bind]. rewrite length_reverse, take_0.
    replace (length front) with (length front + 0)%nat at 1 by lia.
    rewrite insert_app_r. cbn [insert list_insert app].
    rewrite (cons_middle _ front rows), app_assoc.
    match goal with
    | |- custom_outer ((front ++ [?row]) ++ rows) _ _ = _ =>
        replace (S (length front)) with (length (front ++ [row]))
          by (rewrite length_app; simpl; lia)
    end.
    rewrite IH by done. by rewrite <-app_assoc.
  - by apply list_lookup_middle.
  - rewrite length_reverse. lia.
Qed.



Lemma custom_row_lookup_front (val traj : pathway) k step :
  reverse val !! k = Some step →
  custom_row val traj !! k
  = Some (custom_frame (contact_index (reverse val)) k step).
Proof.
  intros Hk. unfold custom_row.
  rewrite lookup_app_l by (rewrite length_imap; by eapply lookup_lt_Some).
  by rewrite list_lookup_imap, Hk.
Qed.

Lemma merge_state_range (s : Z) : 0 ≤ s ≤ 9 → 0 ≤ merge_state s ≤ 1.
Proof.
  intros Hs. unfold merge_state.
  assert (s = 0 ∨ s = 1 ∨ s = 2 ∨ s = 3 ∨ s = 4 ∨ s = 5 ∨ s = 6 ∨ s = 7
          ∨ s = 8 ∨ s = 9) as Hcases by lia.
  repeat (destruct Hcases as [->|Hcases]; [by vm_compute|]).
  subst s. by vm_compute.
Qed.
End CustomOuter.

Section CustomRun.
Implicit Types pathways data : list pathway.

(** The run of [reassign_custom] on loaded data. *)
Lemma reassign_custom_loaded data pathways0 (dictionary : gmap Z pystr) :
  load_data data = Ok (data, pathways0) →
  Forall (λ val : pathway, Exists in_contact val) data →
  reassign_custom data pathways0 dictionary
  = Ok (zip_with custom_row data pathways0, dictAB).
Proof.
  intros Hload Hcontact. unfold reassign_custom.
  assert (Hrun : custom_outer pathways0 0 data = Ok (zip_with custom_row data pathways0)).
  { apply load_data_inv in Hload as (_ & _ & ->).
    apply (custom_outer_spec data []); [|done].
    apply rows_fit, Forall_forall. intros val Hval.
    apply max_list_elem_of_le. by apply list_elem_of_fmap_2. }
  by rewrite Hrun.
Qed.

Lemma custom_row_frames (val : pathway) (L : nat) naux step :
  step ∈ custom_row val (replicate L (zero_frame naux)) →
  step = zero_frame naux ∨
  ∃ k val2, reverse val !! k = Some val2 ∧
            step = custom_frame (contact_index (reverse val)) k val2.
Proof.
  unfold custom_row. intros [Hin|Hin]%elem_of_app.
  - right. apply list_elem_of_lookup in Hin as [k Hk].
    rewrite list_lookup_imap in Hk.
    destruct (reverse val !! k) as [val2|] eqn:Hval2; [|done].
    injection Hk as <-. by exists k, val2.
  - left. apply subseteq_drop in Hin. by eapply elem_of_replicate_inv.
Qed.
End CustomRun.

(** X18. On data loaded by [load_data] in which every pathway has a frame
    with column 3 below 5, [reassign_custom] succeeds whatever dictionary it
    is handed, and returns the dictionary 0 -> "A", 1 -> "B", 2 -> "!".
    In row [i], the frame at index [k] of the flipped pathway keeps its
    other columns; its state is 2 before the first frame with column 3
    below 5, and from that frame on it is 0 for the states 1, 3, 4, 6, 7,
    9, 1 for the states 2, 5, 8, and unchanged otherwise.  With states in
    [0 .. 9] every state of the array is 0, 1 or 2. *)
Theorem reassign_custom_spec (data pathways0 : list pathway)
    (dictionary : gmap Z pystr) :
  load_data data = Ok (data, pathways0) →
  Forall (λ val : pathway, Exists in_contact val) data →
  ∃ pathways,
    reassign_custom data pathways0 dictionary = Ok (pathways, dictAB) ∧
    length pathways = length data ∧
    (∀ i val k step, data !! i = Some val → reverse val !! k = Some step →
       ∃ first_contact step',
         first_contact_from 0 (reverse val) = Ok first_contact ∧
         frame_at pathways i k = Some step' ∧
         iteration_id step' = iteration_id step ∧
         segment_id step' = segment_id step ∧
         auxdata step' = auxdata step ∧
         weight step' = weight step ∧
         state_id step'
         = if decide (k < first_contact)%nat then 2 else merge_state (state_id step)) ∧
    (Forall (λ step, 0 ≤ state_id step ≤ 9) (concat data) →
     Forall (λ step, 0 ≤ state_id step ≤ 2) (concat pathways)).
Proof.
  intros Hload Hcontact.
  exists (zip_with custom_row data pathways0).
  split; [by apply reassign_custom_loaded|].
  apply load_data_inv in Hload as (_ & _ & Hp0).
  set (naux := length (auxdata (default (zero_frame 0) (head data ≫= head)))) in *.
  set (L := max_list (length <$> data)) in *.
  assert (Hlen0 : length pathways0 = length data)
    by (rewrite Hp0; apply length_replicate).
  split_and!.
  - rewrite length_zip_with. lia.
  - intros i val k step Hval Hstep.
    pose proof (first_contact_from_cases (reverse val) 0) as Hfc.
    destruct (first_contact_from 0 (reverse val)) as [fc|e] eqn:Hfceq.
    2:{ destruct Hfc as [_ Hnone]. exfalso.
        rewrite Forall_forall in Hcontact.
        pose proof (Hcontact val (list_elem_of_lookup_2 _ _ _ Hval)) as Hex.
        apply Exists_exists in Hex as (f & Hin & Hf).
        rewrite Forall_forall in Hnone. apply (Hnone f); [|done].
        by rewrite elem_of_reverse. }
    exists fc, (custom_frame fc k step).
    split; [done|]. split; [|done].
    unfold frame_at. rewrite lookup_zip_with, Hval. cbn.
    destruct (lookup_lt_is_Some_2 pathways0 i) as [traj Htraj].
    { rewrite Hlen0. by eapply lookup_lt_Some. }
    rewrite Htraj. cbn. rewrite (custom_row_lookup_front _ _ _ _ Hstep).
    unfold contact_index. by rewrite Hfceq.
  - intros Hstates. apply Forall_forall.
    intros step (row & Hrow & Hstep)%elem_of_concat.
    apply elem_of_zip_with in Hrow as (val & traj & -> & Hval & Htraj).
    rewrite Hp0 in Htraj. apply elem_of_replicate_inv in Htraj as ->.
    apply custom_row_frames in Hstep as [->|(k & val2 & Hval2 & ->)]; [cbn; lia|].
    unfold custom_frame. cbn. case_decide; [lia|].
    assert (0 ≤ state_id val2 ≤ 9) as Hs.
    { rewrite Forall_forall in Hstates. apply Hstates, elem_of_concat.
      exists val. split; [done|].
      rewrite <-elem_of_reverse. by eapply list_elem_of_lookup_2. }
    pose proof (merge_state_range _ Hs). lia.
Qed.

(** The theorem on a pathway of two frames in contact. *)
Lemma reassign_custom_spec_witness :
  Forall (λ val : pathway, Exists in_contact val) segid_data ∧
  ∃ pathways,
    reassign_custom segid_data [[zero_frame 1; zero_frame 1]] ∅ = Ok (pathways, dictAB) ∧
    length pathways = length segid_data.
Proof.
  assert (Hc : Forall (λ val : pathway, Exists in_contact val) segid_data).
  { repeat constructor. }
  split; [exact Hc|].
  destruct (reassign_custom_spec segid_data [[zero_frame 1; zero_frame 1]] ∅ eq_refl Hc)
    as (pathways & Hrun & Hlen & _).
  by exists pathways.
Defined.



(** ** From the data to the distance matrix *)

Section GenDistMatrix.
Implicit Types pathways : list pathway.
Implicit Types d : gmap Z pystr.

(** A recomputed matrix holds the distance of the state columns of rows [i]
    and [j] at [(i, j)]. *)
Lemma gen_dist_matrix_entries pathways d file_name out_dir metric fs weights :
  mapM (pathway_weight metric d) pathways = Ok weights →
  Forall (comparable metric d) ((λ pathway : pathway, state_id <$> pathway) <$> pathways) →
  rectangular ((λ pathway : pathway, state_id <$> pathway) <$> pathways) →
  ∃ distmat,
    gen_dist_matrix pathways d file_name out_dir true metric fs
    = (Ok (distmat, weights), numpy_save file_name distmat fs) ∧
    square (length pathways) distmat ∧ symmetric distmat ∧
    zero_diagonal (length pathways) distmat ∧
    ∀ i j x y, pathways !! i = Some x → pathways !! j = Some y →
      ∃ q, distance metric d (state_id <$> x) (state_id <$> y) = Ok q ∧
           entry distmat i j = Some q.
Proof.
  intros Hws Hcmp Hrect.
  destruct (distance_matrix metric d _ Hcmp Hrect)
    as (m & Hm & Hsq & Hsym & Hdiag & Hentry).
  rewrite length_fmap in Hsq, Hdiag.
  exists m. split_and!; try done.
  - unfold gen_dist_matrix. cbn zeta. rewrite Hws, orb_true_r.
    unfold distance in Hm. destruct metric; by rewrite Hm.
  - intros i j x y Hx Hy. apply Hentry; rewrite list_lookup_fmap; by simplify_option_eq.
Qed.
End GenDistMatrix.

(** Rows of one length [L], at least one row and one column. *)
Lemma rectangular_uniform {B} (X : list (list B)) (L : nat) :
  X ≠ [] → (0 < L)%nat → Forall (λ x, length x = L) X → rectangular X.
Proof.
  destruct X as [|x X]; [done|]. intros _ HL [Hx HX]%Forall_cons. split.
  - intros ->. cbn in Hx. lia.
  - eapply Forall_impl; [exact HX|]. intros y Hy. cbn in Hy. congruence.
Qed.

(** An ASCII literal holds no surrogate. *)
Lemma str_encodable (s : string) : pylcs.utf8_encodable (str s) = true.
Proof.
  induction s as [|c s IH]; [done|].
  cbn [str]. unfold pylcs.utf8_encodable in *. cbn [forallb]. rewrite IH.
  rewrite andb_true_r. unfold pylcs.surrogate.
  pose proof (N_ascii_bounded c).
  apply negb_true_iff, andb_false_iff. left. apply N.leb_gt. lia.
Qed.

(** [chr(65 + s)] is a surrogate for [s] in [55231 .. 57278] only. *)
Lemma chr_encodable (k : Z) :
  0 ≤ k < 55231 ∨ 57278 < k →
  pylcs.utf8_encodable [Z.to_N (k + 65)] = true.
Proof.
  intros Hk. unfold pylcs.utf8_encodable, pylcs.surrogate. cbn [forallb].
  rewrite andb_true_r. apply negb_true_iff, andb_false_iff.
  destruct Hk as [Hk|Hk]; [left|right]; apply N.leb_gt; lia.
Qed.

Lemma join_states_encodable_seq (d : gmap Z pystr) (seq : list Z) (s : pystr) :
  Forall (λ x, ∃ sx, d !! x = Some sx ∧ pylcs.utf8_encodable sx = true) seq →
  join_states d seq = Ok s → pylcs.utf8_encodable s = true.
Proof.
  intros Hall. revert s. induction Hall as [|x seq (sx & Hx & Hsx) _ IH]; intros s.
  - by intros [= <-].
  - cbn [join_states]. unfold getitem. rewrite Hx. cbn [mbind result_bind].
    destruct (join_states d seq) as [rest|]; [|done]. cbn [mbind result_bind].
    intros [= <-]. by rewrite utf8_encodable_app, Hsx, (IH rest eq_refl).
Qed.

Section Rows.
Context (d : gmap Z pystr).
Implicit Types val traj front : pathway.
Implicit Types data : list pathway.

Lemma real_frames_row front (n : nat) naux :
  Forall (λ step, iteration_id step ≠ 0) front →
  real_frames (front ++ replicate n (zero_frame naux)) = front.
Proof.
  intros Hreal. unfold real_frames. rewrite filter_app.
  rewrite (filter_Forall_id _ _ Hreal).
  assert (filter (λ step, iteration_id step ≠ 0) (replicate n (zero_frame naux)) = [])
    as ->; [|by rewrite app_nil_r].
  induction n as [|n IH]; [done|]. cbn [replicate].
  rewrite filter_cons, decide_False by (intros Hne; by apply Hne). done.
Qed.

Lemma join_states_known (seq : list Z) :
  Forall (λ x, x < len_dict d - 1 → is_Some (d !! x)) seq →
  is_Ok (join_states d (filter (λ x, x < len_dict d - 1) seq)).
Proof.
  intros Hall.
  pose proof (join_states_cases d (filter (λ x, x < len_dict d - 1) seq)) as Hj.
  destruct (join_states d _) as [s|e]; [by eexists|].
  destruct Hj as [_ (x & [Hlt Hin]%list_elem_of_filter & Hnone)%Exists_exists].
  rewrite Forall_forall in Hall. destruct (Hall x Hin Hlt) as [? ?]. congruence.
Qed.

(** The padded row of a pathway, under the subsequence metric: its weight
    is that of the first frame of the pathway, its string is defined and
    not empty, and the padding does not show in it. *)
Lemma padded_row_subsequence val front (n : nat) naux :
  front_ok d front val →
  let row := expand_step d <$> (front ++ replicate n (zero_frame naux)) in
  pathway_weight true d row = Ok (head_weight val) ∧
  comparable true d (state_id <$> row) ∧
  filter (λ x, x < len_dict d - 1) (state_id <$> row)
  = filter (λ x, x < len_dict d - 1) (state_id <$> front).
Proof.
  intros (Hreal & Hkeys & pre & step & first & s & Hh & Hhead & Hw & Hlt & Hs & Hne) row.
  assert (Hfilter : filter (λ f, state_id f < len_dict d - 1) row
                    = filter (λ f, state_id f < len_dict d - 1) front).
  { unfold row. by rewrite filter_known_expand, real_frames_row. }
  assert (Hstates : filter (λ x, x < len_dict d - 1) (state_id <$> row)
                    = filter (λ x, x < len_dict d - 1) (state_id <$> front)).
  { unfold row. by rewrite filter_known_states, real_frames_row. }
  split_and!; [| |done].
  - unfold pathway_weight. rewrite Hfilter, Hh, filter_app, filter_cons, filter_nil.
    rewrite decide_True by done. unfold last_weight, head_weight.
    by rewrite last_snoc, Hhead, Hw.
  - unfold comparable. cbn [metric_string]. unfold comparison_string.
    rewrite Hstates.
    destruct (join_states_known (state_id <$> front)) as [str Hstr].
    { rewrite Forall_fmap. eapply Forall_impl; [exact Hkeys|].
      intros f Hf Hlt'. destruct (Hf Hlt') as (sf & -> & _). by eexists. }
    exists str. split; [done|]. split.
    2:{ apply (join_states_encodable_seq d _ _) in Hstr; [done|].
        apply Forall_forall. intros x [Hx Hin]%list_elem_of_filter.
        apply list_elem_of_fmap in Hin as (f & -> & Hf).
        rewrite Forall_forall in Hkeys. by apply Hkeys. }
    rewrite Hh, fmap_app, filter_app in Hstr. cbn [fmap list_fmap] in Hstr.
    rewrite filter_cons, filter_nil, decide_True in Hstr by done.
    rewrite join_states_app in Hstr.
    destruct (join_states d (filter _ (state_id <$> pre))) as [s1|]; [|done].
    cbn in Hstr. unfold getitem in Hstr. rewrite Hs in Hstr. cbn in Hstr.
    injection Hstr as <-. rewrite app_nil_r. by destruct s1, s.
Qed.

(** The padded rows make a 2-D array. *)
Lemma padded_rectangular data (h : pathway → list frame) (L : nat) naux :
  data ≠ [] →
  Forall (λ val, front_ok d (h val) val) data →
  Forall (λ val, length (h val) = length val ∧ (length val ≤ L)%nat) data →
  rectangular ((λ pathway : pathway, state_id <$> pathway)
                 <$> ((λ val : pathway,
                         expand_step d <$> (h val ++ replicate (L - length val)
                                                       (zero_frame naux)))
                        <$> data)).
Proof.
  intros Hdata Hfront Hlens.
  apply (rectangular_uniform _ L).
  - by destruct data.
  - destruct data as [|val data]; [done|].
    apply Forall_cons in Hfront as [(_ & _ & pre & step & ? & ? & Hh & _) _].
    apply Forall_cons in Hlens as [[Hlen Hle] _].
    rewrite Hh, length_app in Hlen. cbn in Hlen. lia.
  - rewrite Forall_fmap, Forall_fmap. eapply Forall_impl; [exact Hlens|].
    intros val [Hlen Hle]. cbn.
    rewrite !length_fmap, length_app, length_replicate. lia.
Qed.

(** The distance step on the rows a reassignment has written, under the
    subsequence metric. *)
Lemma padded_rows_subsequence data (h : pathway → list frame) (L : nat) naux
    file_name out_dir fs :
  data ≠ [] →
  Forall (λ val, front_ok d (h val) val) data →
  Forall (λ val, length (h val) = length val ∧ (length val ≤ L)%nat) data →
  let rows := zip_with (λ val traj, h val ++ drop (length val) traj) data
                (replicate (length data) (replicate L (zero_frame naux))) in
  ∃ distmat,
    gen_dist_matrix (expand_shorter_traj rows d) d file_name out_dir true true fs
    = (Ok (distmat, head_weight <$> data), numpy_save file_name distmat fs) ∧
    square (length data) distmat ∧ symmetric distmat ∧
    zero_diagonal (length data) distmat ∧
    ∀ i j val1 val2, data !! i = Some val1 → data !! j = Some val2 →
      ∃ q, calc_dist (state_id <$> h val1) (state_id <$> h val2) d = Ok q ∧
           entry distmat i j = Some q.
Proof.
  intros Hdata Hfront Hlens rows.
  set (padded := λ val : pathway,
         expand_step d <$> (h val ++ replicate (L - length val) (zero_frame naux))).
  assert (Hrows : expand_shorter_traj rows d = padded <$> data).
  { unfold rows, expand_shorter_traj. rewrite zip_with_replicate_r_eq by done.
    rewrite <-list_fmap_compose. apply list_fmap_ext. intros i val _. cbn.
    unfold padded. by rewrite drop_replicate. }
  rewrite Hrows.
  assert (Hrect : rectangular ((λ pathway : pathway, state_id <$> pathway)
                                 <$> (padded <$> data))).
  { by apply padded_rectangular. }
  assert (Hrow : ∀ val, val ∈ data →
            pathway_weight true d (padded val) = Ok (head_weight val) ∧
            comparable true d (state_id <$> padded val) ∧
            filter (λ x, x < len_dict d - 1) (state_id <$> padded val)
            = filter (λ x, x < len_dict d - 1) (state_id <$> h val)).
  { intros val Hval. apply padded_row_subsequence.
    rewrite Forall_forall in Hfront. by apply Hfront. }
  destruct (gen_dist_matrix_entries (padded <$> data) d file_name out_dir true fs
              (head_weight <$> data)) as (distmat & Hrun & Hsq & Hsym & Hdiag & Hentry).
  { apply mapM_result_Ok, Forall2_fmap, Forall_Forall2_diag, Forall_forall.
    intros val Hval. by apply Hrow. }
  { rewrite Forall_fmap, Forall_fmap. apply Forall_forall.
    intros val Hval. by apply Hrow. }
  { exact Hrect. }
  rewrite length_fmap in Hsq, Hdiag.
  exists distmat. split_and!; try done.
  intros i j val1 val2 H1 H2.
  destruct (Hentry i j (padded val1) (padded val2)) as (q & Hq & He).
  { by rewrite list_lookup_fmap, H1. }
  { by rewrite list_lookup_fmap, H2. }
  exists q. split; [|done]. rewrite <-Hq. cbn [distance].
  symmetry. apply calc_dist_known; apply Hrow; by eapply list_elem_of_lookup_2.
Qed.
End Rows.

Section Loaded.
Implicit Types data pathways : list pathway.

Lemma load_data_Ok data :
  data ≠ [] → Forall (λ val : pathway, val ≠ []) data →
  ∃ naux, load_data data
          = Ok (data, replicate (length data)
                        (replicate (max_list (length <$> data)) (zero_frame naux))).
Proof.
  intros Hne Hall. destruct data as [|[|f p] rest]; [done| |].
  { apply Forall_cons in Hall as [? _]. done. }
  eexists. unfold load_data. rewrite decide_False by done. reflexivity.
Qed.

Lemma length_segid_row (val traj : pathway) :
  length (segid_row val traj) = (length val `max` length traj)%nat.
Proof.
  unfold segid_row. rewrite length_app, length_fmap, length_reverse, length_drop. lia.
Qed.

(** The run of [reassign_segid] on loaded data. *)
Lemma reassign_segid_loaded data pathways0 :
  load_data data = Ok (data, pathways0) →
  Forall (λ step, 0 ≤ segment_id step < 1114047) (concat data) →
  ∃ m, py_max (state_id <$> concat (zip_with segid_row data pathways0)) = Ok m ∧
       0 ≤ m ∧
       reassign_segid data pathways0 ∅
       = Ok (zip_with segid_row data pathways0,
             <[m + 1 := str "!"]>
               (foldl (λ d idx, <[idx := [Z.to_N (idx + 65)]]> d) (∅ : gmap Z pystr)
                  (py_range (m + 1)))).
Proof.
  intros Hload Hseg.
  destruct (py_max_is_Ok (state_id <$> concat (zip_with segid_row data pathways0)))
    as [m Hm].
  { eapply loaded_rows_nonempty; [done|]. apply length_segid_row. }
  assert (Houter : segid_outer pathways0 0 data = Ok (zip_with segid_row data pathways0)).
  { apply load_data_inv in Hload as (_ & _ & ->).
    apply (segid_outer_spec data []).
    apply rows_fit, Forall_forall. intros val Hval.
    apply max_list_elem_of_le. by apply list_elem_of_fmap_2. }
  assert (0 ≤ m < 1114047) as Hm0.
  { pose proof (py_max_elem_of _ _ Hm) as Hin.
    apply list_elem_of_fmap in Hin as (step & -> & Hstep).
    apply elem_of_concat in Hstep as (row & Hrow & Hstep).
    apply elem_of_zip_with in Hrow as (val & traj & -> & Hval & Htraj).
    apply load_data_inv in Hload as (_ & _ & ->).
    apply elem_of_replicate_inv in Htraj as ->.
    apply segid_row_frames in Hstep as [->|(val2 & Hval2 & ->)]; [cbn; lia|].
    cbn. rewrite Forall_forall in Hseg. apply Hseg, elem_of_concat. by exists val. }
  exists m. split_and!; [done|lia|].
  unfold reassign_segid. rewrite Houter. cbn [mbind result_bind].
  rewrite Hm. cbn [mbind result_bind].
  rewrite segid_letters_spec; [done|].
  apply Forall_forall. intros idx Hidx%elem_of_py_range. lia.
Qed.
End Loaded.

Section SegidRun.
Implicit Types data : list pathway.

(** Loading the data and reassigning with segment ids. *)
Lemma segid_run data :
  data ≠ [] →
  Forall (λ val : pathway, val ≠ []) data →
  Forall (λ step, iteration_id step ≠ 0 ∧
                  (0 ≤ segment_id step < 55231 ∨ 57278 < segment_id step < 1114047))
    (concat data) →
  ∃ naux dictionary,
    ('(data', pathways) ← load_data data; reassign_segid data' pathways ∅)
    = Ok (zip_with segid_row data
            (replicate (length data)
               (replicate (max_list (length <$> data)) (zero_frame naux))),
          dictionary) ∧
    (∀ step, step ∈ concat data →
       dictionary !! segment_id step = Some [Z.to_N (segment_id step + 65)]) ∧
    dictionary !! (len_dict dictionary - 1) = Some (str "!") ∧
    Forall (λ val, front_ok dictionary (segid_frame <$> reverse val) val ∧
                   length (segid_frame <$> reverse val) = length val ∧
                   Forall (λ step, state_id step < len_dict dictionary - 1)
                     (segid_frame <$> reverse val)) data.
Proof.
  intros Hne Hnonempty Hframes.
  destruct (load_data_Ok data Hne Hnonempty) as (naux & Hload).
  set (L := max_list (length <$> data)) in *.
  set (pathways0 := replicate (length data) (replicate L (zero_frame naux))) in *.
  destruct (reassign_segid_loaded data pathways0 Hload) as (m & Hm & Hm0 & Hrun).
  { eapply Forall_impl; [exact Hframes|]. intros step [_ ?]. cbn in *. lia. }
  destruct (segid_dictionary (m + 1) ltac:(lia)) as (Hlook & Hunk & Hidx & Hlen).
  cbn zeta in Hlook, Hunk, Hidx, Hlen.
  set (dictionary := <[m + 1 := str "!"]> _) in *.
  assert (Hle : ∀ val step, val ∈ data → step ∈ val → 0 ≤ segment_id step ≤ m).
  { intros val step Hval Hstep. split.
    - rewrite Forall_forall in Hframes.
      assert (step ∈ concat data) as Hin by (apply elem_of_concat; by exists val).
      apply Hframes in Hin. lia.
    - assert (segid_frame step ∈ concat (zip_with segid_row data pathways0)) as Hin.
      { apply elem_of_concat. exists (segid_row val (replicate L (zero_frame naux))).
        split.
        - apply elem_of_lookup_zip_with.
          apply list_elem_of_lookup in Hval as [i Hi].
          exists i, val, (replicate L (zero_frame naux)).
          split_and!; [done..|]. unfold pathways0. apply lookup_replicate_2.
          by eapply lookup_lt_Some.
        - unfold segid_row. apply elem_of_app. left.
          apply list_elem_of_fmap_2. by rewrite elem_of_reverse. }
      apply (list_elem_of_fmap_2 state_id) in Hin.
      exact (py_max_ge _ _ _ Hm Hin). }
  exists naux, dictionary. split_and!.
  - rewrite Hload. cbn [mbind result_bind]. exact Hrun.
  - intros step (val & Hval & Hstep)%elem_of_concat.
    apply Hlook. pose proof (Hle val step Hval Hstep). lia.
  - by rewrite Hlen, Hunk.
  - apply Forall_forall. intros val Hval.
    assert (Hbelow : Forall (λ step, state_id step < len_dict dictionary - 1)
                       (segid_frame <$> reverse val)).
    { rewrite Forall_fmap. apply Forall_forall. intros step Hstep.
      rewrite elem_of_reverse in Hstep. cbn.
      pose proof (Hle val step Hval Hstep). lia. }
    split_and!; [|by rewrite length_fmap, length_reverse|done].
    unfold front_ok. split_and!.
    + rewrite Forall_fmap. apply Forall_forall. intros step Hstep.
      rewrite elem_of_reverse in Hstep. cbn. rewrite Forall_forall in Hframes.
      apply (Hframes step). apply elem_of_concat. by exists val.
    + rewrite Forall_fmap. apply Forall_forall. intros step Hstep _.
      rewrite elem_of_reverse in Hstep.
      cbn. rewrite Hlook by (pose proof (Hle val step Hval Hstep); lia).
      eexists. split; [done|]. apply chr_encodable.
      rewrite Forall_forall in Hframes.
      assert (step ∈ concat data) as Hin by (apply elem_of_concat; by exists val).
      apply Hframes in Hin. lia.
    + rewrite Forall_forall in Hnonempty. pose proof (Hnonempty val Hval) as Hv.
      destruct val as [|first p]; [done|].
      pose proof (Hle _ first Hval ltac:(by left)) as Hfirst.
      exists (segid_frame <$> reverse p), (segid_frame first), first,
        [Z.to_N (segment_id first + 65)].
      rewrite reverse_cons, fmap_app. cbn.
      split_and!; [done..|lia| |done]. apply Hlook. lia.
Qed.
End SegidRun.

Lemma length_le_longest (data : list pathway) (val : pathway) :
  val ∈ data → (length val ≤ max_list (length <$> data))%nat.
Proof. intros Hval. apply max_list_elem_of_le. by apply list_elem_of_fmap_2. Qed.

(** X20. The distance step of [main] with [reassign_segid] and the
    subsequence metric.  For data that is not empty, of pathways that are
    not empty, with iterations other than 0 and segment ids in
    [0 .. 1114046] but not in [55231 .. 57278] (whose symbols [chr(65 + s)]
    are surrogates, which [pylcs] refuses), the step returns: as weights, the weight column of the
    first frame of each pathway of the data; a matrix that is square of the
    size of the data, symmetric, with a zero diagonal, holding at [(i, j)]
    the distance [calc_dist] of the flipped segment-id sequences of
    pathways [i] and [j], without padding; and the matrix is saved. *)
Theorem main_segid_subsequence (data : list pathway) (file_name out_dir : string)
    (fs : store) :
  data ≠ [] →
  Forall (λ val : pathway, val ≠ []) data →
  Forall (λ step, iteration_id step ≠ 0 ∧
                  (0 ≤ segment_id step < 55231 ∨ 57278 < segment_id step < 1114047))
    (concat data) →
  ∃ distmat dictionary,
    main_dist_matrix reassign_segid data file_name out_dir true true fs
    = (Ok (distmat, head_weight <$> data), numpy_save file_name distmat fs) ∧
    (∀ step, step ∈ concat data →
       dictionary !! segment_id step = Some [Z.to_N (segment_id step + 65)]) ∧
    square (length data) distmat ∧ symmetric distmat ∧
    zero_diagonal (length data) distmat ∧
    ∀ i j val1 val2, data !! i = Some val1 → data !! j = Some val2 →
      ∃ q, calc_dist (segment_id <$> reverse val1) (segment_id <$> reverse val2)
             dictionary = Ok q ∧
           entry distmat i j = Some q.
Proof.
  intros Hne Hnonempty Hframes.
  destruct (segid_run data Hne Hnonempty Hframes)
    as (naux & dictionary & Hrun & Hdict & _ & Hfront).
  destruct (padded_rows_subsequence dictionary data (λ val, segid_frame <$> reverse val)
              (max_list (length <$> data)) naux file_name out_dir fs)
    as (distmat & Hgen & Hsq & Hsym & Hdiag & Hentry).
  { done. }
  { eapply Forall_impl; [exact Hfront|]. by intros val [? _]. }
  { apply Forall_forall. intros val Hval. rewrite Forall_forall in Hfront.
    destruct (Hfront val Hval) as (_ & Hlen & _).
    split; [done|]. by apply length_le_longest. }
  exists distmat, dictionary. split_and!; try done.
  - unfold main_dist_matrix. rewrite Hrun. exact Hgen.
  - intros i j val1 val2 H1 H2.
    destruct (Hentry i j val1 val2 H1 H2) as (q & Hq & He).
    exists q. split; [|done]. rewrite <-Hq.
    by rewrite <-!list_fmap_compose.
Qed.

(** The theorem on the pathway through segments 3 and 7. *)
Lemma main_segid_subsequence_witness :
  Forall (λ step, iteration_id step ≠ 0 ∧
                  (0 ≤ segment_id step < 55231 ∨ 57278 < segment_id step < 1114047))
    (concat segid_data) ∧
  ∃ (distmat : matrix) (dictionary : gmap Z pystr),
    main_dist_matrix reassign_segid segid_data "distmat.npy" "succ_traj" true true ∅
    = (Ok (distmat, head_weight <$> segid_data), numpy_save "distmat.npy" distmat ∅) ∧
    (∀ step, step ∈ concat segid_data →
       dictionary !! segment_id step = Some [Z.to_N (segment_id step + 65)]) ∧
    square (length segid_data) distmat.
Proof.
  assert (Hf : Forall (λ step, iteration_id step ≠ 0 ∧
                         (0 ≤ segment_id step < 55231 ∨
                          57278 < segment_id step < 1114047))
                 (concat segid_data)) by (repeat constructor; cbn; lia).
  split; [exact Hf|].
  destruct (main_segid_subsequence segid_data "distmat.npy" "succ_traj" ∅)
    as (distmat & dictionary & Hrun & Hdict & Hsq & _);
    [discriminate|repeat constructor; discriminate|exact Hf|].
  by exists distmat, dictionary.
Defined.

(** The decimal digits of a number are not the empty string. *)
Section Decimal.
Lemma pretty_N_go_nonempty (x : N) (s : string) :
  s ≠ EmptyString → pretty_N_go x s ≠ EmptyString.
Proof.
  revert s. induction (N.lt_wf_0 x) as [x _ IH]; intros s Hs.
  assert (x = 0 ∨ 0 < x)%N as [->|Hpos] by lia.
  - by rewrite pretty_N_go_0.
  - rewrite pretty_N_go_step by done. apply IH; [|done].
    by apply N.div_lt.
Qed.

Lemma pretty_N_nonempty (x : N) : pretty x ≠ EmptyString.
Proof.
  unfold pretty, pretty_N. case_decide; [done|].
  rewrite pretty_N_go_step by lia. by apply pretty_N_go_nonempty.
Qed.

Lemma str_of_int_nonempty (k : Z) : str_of_int k ≠ [].
Proof.
  unfold str_of_int.
  assert (pretty k ≠ EmptyString) as Hne.
  { destruct k as [|p|p]; [done| |done]. apply (pretty_N_nonempty (Npos p)). }
  by destruct (pretty k).
Qed.
End Decimal.

(** X21. The distance step of [main] with [reassign_identity] (the default
    method) and the subsequence metric, for data that is not empty, of
    pathways that are not empty, with iterations other than 0 and states
    that are not negative: the weights are the weight columns of the first
    frames of the pathways, the matrix is square, symmetric, with a zero
    diagonal, and holds at [(i, j)] the distance [calc_dist] of the flipped
    state sequences of pathways [i] and [j]. *)
Theorem main_identity_subsequence (data : list pathway) (file_name out_dir : string)
    (fs : store) :
  data ≠ [] →
  Forall (λ val : pathway, val ≠ []) data →
  Forall (λ step, iteration_id step ≠ 0 ∧ 0 ≤ state_id step) (concat data) →
  ∃ distmat dictionary,
    main_dist_matrix reassign_identity data file_name out_dir true true fs
    = (Ok (distmat, head_weight <$> data), numpy_save file_name distmat fs) ∧
    (∀ step, step ∈ concat data →
       dictionary !! state_id step = Some (str_of_int (state_id step))) ∧
    square (length data) distmat ∧ symmetric distmat ∧
    zero_diagonal (length data) distmat ∧
    ∀ i j val1 val2, data !! i = Some val1 → data !! j = Some val2 →
      ∃ q, calc_dist (state_id <$> reverse val1) (state_id <$> reverse val2)
             dictionary = Ok q ∧
           entry distmat i j = Some q.
Proof.
  intros Hne Hnonempty Hframes.
  destruct (load_data_Ok data Hne Hnonempty) as (naux & Hload).
  set (L := max_list (length <$> data)) in *.
  set (pathways0 := replicate (length data) (replicate L (zero_frame naux))) in *.
  destruct (reassign_identity_loaded data pathways0 Hload) as (m & Hm & Hrun).
  assert (Hle : ∀ val step, val ∈ data → step ∈ val → 0 ≤ state_id step ≤ m).
  { intros val step Hval Hstep. split.
    - rewrite Forall_forall in Hframes.
      apply (Hframes step). apply elem_of_concat. by exists val.
    - assert (step ∈ concat (zip_with copy_row data pathways0)) as Hin.
      { apply elem_of_concat. exists (copy_row val (replicate L (zero_frame naux))).
        split.
        - apply elem_of_lookup_zip_with.
          apply list_elem_of_lookup in Hval as [i Hi].
          exists i, val, (replicate L (zero_frame naux)).
          split_and!; [done..|]. unfold pathways0. apply lookup_replicate_2.
          by eapply lookup_lt_Some.
        - unfold copy_row. apply elem_of_app. left. by rewrite elem_of_reverse. }
      apply (list_elem_of_fmap_2 state_id) in Hin.
      exact (py_max_ge _ _ _ Hm Hin). }
  assert (0 ≤ m) as Hm0.
  { destruct data as [|[|first p] rest]; [done| |].
    - apply Forall_cons in Hnonempty as [? _]. done.
    - pose proof (Hle (first :: p) first ltac:(by left) ltac:(by left)). lia. }
  destruct (identity_dictionary (m + 1) ltac:(lia)) as (Hlook & Hunk & Hidx & Hlen).
  cbn zeta in Hlook, Hunk, Hidx, Hlen.
  set (dictionary := <[m + 1 := str "!"]> _) in *.
  destruct (padded_rows_subsequence dictionary data (λ val, reverse val)
              L naux file_name out_dir fs) as (distmat & Hgen & Hsq & Hsym & Hdiag & Hentry).
  { done. }
  2:{ apply Forall_forall. intros val Hval.
      split; [by rewrite length_reverse|]. by apply length_le_longest. }
  { apply Forall_forall. intros val Hval. split_and!.
    - apply Forall_forall. intros step Hstep.
      rewrite elem_of_reverse in Hstep. rewrite Forall_forall in Hframes.
      apply (Hframes step). apply elem_of_concat. by exists val.
    - apply Forall_forall. intros step Hstep _.
      rewrite elem_of_reverse in Hstep.
      rewrite Hlook by (pose proof (Hle val step Hval Hstep); lia).
      eexists. split; [done|]. apply str_encodable.
    - rewrite Forall_forall in Hnonempty. pose proof (Hnonempty val Hval) as Hv.
      destruct val as [|first p]; [done|].
      pose proof (Hle _ first Hval ltac:(by left)) as Hfirst.
      exists (reverse p), first, first, (str_of_int (state_id first)).
      rewrite reverse_cons.
      split_and!; [done..|lia| |apply str_of_int_nonempty]. apply Hlook. lia. }
  exists distmat, dictionary. split_and!; try done.
  - unfold main_dist_matrix. rewrite Hload. cbn [mbind result_bind].
    rewrite Hrun. exact Hgen.
  - intros step (val & Hval & Hstep)%elem_of_concat.
    apply Hlook. pose proof (Hle val step Hval Hstep). lia.
Qed.

(** The theorem on two pathways of two frames. *)
Lemma main_identity_subsequence_witness :
  Forall (λ step, iteration_id step ≠ 0 ∧ 0 ≤ state_id step) (concat rep_pathways) ∧
  ∃ distmat : matrix,
    main_dist_matrix reassign_identity rep_pathways "distmat.npy" "succ_traj" true true ∅
    = (Ok (distmat, head_weight <$> rep_pathways), numpy_save "distmat.npy" distmat ∅) ∧
    square (length rep_pathways) distmat ∧ symmetric distmat.
Proof.
  assert (Hf : Forall (λ step, iteration_id step ≠ 0 ∧ 0 ≤ state_id step)
                 (concat rep_pathways)) by (repeat constructor; cbn; lia).
  split; [exact Hf|].
  destruct (main_identity_subsequence rep_pathways "distmat.npy" "succ_traj" ∅)
    as (distmat & dictionary & Hrun & _ & Hsq & Hsym & _);
    [discriminate|repeat constructor; discriminate|exact Hf|].
  by exists distmat.
Defined.

(** *** The substring metric *)

Section Substring.
Context (d : gmap Z pystr).
Implicit Types val front : pathway.
Implicit Types data : list pathway.

Lemma expand_step_real front :
  Forall (λ step, iteration_id step ≠ 0) front → expand_step d <$> front = front.
Proof.
  induction 1 as [|step front Hstep _ IH]; [done|].
  cbn. rewrite IH. unfold expand_step. by rewrite decide_False.
Qed.

Lemma expand_step_zero (n : nat) naux :
  expand_step d <$> replicate n (zero_frame naux)
  = replicate n (set_state_id (zero_frame naux) (len_dict d - 1)).
Proof. by rewrite fmap_replicate. Qed.

Lemma join_states_total (seq : list Z) :
  Forall (λ x, is_Some (d !! x)) seq → is_Ok (join_states d seq).
Proof.
  intros Hall. pose proof (join_states_cases d seq) as Hj.
  destruct (join_states d seq) as [s|e]; [by eexists|].
  destruct Hj as [_ (x & Hin & Hnone)%Exists_exists].
  rewrite Forall_forall in Hall. destruct (Hall x Hin) as [? ?]. congruence.
Qed.

(** The padded row of a pathway, under the substring metric: its weight is
    0 when the pathway is shorter than the row, and its string holds the
    padding. *)
Lemma padded_row_substring val front (L : nat) naux :
  front_ok d front val →
  length front = length val →
  Forall (λ step, state_id step < len_dict d - 1) front →
  (∃ s, d !! (len_dict d - 1) = Some s ∧ pylcs.utf8_encodable s = true) →
  let row := expand_step d <$> (front ++ replicate (L - length val) (zero_frame naux)) in
  pathway_weight false d row = Ok (substring_weight L val) ∧
  comparable false d (state_id <$> row) ∧
  state_id <$> row = padded_states d L (state_id <$> front).
Proof.
  intros (Hreal & Hkeys & pre & step & first & s & Hh & Hhead & Hw & Hlt & Hs & Hne)
    Hlen Hbelow Hunk row.
  assert (Hrow : row = front ++ replicate (L - length val)
                                  (set_state_id (zero_frame naux) (len_dict d - 1))).
  { unfold row. by rewrite fmap_app, expand_step_real, expand_step_zero. }
  assert (Hstates : state_id <$> row = padded_states d L (state_id <$> front)).
  { rewrite Hrow, fmap_app, fmap_replicate. unfold padded_states.
    by rewrite length_fmap, Hlen. }
  split_and!; [| |done].
  - unfold pathway_weight, last_weight, substring_weight. rewrite Hrow.
    destruct (decide (length val < L)%nat) as [Hshort|Hlong].
    + replace (L - length val)%nat with (S (L - length val - 1)) by lia.
      rewrite replicate_S_end, app_assoc, last_snoc. done.
    + replace (L - length val)%nat with 0%nat by lia.
      cbn [replicate]. rewrite app_nil_r, Hh, last_snoc.
      unfold head_weight. by rewrite Hhead, Hw.
  - unfold comparable. cbn [metric_string]. rewrite Hstates. unfold padded_states.
    destruct (join_states_total
                ((state_id <$> front)
                 ++ replicate (L - length (state_id <$> front)) (len_dict d - 1)))
      as [str Hstr].
    { apply Forall_app. split.
      - rewrite Forall_fmap. apply Forall_forall. intros f Hf. cbn.
        rewrite Forall_forall in Hkeys, Hbelow.
        destruct (Hkeys f Hf) as (sf & -> & _); [by apply Hbelow|]. by eexists.
      - apply Forall_replicate. destruct Hunk as (su & -> & _). by eexists. }
    exists str. split; [done|]. split.
    2:{ apply (join_states_encodable_seq d _ _) in Hstr; [done|].
        apply Forall_app. split.
        - rewrite Forall_fmap. apply Forall_forall. intros f Hf. cbn.
          rewrite Forall_forall in Hkeys, Hbelow. apply Hkeys; [done|].
          by apply Hbelow.
        - by apply Forall_replicate. }
    rewrite Hh, fmap_app, <-app_assoc in Hstr. cbn [fmap list_fmap app] in Hstr.
    rewrite join_states_app in Hstr.
    destruct (join_states d (state_id <$> pre)) as [s1|]; [|done].
    cbn [mbind result_bind join_states] in Hstr.
    unfold getitem in Hstr. rewrite Hs in Hstr. cbn [mbind result_bind] in Hstr.
    destruct (join_states d (replicate _ _)) as [s2|]; [|done].
    cbn [mbind result_bind] in Hstr. injection Hstr as <-. by destruct s1, s.
Qed.

Lemma padded_rows_substring data (h : pathway → list frame) naux
    file_name out_dir fs :
  data ≠ [] →
  Forall (λ val, front_ok d (h val) val ∧ length (h val) = length val ∧
                 Forall (λ step, state_id step < len_dict d - 1) (h val)) data →
  (∃ s, d !! (len_dict d - 1) = Some s ∧ pylcs.utf8_encodable s = true) →
  let L := max_list (length <$> data) in
  let rows := zip_with (λ val traj, h val ++ drop (length val) traj) data
                (replicate (length data) (replicate L (zero_frame naux))) in
  ∃ distmat,
    gen_dist_matrix (expand_shorter_traj rows d) d file_name out_dir true false fs
    = (Ok (distmat, substring_weight L <$> data), numpy_save file_name distmat fs) ∧
    square (length data) distmat ∧ symmetric distmat ∧
    zero_diagonal (length data) distmat ∧
    ∀ i j val1 val2, data !! i = Some val1 → data !! j = Some val2 →
      ∃ q, calc_dist_substr (padded_states d L (state_id <$> h val1))
             (padded_states d L (state_id <$> h val2)) d = Ok q ∧
           entry distmat i j = Some q.
Proof.
  intros Hdata Hfront Hunk L rows.
  set (padded := λ val : pathway,
         expand_step d <$> (h val ++ replicate (L - length val) (zero_frame naux))).
  assert (Hrows : expand_shorter_traj rows d = padded <$> data).
  { unfold rows, expand_shorter_traj. rewrite zip_with_replicate_r_eq by done.
    rewrite <-list_fmap_compose. apply list_fmap_ext. intros i val _. cbn.
    unfold padded. by rewrite drop_replicate. }
  rewrite Hrows.
  assert (Hrect : rectangular ((λ pathway : pathway, state_id <$> pathway)
                                 <$> (padded <$> data))).
  { apply padded_rectangular; [done| |].
    - eapply Forall_impl; [exact Hfront|]. by intros val [? _].
    - apply Forall_forall. intros val Hval. rewrite Forall_forall in Hfront.
      destruct (Hfront val Hval) as (_ & Hlen & _).
      split; [done|]. by apply length_le_longest. }
  assert (Hrow : ∀ val, val ∈ data →
            pathway_weight false d (padded val) = Ok (substring_weight L val) ∧
            comparable false d (state_id <$> padded val) ∧
            state_id <$> padded val = padded_states d L (state_id <$> h val)).
  { intros val Hval. rewrite Forall_forall in Hfront.
    destruct (Hfront val Hval) as (? & ? & ?). by apply padded_row_substring. }
  destruct (gen_dist_matrix_entries (padded <$> data) d file_name out_dir false fs
              (substring_weight L <$> data))
    as (distmat & Hrun & Hsq & Hsym & Hdiag & Hentry).
  { apply mapM_result_Ok, Forall2_fmap, Forall_Forall2_diag, Forall_forall.
    intros val Hval. by apply Hrow. }
  { rewrite Forall_fmap, Forall_fmap. apply Forall_forall.
    intros val Hval. by apply Hrow. }
  { exact Hrect. }
  rewrite length_fmap in Hsq, Hdiag.
  exists distmat. split_and!; try done.
  intros i j val1 val2 H1 H2.
  destruct (Hentry i j (padded val1) (padded val2)) as (q & Hq & He).
  { by rewrite list_lookup_fmap, H1. }
  { by rewrite list_lookup_fmap, H2. }
  exists q. split; [|done]. rewrite <-Hq. cbn [distance].
  destruct (Hrow val1) as (_ & _ & ->); [by eapply list_elem_of_lookup_2|].
  destruct (Hrow val2) as (_ & _ & ->); [by eapply list_elem_of_lookup_2|].
  done.
Qed.
End Substring.

(** X22. The distance step of [main] with [reassign_segid] and the
    substring metric.  Every pathway shorter than the longest one gets the
    weight 0, the weight column of its last padding frame, and the others
    the weight column of their first frame (for data that is not empty,
    of pathways that are not empty, with iterations other than 0 and
    segment ids in [0 .. 1114046] but not in [55231 .. 57278], whose
    symbols are surrogates); the strings compared hold one
    "!" per padding frame: the entry at [(i, j)] is [calc_dist_substr] on
    the segment-id sequences extended with the unknown index up to the
    length of the longest pathway. *)
Theorem main_segid_substring (data : list pathway) (file_name out_dir : string)
    (fs : store) :
  data ≠ [] →
  Forall (λ val : pathway, val ≠ []) data →
  Forall (λ step, iteration_id step ≠ 0 ∧
                  (0 ≤ segment_id step < 55231 ∨ 57278 < segment_id step < 1114047))
    (concat data) →
  ∃ distmat dictionary,
    main_dist_matrix reassign_segid data file_name out_dir true false fs
    = (Ok (distmat, substring_weight (max_list (length <$> data)) <$> data),
       numpy_save file_name distmat fs) ∧
    square (length data) distmat ∧ symmetric distmat ∧
    zero_diagonal (length data) distmat ∧
    ∀ i j val1 val2, data !! i = Some val1 → data !! j = Some val2 →
      ∃ q, calc_dist_substr
             (padded_states dictionary (max_list (length <$> data))
                (segment_id <$> reverse val1))
             (padded_states dictionary (max_list (length <$> data))
                (segment_id <$> reverse val2))
             dictionary = Ok q ∧
           entry distmat i j = Some q.
Proof.
  intros Hne Hnonempty Hframes.
  destruct (segid_run data Hne Hnonempty Hframes)
    as (naux & dictionary & Hrun & Hdict & Hunk & Hfront).
  destruct (padded_rows_substring dictionary data (λ val, segid_frame <$> reverse val)
              naux file_name out_dir fs Hne Hfront)
    as (distmat & Hgen & Hsq & Hsym & Hdiag & Hentry).
  { exists (str "!"). split; [done|]. apply str_encodable. }
  exists distmat, dictionary. split_and!; try done.
  - unfold main_dist_matrix. rewrite Hrun. exact Hgen.
  - intros i j val1 val2 H1 H2.
    destruct (Hentry i j val1 val2 H1 H2) as (q & Hq & He).
    exists q. split; [|done]. rewrite <-Hq.
    by rewrite <-!list_fmap_compose.
Qed.

(** The theorem on a pathway of one frame next to one of two frames: the
    shorter one gets the weight 0. *)
Lemma main_segid_substring_witness :
  Forall (λ step, iteration_id step ≠ 0 ∧
                  (0 ≤ segment_id step < 55231 ∨ 57278 < segment_id step < 1114047))
    (concat [[fr 1 0 0 (1 # 2)]; [fr 2 1 1 (1 # 4); fr 1 1 0 (1 # 4)]]) ∧
  ∃ distmat : matrix,
    main_dist_matrix reassign_segid
      [[fr 1 0 0 (1 # 2)]; [fr 2 1 1 (1 # 4); fr 1 1 0 (1 # 4)]]
      "distmat.npy" "succ_traj" true false ∅
    = (Ok (distmat, [0%Q; (1 # 4)%Q]), numpy_save "distmat.npy" distmat ∅) ∧
    symmetric distmat.
Proof.
  assert (Hf : Forall (λ step, iteration_id step ≠ 0 ∧
                         (0 ≤ segment_id step < 55231 ∨
                          57278 < segment_id step < 1114047))
                 (concat [[fr 1 0 0 (1 # 2)]; [fr 2 1 1 (1 # 4); fr 1 1 0 (1 # 4)]]))
    by (repeat constructor; cbn; lia).
  split; [exact Hf|].
  destruct (main_segid_substring
              [[fr 1 0 0 (1 # 2)]; [fr 2 1 1 (1 # 4); fr 1 1 0 (1 # 4)]]
              "distmat.npy" "succ_traj" ∅)
    as (distmat & dictionary & Hrun & _ & Hsym & _);
    [discriminate|repeat constructor; discriminate|exact Hf|].
  by exists distmat.
Defined.

Section CustomFronts.
Implicit Types data : list pathway.

Lemma contact_index_lt (val : pathway) :
  Exists in_contact val → (contact_index (reverse val) < length val)%nat.
Proof.
  intros Hex. unfold contact_index.
  pose proof (first_contact_from_cases (reverse val) 0) as Hfc.
  destruct (first_contact_from 0 (reverse val)) as [fc|e].
  - destruct Hfc as (pre & step & post & Hrev & -> & _).
    apply (f_equal length) in Hrev.
    rewrite length_reverse, length_app in Hrev. cbn in Hrev. lia.
  - destruct Hfc as [_ Hnone]. exfalso.
    apply Exists_exists in Hex as (step & Hin & Hstep).
    rewrite Forall_forall in Hnone. apply (Hnone step); [|done].
    by rewrite elem_of_reverse.
Qed.

Lemma dictAB_lookup (k : Z) :
  0 ≤ k ≤ 1 →
  ∃ s, dictAB !! k = Some s ∧ s ≠ [] ∧ pylcs.utf8_encodable s = true.
Proof.
  intros Hk. assert (k = 0 ∨ k = 1) as [-> | ->] by lia; by eexists.
Qed.

Lemma len_dictAB : len_dict dictAB - 1 = 2.
Proof. reflexivity. Qed.

(** The fronts of the rows [reassign_custom] writes. *)
Lemma custom_fronts data :
  Forall (λ val : pathway, Exists in_contact val) data →
  Forall (λ step, iteration_id step ≠ 0 ∧ 0 ≤ state_id step ≤ 9) (concat data) →
  Forall (λ val, front_ok dictAB
                   (imap (custom_frame (contact_index (reverse val))) (reverse val)) val)
    data.
Proof.
  intros Hcontact Hframes. apply Forall_forall. intros val Hval.
  rewrite Forall_forall in Hcontact. pose proof (Hcontact val Hval) as Hex.
  pose proof (contact_index_lt val Hex) as Hfc.
  set (fc := contact_index (reverse val)) in *.
  assert (Hin : ∀ step, step ∈ reverse val →
                iteration_id step ≠ 0 ∧ 0 ≤ state_id step ≤ 9).
  { intros step Hstep. rewrite elem_of_reverse in Hstep.
    rewrite Forall_forall in Hframes. apply Hframes, elem_of_concat. by exists val. }
  unfold front_ok. rewrite len_dictAB. split_and!.
  - apply Forall_forall. intros f Hf. apply list_elem_of_lookup in Hf as [k Hk].
    rewrite list_lookup_imap in Hk.
    destruct (reverse val !! k) as [step|] eqn:Hstep; [|done]. injection Hk as <-.
    cbn. by apply Hin, (list_elem_of_lookup_2 _ k).
  - apply Forall_forall. intros f Hf. apply list_elem_of_lookup in Hf as [k Hk].
    rewrite list_lookup_imap in Hk.
    destruct (reverse val !! k) as [step|] eqn:Hstep; [|done]. injection Hk as <-.
    unfold custom_frame. cbn. case_decide; [lia|]. intros _.
    destruct (dictAB_lookup (merge_state (state_id step))) as (s & -> & _ & He).
    { apply merge_state_range, Hin. by eapply list_elem_of_lookup_2. }
    by exists s.
  - destruct val as [|first p]; [cbn in Hfc; lia|].
    assert (0 ≤ merge_state (state_id first) ≤ 1) as Hm.
    { apply merge_state_range, Hin. rewrite elem_of_reverse. by left. }
    destruct (dictAB_lookup _ Hm) as (s & Hs & Hne & _).
    exists (imap (custom_frame fc) (reverse p)),
      (custom_frame fc (length p) first), first, s.
    assert (Hstate : state_id (custom_frame fc (length p) first)
                     = merge_state (state_id first)).
    { unfold custom_frame. cbn. rewrite decide_False; [done|]. cbn in Hfc. lia. }
    rewrite Hstate. split_and!; [|done|done|lia|done|done].
    rewrite reverse_cons, imap_app. cbn. by rewrite length_reverse, Nat.add_0_r.
Qed.
End CustomFronts.

(** X23. The distance step of [main] with [reassign_custom] and the
    subsequence metric, for data that is not empty, in which every pathway
    has a frame with column 3 below 5, with iterations other than 0 and
    states in [0 .. 9]: it returns the weight columns of the first frames
    of the pathways and a matrix that is square, symmetric, with a zero
    diagonal. *)
Theorem main_custom_subsequence (data : list pathway) (file_name out_dir : string)
    (fs : store) :
  data ≠ [] →
  Forall (λ val : pathway, Exists in_contact val) data →
  Forall (λ step, iteration_id step ≠ 0 ∧ 0 ≤ state_id step ≤ 9) (concat data) →
  ∃ distmat,
    main_dist_matrix reassign_custom data file_name out_dir true true fs
    = (Ok (distmat, head_weight <$> data), numpy_save file_name distmat fs) ∧
    square (length data) distmat ∧ symmetric distmat ∧
    zero_diagonal (length data) distmat.
Proof.
  intros Hne Hcontact Hframes.
  assert (Hnonempty : Forall (λ val : pathway, val ≠ []) data).
  { eapply Forall_impl; [exact Hcontact|]. intros val Hex ->. by inversion Hex. }
  destruct (load_data_Ok data Hne Hnonempty) as (naux & Hload).
  pose proof (reassign_custom_loaded data _ ∅ Hload Hcontact) as Hrun.
  destruct (padded_rows_subsequence dictAB data
              (λ val, imap (custom_frame (contact_index (reverse val))) (reverse val))
              (max_list (length <$> data)) naux file_name out_dir fs)
    as (distmat & Hgen & Hsq & Hsym & Hdiag & _).
  { done. }
  { by apply custom_fronts. }
  { apply Forall_forall. intros val Hval.
    split; [by rewrite length_imap, length_reverse|]. by apply length_le_longest. }
  exists distmat. split_and!; try done.
  unfold main_dist_matrix. rewrite Hload. cbn [mbind result_bind].
  rewrite Hrun. exact Hgen.
Qed.

(** The theorem on two pathways of two frames in contact. *)
Lemma main_custom_subsequence_witness :
  Forall (λ val : pathway, Exists in_contact val) rep_pathways ∧
  ∃ distmat : matrix,
    main_dist_matrix reassign_custom rep_pathways "distmat.npy" "succ_traj" true true ∅
    = (Ok (distmat, head_weight <$> rep_pathways), numpy_save "distmat.npy" distmat ∅) ∧
    square (length rep_pathways) distmat.
Proof.
  assert (Hc : Forall (λ val : pathway, Exists in_contact val) rep_pathways)
    by (repeat constructor).
  split; [exact Hc|].
  destruct (main_custom_subsequence rep_pathways "distmat.npy" "succ_traj" ∅)
    as (distmat & Hrun & Hsq & _);
    [discriminate|exact Hc|repeat constructor; cbn; lia|].
  by exists distmat.
Defined.
